(** * imapCleanup: the sync engine, the local store and the deletion engine

  A shallow embedding of [db.py], [imap_client.py], [fetch.py] and
  [delete.py].  Python integers are [Z]; [bytes] and [str] values are
  [string]; the SQLite tables are finite maps keyed by their primary key;
  exceptions are values of [exn] carried by [result]; the IMAP server is a
  deterministic oracle that answers a command from the history of the
  commands sent before it on the connection. *)

From Stdlib Require Import ZArith String Ascii List Lia.
From Stdlib Require DecimalString.
From stdpp Require Import gmap strings list fin_maps sorting.

Local Open Scope string_scope.
Local Open Scope Z_scope.
Local Open Scope list_scope.

(** ** Python preliminaries *)

Module Py.

Definition bytes := string.
Definition str := string.

(** The exceptions the sources raise or catch; all are subclasses of
    [Exception], the class the handlers of the sources name. *)
Inductive exn :=
| RuntimeError (msg : str)
| ValueError (msg : str)
| TypeError (msg : str)
| UnicodeDecodeError
| LookupError
| AttributeError (msg : str)
| IMAP4Error (msg : str)
| Sqlite3Error (msg : str)
| OtherError (msg : str).

Inductive result (A : Type) :=
| Return (a : A)
| Raise (e : exn).
Arguments Return {A} a.
Arguments Raise {A} e.

Definition bind {A B} (r : result A) (k : A -> result B) : result B :=
  match r with
  | Return a => k a
  | Raise e => Raise e
  end.

(** [try: body  except Exception as e: handler e] *)
Definition try_except {A} (body : result A) (handler : exn -> result A) : result A :=
  match body with
  | Return a => Return a
  | Raise e => handler e
  end.

Definition returns {A} (r : result A) : bool :=
  match r with Return _ => true | Raise _ => false end.

(** [range(0, stop, step)] as the list of the values the loop variable
    takes: the counter starts at 0 and grows by [step] while it is below
    [stop].  A zero step raises [ValueError]; a negative step with a
    non-negative [stop] yields nothing. *)
Fixpoint range_loop (fuel i stop step : nat) : list nat :=
  match fuel with
  | O => []
  | S fuel' =>
      if (i <? stop)%nat then i :: range_loop fuel' (i + step) stop step
      else []
  end.

Definition range (stop : nat) (step : Z) : result (list nat) :=
  if step =? 0 then Raise (ValueError "range() arg 3 must not be zero")
  else if step <? 0 then Return []
  else Return (range_loop stop 0 stop (Z.to_nat step)).

(** [l[i:i + n]] for [0 <= i]: Python clamps both ends of a slice.  With a
    negative [n] and [i + n >= 0] the slice is empty, which [Z.to_nat]
    gives; the sources only slice with the positive steps of [range]. *)
Definition slice {A} (l : list A) (i : nat) (n : Z) : list A :=
  take (Z.to_nat n) (drop i l).

(** [max(l)] *)
Definition max (l : list Z) : result Z :=
  match l with
  | [] => Raise (ValueError "max() arg is an empty sequence")
  | x :: l' => Return (fold_left Z.max l' x)
  end.

(** [sorted(l)] on integers. *)
Definition sorted (l : list Z) : list Z := merge_sort Z.le l.

(** A [dict] with integer keys, in insertion order: assigning to a key
    that is present replaces its value and keeps its position. *)
Fixpoint dict_set {V} (d : list (Z * V)) (k : Z) (v : V) : list (Z * V) :=
  match d with
  | [] => [(k, v)]
  | (k', v') :: d' =>
      if decide (k' = k) then (k, v) :: d' else (k', v') :: dict_set d' k v
  end.

(** [re.search(prefix + rb"(\d+)", s)] and [int] of its group 1, for a
    literal [prefix] in which ["."] stands for any byte but a newline:
    the leftmost place where the prefix is followed by a digit, and there
    the longest run of digits. *)
Definition is_digit (c : ascii) : bool :=
  let n := nat_of_ascii c in ((48 <=? n) && (n <=? 57))%nat.

Fixpoint match_literal (pat s : string) : option string :=
  match pat, s with
  | EmptyString, _ => Some s
  | String p pat', String c s' =>
      if (Ascii.eqb p "." && negb (Ascii.eqb c "010")) || Ascii.eqb p c
      then match_literal pat' s' else None
  | String _ _, EmptyString => None
  end.

Fixpoint digits_value (acc : Z) (s : string) : Z :=
  match s with
  | String c s' =>
      if is_digit c
      then digits_value (10 * acc + (Z.of_nat (nat_of_ascii c) - 48)) s'
      else acc
  | EmptyString => acc
  end.

Definition leading_number (s : string) : option Z :=
  match s with
  | String c _ => if is_digit c then Some (digits_value 0 s) else None
  | EmptyString => None
  end.

Fixpoint re_search_number (prefix s : string) : option Z :=
  let here :=
    match match_literal prefix s with
    | Some rest => leading_number rest
    | None => None
    end in
  match here with
  | Some n => Some n
  | None =>
      match s with
      | String _ s' => re_search_number prefix s'
      | EmptyString => None
      end
  end.

End Py.
Import Py.

Notation "x <- r ;; k" := (Py.bind r (fun x => k))
(at level 100, r at next level, right associativity, only parsing).

(** ** db.py: the local store *)

Module Db.

(** SQLite's [datetime('now')] is a logical clock: the value is the
    number of rows the database has written so far. *)
Definition timestamp := nat.

(** The dict [insert_email] binds: every value is an [int], a [str] or
    [None], the types [sqlite3] binds. *)
Record email_data := {
  uid : Z;
  message_id : option str;
  sender_raw : str;
  sender_email : str;
  sender_name : str;
  recipient_raw : str;
  subject : str;
  date_header : str;
  date_parsed : option str;
  size_bytes : Z
}.

(** A row of [emails]: the ten bound columns and [fetched_at]. *)
Record email_row := {
  row_data : email_data;
  fetched_at : timestamp
}.

(** The singleton row of [sync_state] ([id = 1]). *)
Record sync_row := {
  last_uid : Z;
  last_sync : option timestamp;
  total_messages : Z
}.

(** The database file: [emails] keyed by [uid], the row of [sync_state]
    when it exists, [deleted_uids] keyed by [uid] with [deleted_at]. *)
Record conn := {
  emails : gmap Z email_row;
  sync_state : option sync_row;
  deleted_uids : gmap Z timestamp;
  clock : nat
}.

Definition empty_db : conn :=
  {| emails := ∅; sync_state := None; deleted_uids := ∅; clock := O |}.

(** The file [get_connection] opens, for the callers that do not call
    [init_db] first ([delete.py]): [sqlite3.connect] creates a missing
    file, and the new file has no tables; a [conn] is a file that has
    them.  For [fetch_all], which begins with [init_db], a new file is
    [empty_db]. *)
Inductive database :=
| NoTables
| Tables (d : conn).

(** [init_db]: the tables exist in every [conn]; the statement with an
    effect is [INSERT OR IGNORE INTO sync_state ... VALUES (1, 0, NULL, 0)]. *)
Definition init_db (c : conn) : conn :=
  match sync_state c with
  | Some _ => c
  | None =>
      {| emails := emails c;
         sync_state := Some {| last_uid := 0; last_sync := None; total_messages := 0 |};
         deleted_uids := deleted_uids c;
         clock := S (clock c) |}
  end.

(** [insert_email]: [INSERT OR IGNORE] on the primary key [uid]; the
    result is [cursor.rowcount > 0]. *)
Definition insert_email (c : conn) (email : email_data) : bool * conn :=
  match emails c !! uid email with
  | Some _ => (false, c)
  | None =>
      (true,
       {| emails := <[uid email := {| row_data := email; fetched_at := clock c |}]> (emails c);
          sync_state := sync_state c;
          deleted_uids := deleted_uids c;
          clock := S (clock c) |})
  end.

(** [insert_emails_batch]: the loop, then [commit]; no statement of the
    loop raises, so [commit] is always reached and is not modelled. *)
Fixpoint insert_emails_batch (c : conn) (es : list email_data) : Z * conn :=
  match es with
  | [] => (0, c)
  | e :: es' =>
      let '(is_new, c1) := insert_email c e in
      let '(inserted, c2) := insert_emails_batch c1 es' in
      ((if is_new then 1 else 0) + inserted, c2)
  end.

(** [get_sync_state]: the row, or the default dict when there is none. *)
Definition get_sync_state (c : conn) : sync_row :=
  match sync_state c with
  | Some row => row
  | None => {| last_uid := 0; last_sync := None; total_messages := 0 |}
  end.

(** [update_sync_state]: [UPDATE sync_state SET ... WHERE id = 1]. *)
Definition update_sync_state (c : conn) (new_last_uid new_total : Z) : conn :=
  match sync_state c with
  | Some _ =>
      {| emails := emails c;
         sync_state := Some {| last_uid := new_last_uid;
                               last_sync := Some (clock c);
                               total_messages := new_total |};
         deleted_uids := deleted_uids c;
         clock := S (clock c) |}
  | None => c
  end.

(** One [INSERT OR IGNORE INTO deleted_uids (uid) VALUES (?)]. *)
Definition insert_deleted_uid (c : conn) (u : Z) : conn :=
  match deleted_uids c !! u with
  | Some _ => c
  | None =>
      {| emails := emails c;
         sync_state := sync_state c;
         deleted_uids := <[u := clock c]> (deleted_uids c);
         clock := S (clock c) |}
  end.

(** One [DELETE FROM emails WHERE uid = ?]. *)
Definition delete_email (c : conn) (u : Z) : conn :=
  {| emails := delete u (emails c);
     sync_state := sync_state c;
     deleted_uids := deleted_uids c;
     clock := clock c |}.

(** [mark_deleted]: the two [executemany] calls, in order. *)
Definition mark_deleted (c : conn) (uids : list Z) : conn :=
  fold_left delete_email uids (fold_left insert_deleted_uid uids c).

(** [mark_deleted] on the file [get_connection] opened: without the
    tables the first [executemany] raises [sqlite3.OperationalError]. *)
Definition mark_deleted_in (f : database) (uids : list Z) : result database :=
  match f with
  | NoTables => Raise (Sqlite3Error "no such table: deleted_uids")
  | Tables d => Return (Tables (mark_deleted d uids))
  end.

Definition get_email_count (c : conn) : Z := Z.of_nat (size (emails c)).

Definition get_deleted_uids (c : conn) : gset Z := dom (deleted_uids c).

End Db.

(** ** imap_client.py: the session and the batched retriever *)

Module Imap.

(** The status of a tagged reply as [imaplib] returns it.  [imaplib]
    raises on a BAD reply or a broken connection; an oracle reports that
    as [Raise]. *)
Inductive status := OK | NO.

(** What the client sends.  [EXAMINE] is [select(..., readonly=True)],
    [SELECT] is [select(..., readonly=False)]; the uid set of a command is
    kept as the list it was joined from. *)
Inductive command :=
| LOGIN
| EXAMINE
| SELECT
| UID_SEARCH_ALL
| UID_FETCH (uids : list Z)
| STATUS_UIDNEXT
| UID_STORE_DELETED (uids : list Z)
| EXPUNGE
| CLOSE
| LOGOUT.

(** The commands sent so far on the connection, the latest first. *)
Definition history := list command.

(** One element of the data of a FETCH reply. *)
Inductive fetch_item :=
| ItemNone
| ItemBytes (b : bytes)
| ItemTuple (metadata headers : bytes).

(** The remote side.  Each field answers one command from the history
    before it.  Python built-ins applied to a reply's payload ([int],
    [decode], [split]) are applied by the oracle, which reports their
    outcome; the regular expressions of the source run on the bytes. *)
Record server := {
  (** [IMAP4_SSL(...)] and [login] *)
  on_login : history -> result unit;
  (** [select]: the status and [int(data[0])] *)
  on_select : history -> bool -> result (status * result Z);
  (** [uid("SEARCH", None, "ALL")]: the status and the integers of
      [data[0].decode().split()], in the order of the reply *)
  on_search : history -> result (status * result (list Z));
  (** [uid("FETCH", uid_set, "(BODY.PEEK[HEADER] RFC822.SIZE)")] *)
  on_fetch : history -> list Z -> result (status * list fetch_item);
  (** [status(mailbox, "(UIDNEXT)")]: the status and [data[0]] *)
  on_status : history -> result (status * bytes);
  (** [uid("STORE", uid_set, "+FLAGS", "(\\Deleted)")] *)
  on_store : history -> list Z -> result status;
  on_expunge : history -> result unit;
  on_close : history -> result unit;
  on_logout : history -> result unit
}.

(** How the folder is selected: the mode of the last select that was
    answered; a select answered NO leaves no folder selected. *)
Inductive folder_mode := NotSelected | ReadOnly | ReadWrite.

Record client := {
  sent : history;
  mode : folder_mode
}.

Definition new_client : client := {| sent := []; mode := NotSelected |}.

Definition send (c : client) (cmd : command) : client :=
  {| sent := cmd :: sent c; mode := mode c |}.

Definition set_mode (c : client) (m : folder_mode) : client :=
  {| sent := sent c; mode := m |}.

(** [_select_all_mail] *)
Definition _select_all_mail (srv : server) (c : client) (readonly : bool)
  : result Z * client :=
  let c1 := send c (if readonly then EXAMINE else SELECT) in
  match on_select srv (sent c) readonly with
  | Raise e => (Raise e, c1)
  | Return (NO, _) =>
      (Raise (RuntimeError "Failed to select [Gmail]/All Mail"), set_mode c1 NotSelected)
  | Return (OK, count) =>
      (count, set_mode c1 (if readonly then ReadOnly else ReadWrite))
  end.

(** [connect] *)
Definition connect (srv : server) (c : client) : result unit * client :=
  let c1 := send c LOGIN in
  match on_login srv (sent c) with
  | Raise e => (Raise e, c1)
  | Return _ =>
      let '(r, c2) := _select_all_mail srv c1 true in
      (_ <- r ;; Return tt, c2)
  end.

(** [disconnect]: [close] and [logout] under [except Exception: pass];
    afterwards there is no connection. *)
Definition disconnect (srv : server) (c : client) : client :=
  let c1 := send c CLOSE in
  match on_close srv (sent c) with
  | Raise _ => set_mode c1 NotSelected
  | Return _ => set_mode (send c1 LOGOUT) NotSelected
  end.

(** [search_all] *)
Definition search_all (srv : server) (c : client) : result (list Z) * client :=
  let c1 := send c UID_SEARCH_ALL in
  match on_search srv (sent c) with
  | Raise e => (Raise e, c1)
  | Return (NO, _) => (Raise (RuntimeError "Search failed"), c1)
  | Return (OK, uid_strings) =>
      (uids <- uid_strings ;; Return (sorted uids), c1)
  end.

(** [search_since_uid] *)
Definition search_since_uid (srv : server) (c : client) (min_uid : Z)
  : result (list Z) * client :=
  let '(r, c1) := search_all srv c in
  (all_uids <- r ;; Return (filter (fun uid => min_uid < uid) all_uids), c1).

(** [get_uidnext] *)
Definition get_uidnext (srv : server) (c : client) : result Z * client :=
  let c1 := send c STATUS_UIDNEXT in
  match on_status srv (sent c) with
  | Raise e => (Raise e, c1)
  | Return (NO, _) => (Raise (RuntimeError "STATUS failed"), c1)
  | Return (OK, data0) =>
      match re_search_number "UIDNEXT " data0 with
      | None => (Raise (RuntimeError "Could not parse UIDNEXT"), c1)
      | Some n => (Return n, c1)
      end
  end.

(** The value of [results[uid]]: the header bytes and the size. *)
Record header_data := {
  headers : bytes;
  size : Z
}.

(** [_parse_fetch_response]: only two-part items with a [UID] token add
    an entry; everything else is stepped over. *)
Fixpoint parse_items (results : list (Z * header_data)) (data : list fetch_item)
  : list (Z * header_data) :=
  match data with
  | [] => results
  | ItemTuple metadata hdrs :: data' =>
      match re_search_number "UID " metadata with
      | Some uid =>
          let sz := match re_search_number "RFC822.SIZE " metadata with
                    | Some n => n
                    | None => 0
                    end in
          parse_items (dict_set results uid {| headers := hdrs; size := sz |}) data'
      | None => parse_items results data'
      end
  | _ :: data' => parse_items results data'
  end.

Definition _parse_fetch_response (data : list fetch_item) : list (Z * header_data) :=
  parse_items [] data.

(** [fetch_headers] *)
Definition fetch_headers (srv : server) (c : client) (uids : list Z)
  : result (list (Z * header_data)) * client :=
  match uids with
  | [] => (Return [], c)
  | _ =>
      let c1 := send c (UID_FETCH uids) in
      match on_fetch srv (sent c) uids with
      | Raise e => (Raise e, c1)
      | Return (NO, _) => (Raise (RuntimeError "Fetch failed"), c1)
      | Return (OK, data) => (Return (_parse_fetch_response data), c1)
      end
  end.

(** [fetch_headers_batch] is a generator.  [batch_starts] is its
    [range(0, len(uids), batch_size)], evaluated when the generator is
    first resumed; [batch_uids] is the slice it fetches at loop value [i].
    The pause between two batches has no effect on any state here. *)
Definition batch_starts (uids : list Z) (batch_size : Z) : result (list nat) :=
  range (length uids) batch_size.

Definition batch_uids (uids : list Z) (batch_size : Z) (i : nat) : list Z :=
  slice uids i batch_size.

(** The slices the generator asks for when it is resumed to the end. *)
Definition batches (uids : list Z) (batch_size : Z) : result (list (list Z)) :=
  starts <- batch_starts uids batch_size ;;
  Return (map (batch_uids uids batch_size) starts).



(** [delete_messages] *)
Definition delete_messages (srv : server) (c : client) (uids : list Z)
  (expunge : bool) : result Z * client :=
  match uids with
  | [] => (Return 0, c)
  | _ =>
      (* Must re-select in read-write mode for modifications *)
      match _select_all_mail srv c false with
      | (Raise e, c1) => (Raise e, c1)
      | (Return _, c1) =>
          (* Add \Deleted flag *)
          let c2 := send c1 (UID_STORE_DELETED uids) in
          match on_store srv (sent c1) uids with
          | Raise e => (Raise e, c2)
          | Return NO => (Raise (RuntimeError "Failed to mark deleted"), c2)
          | Return OK =>
              let deleted_count := Z.of_nat (length uids) in
              let '(r3, c3) :=
                if expunge
                then (on_expunge srv (sent c2), send c2 EXPUNGE)
                else (Return tt, c2) in
              match r3 with
              | Raise e => (Raise e, c3)
              | Return _ =>
                  (* Return to read-only mode for safety *)
                  match _select_all_mail srv c3 true with
                  | (Raise e, c4) => (Raise e, c4)
                  | (Return _, c4) => (Return deleted_count, c4)
                  end
              end
          end
      end
  end.

(** [load_config_from_env]: [getenv] is the environment after
    [load_dotenv]; an unset or empty variable is a missing credential. *)
Record IMAPConfig := {
  email : str;
  app_password : str
}.

Definition load_config_from_env (getenv : str -> option str) : result IMAPConfig :=
  match getenv "GMAIL_EMAIL", getenv "GMAIL_APP_PASSWORD" with
  | Some e, Some p =>
      if (String.eqb e "" || String.eqb p "")%bool
      then Raise (ValueError "Missing credentials")
      else Return {| email := e; app_password := p |}
  | _, _ => Raise (ValueError "Missing credentials")
  end.

End Imap.

(** ** fetch.py: the record normalizer and the sync run *)

Module Fetch.
Import Db Imap.

(** One element of the list [email.header.decode_header] returns, without
    its charset: [bytes] for an encoded word, [str] otherwise. *)
Inductive chunk :=
| ChunkBytes (data : bytes)
| ChunkStr (data : str).

(** What [msg.get(name)] returns for a header that is present: the header
    as a [str] or, when its raw bytes are not ASCII, an
    [email.header.Header] object, given here by the [str] it was made
    from. *)
Inductive header_value :=
| Text (s : str)
| HeaderObject (raw : str).

(** The functions of the standard library the normalizer calls.  Those
    that can raise return a [result]. *)
Record email_lib := {
  (** [email.message_from_bytes(raw)] as the function [name -> msg.get(name)] *)
  message_from_bytes : bytes -> result (str -> option header_value);
  (** [email.header.decode_header(value)], of a [str] or of a [Header] *)
  decode_header : header_value -> result (list (chunk * option str));
  (** [str(h)] of the [Header] made from [raw] *)
  header_str : str -> str;
  (** [data.decode(encoding)] and, with [true], [data.decode(encoding, errors="replace")] *)
  bytes_decode : bytes -> str -> bool -> result str;
  (** [email.utils.parseaddr(header)]: the name and the address *)
  parseaddr : str -> str * str;
  str_lower : str -> str;
  str_strip : str -> str;
  datetime : Type;
  (** [email.utils.parsedate_to_datetime(header)] *)
  parsedate_to_datetime : header_value -> result datetime;
  (** [dt.tzinfo is None] *)
  tzinfo_is_none : datetime -> bool;
  (** [dt.replace(tzinfo=timezone.utc)] *)
  replace_tzinfo_utc : datetime -> result datetime;
  (** [dt.astimezone(timezone.utc)] *)
  astimezone_utc : datetime -> result datetime;
  (** [dt.isoformat()] *)
  isoformat : datetime -> result str
}.

(** Python's truth value of an [Optional[str]]. *)
Definition truthy (value : option str) : bool :=
  match value with
  | Some s => negb (String.eqb s "")
  | None => false
  end.

(** The truth value of what [msg.get(name, "")] returns: a [Header] has
    neither [__bool__] nor [__len__] and is true. *)
Definition truthy_value (value : option header_value) : bool :=
  match value with
  | Some (Text s) => negb (String.eqb s "")
  | Some (HeaderObject _) => true
  | None => false
  end.

(** [str(value)] *)
Definition py_str (lib : email_lib) (value : header_value) : str :=
  match value with
  | Text s => s
  | HeaderObject raw => header_str lib raw
  end.

(** The body of the loop of [decode_header_value] for one part. *)
Definition decode_part (lib : email_lib) (part : chunk * option str) : result str :=
  match part with
  | (ChunkBytes data, charset) =>
      (* charset or "utf-8" *)
      let encoding := if truthy charset then default "utf-8" charset else "utf-8" in
      match bytes_decode lib data encoding false with
      | Return s => Return s
      | Raise UnicodeDecodeError | Raise LookupError =>
          (* Some emails have bogus charset declarations *)
          try_except (bytes_decode lib data "utf-8" true)
            (fun _ => bytes_decode lib data "latin-1" true)
      | Raise e => Raise e
      end
  | (ChunkStr data, _) => Return data
  end.

Fixpoint decode_parts (lib : email_lib) (res : list str)
  (parts : list (chunk * option str)) : result (list str) :=
  match parts with
  | [] => Return res
  | part :: parts' =>
      s <- decode_part lib part ;;
      decode_parts lib (res ++ [s]) parts'
  end.

(** ["".join(result)] *)
Definition join (l : list str) : str := fold_right String.append "" l.

(** [decode_header_value] *)
Definition decode_header_value (lib : email_lib) (value : option header_value)
  : result str :=
  if negb (truthy_value value) then Return ""
  else
    try_except
      (decoded_parts <- decode_header lib (default (Text "") value) ;;
       res <- decode_parts lib [] decoded_parts ;;
       Return (join res))
      (* If all else fails, return original value *)
      (fun _ => Return (if truthy_value value then py_str lib (default (Text "") value)
                        else "")).

(** [extract_email_address] *)
Definition extract_email_address (lib : email_lib) (from_header : str)
  : result (str * str) :=
  if negb (truthy (Some from_header)) then Return ("", "")
  else
    let '(name, addr) := parseaddr lib from_header in
    let addr := if truthy (Some addr) then str_strip lib (str_lower lib addr) else "" in
    name <- decode_header_value lib (Some (Text name)) ;;
    Return (addr, str_strip lib name).

(** [parse_date]; [None] is the marker of an unparseable date. *)
Definition parse_date (lib : email_lib) (date_header : header_value)
  : result (option str) :=
  if negb (truthy_value (Some date_header)) then Return None
  else
    try_except
      (dt <- parsedate_to_datetime lib date_header ;;
       dt <- (if tzinfo_is_none lib dt then replace_tzinfo_utc lib dt
              else astimezone_utc lib dt) ;;
       iso <- isoformat lib dt ;;
       Return (Some iso))
      (* Some emails have completely broken dates *)
      (fun _ => Return None).

(** The dict [parse_headers] returns.  Its ["date_header"] is what
    [msg.get] gave, a [str] or a [Header]; every other value is an [int],
    a [str] or [None]. *)
Record email_record := {
  record_uid : Z;
  record_message_id : option str;
  record_sender_raw : str;
  record_sender_email : str;
  record_sender_name : str;
  record_recipient_raw : str;
  record_subject : str;
  record_date_header : header_value;
  record_date_parsed : option str;
  record_size_bytes : Z
}.

(** [parse_headers].  [message_id.strip()] is evaluated when the dict is
    built: a [Header] has no [strip], and the call raises
    [AttributeError]. *)
Definition parse_headers (lib : email_lib) (raw_headers : bytes) (sz uid : Z)
  : result email_record :=
  msg <- message_from_bytes lib raw_headers ;;
  let get name := default (Text "") (msg name) in
  from_raw <- decode_header_value lib (Some (get "From")) ;;
  to_raw <- decode_header_value lib (Some (get "To")) ;;
  subj <- decode_header_value lib (Some (get "Subject")) ;;
  let date_hdr := get "Date" in
  let msg_id := get "Message-ID" in
  sender <- extract_email_address lib from_raw ;;
  parsed <- parse_date lib date_hdr ;;
  stripped <- match msg_id with
              | Text s => Return (if truthy (Some s) then Some (str_strip lib s) else None)
              | HeaderObject _ =>
                  Raise (AttributeError "'Header' object has no attribute 'strip'")
              end ;;
  Return {| record_uid := uid;
            record_message_id := stripped;
            record_sender_raw := from_raw;
            record_sender_email := fst sender;
            record_sender_name := snd sender;
            record_recipient_raw := to_raw;
            record_subject := subj;
            record_date_header := date_hdr;
            record_date_parsed := parsed;
            record_size_bytes := sz |}.

(** The parameters of the INSERT of [insert_email] for a record: [sqlite3]
    binds an [int], a [str] and [None], and raises on a [Header]. *)
Definition bind_parameters (r : email_record) : result email_data :=
  match record_date_header r with
  | Text date =>
      Return {| Db.uid := record_uid r;
                message_id := record_message_id r;
                sender_raw := record_sender_raw r;
                sender_email := record_sender_email r;
                sender_name := record_sender_name r;
                recipient_raw := record_recipient_raw r;
                subject := record_subject r;
                date_header := date;
                date_parsed := record_date_parsed r;
                size_bytes := record_size_bytes r |}
  | HeaderObject _ =>
      Raise (Sqlite3Error "Error binding parameter :date_header")
  end.

Fixpoint bind_all (records : list email_record) : result (list email_data) :=
  match records with
  | [] => Return []
  | r :: records' =>
      row <- bind_parameters r ;;
      rows <- bind_all records' ;;
      Return (row :: rows)
  end.

(** [insert_emails_batch(conn, batch_emails)] on the dicts of
    [parse_headers].  The loop raises at the first dict [sqlite3] cannot
    bind, before its [commit]: nothing the call inserted is committed, and
    the database is as it was. *)
Definition insert_records (d : conn) (records : list email_record)
  : result (Z * conn) :=
  rows <- bind_all records ;;
  Return (insert_emails_batch d rows).

(** The dict [fetch_all] returns. *)
Record stats := {
  total_fetched : Z;
  new_stored : Z;
  already_existed : Z;
  errors : Z
}.

(** The variables the batch loop of [fetch_all] updates. *)
Record loop_state := {
  fetched : Z;
  batch_emails : list email_record;
  st : stats;
  db : conn
}.

(** [for uid, data in batch_data.items()]: parse, append and count, or
    count the error. *)
Fixpoint parse_batch (lib : email_lib) (ls : loop_state)
  (items : list (Z * header_data)) : loop_state :=
  match items with
  | [] => ls
  | (uid, data) :: items' =>
      match parse_headers lib (headers data) (size data) uid with
      | Return email_record =>
          parse_batch lib
            {| fetched := fetched ls + 1;
               batch_emails := batch_emails ls ++ [email_record];
               st := st ls;
               db := db ls |} items'
      | Raise _ =>
          parse_batch lib
            {| fetched := fetched ls;
               batch_emails := batch_emails ls;
               st := {| total_fetched := total_fetched (st ls);
                        new_stored := new_stored (st ls);
                        already_existed := already_existed (st ls);
                        errors := errors (st ls) + 1 |};
               db := db ls |} items'
      end
  end.

(** [insert_emails_batch] on [batch_emails] with the two counters, and
    [batch_emails = []] when [reset] is set. *)
Definition store_batch (ls : loop_state) (reset : bool) : result loop_state :=
  stored <- insert_records (db ls) (batch_emails ls) ;;
  let '(new_count, db1) := stored in
  Return {| fetched := fetched ls;
            batch_emails := if reset then [] else batch_emails ls;
            st := {| total_fetched := total_fetched (st ls);
                     new_stored := new_stored (st ls) + new_count;
                     already_existed :=
                       already_existed (st ls)
                       + (Z.of_nat (length (batch_emails ls)) - new_count);
                     errors := errors (st ls) |};
            db := db1 |}.

(** [if batch_emails:] after the loop: insert the remaining emails. *)
Definition store_remaining (ls : loop_state) : result loop_state :=
  match batch_emails ls with
  | [] => Return ls
  | _ => store_batch ls false
  end.

(** The body of [for batch_data in client.fetch_headers_batch(...)] after
    the generator has yielded [batch_data]. *)
Definition process_batch (lib : email_lib) (batch_size : Z)
  (progress_callback : option (Z -> Z -> Z -> result unit)) (total : Z)
  (ls : loop_state) (batch_data : list (Z * header_data)) : result unit * loop_state :=
  let ls1 := parse_batch lib ls batch_data in
  (* Insert batch into database *)
  match (if Z.of_nat (length (batch_emails ls1)) >=? batch_size
         then store_batch ls1 true else Return ls1) with
  | Raise e => (Raise e, ls1)
  | Return ls2 =>
      match progress_callback with
      | Some callback => (callback (fetched ls2) total (new_stored (st ls2)), ls2)
      | None => (Return tt, ls2)
      end
  end.

(** The batch loop: the generator is resumed once per start index; an
    exception from the fetch or from the callback leaves the loop. *)
Fixpoint fetch_loop (srv : server) (lib : email_lib) (batch_size : Z)
  (progress_callback : option (Z -> Z -> Z -> result unit)) (total : Z)
  (uids : list Z) (starts : list nat) (ls : loop_state) (c : client)
  : option exn * loop_state * client :=
  match starts with
  | [] => (None, ls, c)
  | i :: starts' =>
      match fetch_headers srv c (batch_uids uids batch_size i) with
      | (Raise e, c1) => (Some e, ls, c1)
      | (Return batch_data, c1) =>
          match process_batch lib batch_size progress_callback total ls batch_data with
          | (Raise e, ls1) => (Some e, ls1, c1)
          | (Return _, ls1) =>
              fetch_loop srv lib batch_size progress_callback total uids starts' ls1 c1
          end
      end
  end.

Definition zero_stats : stats :=
  {| total_fetched := 0; new_stored := 0; already_existed := 0; errors := 0 |}.

(** The identifiers of a run: the enumeration, then the tombstone filter. *)
Definition enumerate (srv : server) (c : client) (incremental : bool) (d : conn)
  : result (list Z) * client :=
  if incremental then
    let last := last_uid (get_sync_state d) in
    if last >? 0 then search_since_uid srv c last
    else search_all srv c
  else search_all srv c.

Definition drop_deleted (d : conn) (uids : list Z) : list Z :=
  filter (fun uid => uid ∉ get_deleted_uids d) uids.

(** The final stats dict: the counters and [total_fetched = fetched]. *)
Definition final_stats (ls : loop_state) : stats :=
  {| total_fetched := fetched ls;
     new_stored := new_stored (st ls);
     already_existed := already_existed (st ls);
     errors := errors (st ls) |}.

(** The block under [with GmailIMAPClient(config) as client:], from the
    filtered list [uids] on: the batch loop, the remaining emails and the
    sync state. *)
Definition sync_uids (srv : server) (lib : email_lib) (batch_size : Z)
  (progress_callback : option (Z -> Z -> Z -> result unit))
  (d : conn) (c1 : client) (uids : list Z) : result stats * conn * client :=
  let total := Z.of_nat (length uids) in
  if total =? 0 then (Return zero_stats, d, c1)
  else
    match batch_starts uids batch_size with
    | Raise e => (Raise e, d, c1)
    | Return starts =>
        let ls0 := {| fetched := 0; batch_emails := []; st := zero_stats; db := d |} in
        match fetch_loop srv lib batch_size progress_callback total uids starts ls0 c1 with
        | (Some e, ls, c2) => (Raise e, db ls, c2)
        | (None, ls, c2) =>
            match store_remaining ls with
            | Raise e => (Raise e, db ls, c2)
            | Return ls1 =>
                (* Update sync state *)
                match uids with
                | [] => (Return (final_stats ls1), db ls1, c2)
                | _ =>
                    match max uids with
                    | Raise e => (Raise e, db ls1, c2)
                    | Return max_uid =>
                        match get_uidnext srv c2 with
                        | (Raise e, c3) => (Raise e, db ls1, c3)
                        | (Return uidnext, c3) =>
                            (Return (final_stats ls1),
                             update_sync_state (db ls1) max_uid uidnext, c3)
                        end
                    end
                end
            end
        end
    end.

(** The block up to the filter, then [sync_uids]. *)
Definition fetch_all_session (srv : server) (lib : email_lib) (batch_size : Z)
  (progress_callback : option (Z -> Z -> Z -> result unit)) (incremental : bool)
  (d : conn) (c : client) : result stats * conn * client :=
  match enumerate srv c incremental d with
  | (Raise e, c1) => (Raise e, d, c1)
  | (Return uids0, c1) =>
      (* Filter out UIDs we've previously deleted *)
      sync_uids srv lib batch_size progress_callback d c1 (drop_deleted d uids0)
  end.

(** [fetch_all]: the result or the exception the run ends with, the
    database and the connection's history after it.  [__exit__]
    disconnects on every way out of the block; a failed [connect] is
    raised from [__enter__], before the block. *)
Definition fetch_all (srv : server) (lib : email_lib) (getenv : str -> option str)
  (batch_size : Z) (progress_callback : option (Z -> Z -> Z -> result unit))
  (incremental : bool) (d : conn) : result stats * conn * client :=
  let d1 := init_db d in
  match load_config_from_env getenv with
  | Raise e => (Raise e, d1, new_client)
  | Return _ =>
      match connect srv new_client with
      | (Raise e, c) => (Raise e, d1, c)
      | (Return _, c) =>
          let '(r, d2, c1) :=
            fetch_all_session srv lib batch_size progress_callback incremental d1 c in
          (r, d2, disconnect srv c1)
      end
  end.

End Fetch.

(** ** delete.py: the deletion engine *)

Module Delete.
Import Db Imap.

(** The dict [delete_emails] returns. *)
Record stats := {
  deleted : Z;
  errors : Z;
  not_found : Z
}.

Definition zero_stats : stats := {| deleted := 0; errors := 0; not_found := 0 |}.

Definition add_errors (s : stats) (n : Z) : stats :=
  {| deleted := deleted s; errors := errors s + n; not_found := not_found s |}.

Definition add_deleted (s : stats) (n : Z) : stats :=
  {| deleted := deleted s + n; errors := errors s; not_found := not_found s |}.

(** The body of the batch loop of [delete_emails]: the [try] block and its
    handler.  [get_connection] is called without [init_db], so
    [mark_deleted] raises on a file without the tables, after [deleted]
    has been increased.  The pause that follows has no effect on any state
    here. *)
Definition delete_batch (srv : server) (progress_callback : option (Z -> Z -> result unit))
  (total : Z) (s : stats * database * client) (batch : list Z)
  : stats * database * client :=
  let '(stats0, d, c) := s in
  match delete_messages srv c batch true with
  | (Return n, c1) =>
      let stats1 := add_deleted stats0 n in
      (* Update local database *)
      match mark_deleted_in d batch with
      | Return d1 =>
          match progress_callback with
          | Some callback =>
              match callback (deleted stats1) total with
              | Return _ => (stats1, d1, c1)
              | Raise _ => (add_errors stats1 (Z.of_nat (length batch)), d1, c1)
              end
          | None => (stats1, d1, c1)
          end
      | Raise _ => (add_errors stats1 (Z.of_nat (length batch)), d, c1)
      end
  | (Raise _, c1) => (add_errors stats0 (Z.of_nat (length batch)), d, c1)
  end.

(** [for i in range(0, total, batch_size)] over the slices. *)
Definition delete_loop (srv : server) (progress_callback : option (Z -> Z -> result unit))
  (total : Z) (batches : list (list Z)) (s : stats * database * client)
  : stats * database * client :=
  fold_left (delete_batch srv progress_callback total) batches s.

(** [delete_emails] *)
Definition delete_emails (srv : server) (getenv : str -> option str) (uids : list Z)
  (batch_size : Z) (progress_callback : option (Z -> Z -> result unit)) (d : database)
  : result stats * database * client :=
  match uids with
  | [] => (Return zero_stats, d, new_client)
  | _ =>
      match load_config_from_env getenv with
      | Raise e => (Raise e, d, new_client)
      | Return _ =>
          match connect srv new_client with
          | (Raise e, c) => (Raise e, d, c)
          | (Return _, c) =>
              let total := Z.of_nat (length uids) in
              match range (length uids) batch_size with
              | Raise e => (Raise e, d, disconnect srv c)
              | Return starts =>
                  let '(stats1, d1, c1) :=
                    delete_loop srv progress_callback total
                      (map (fun i => slice uids i batch_size) starts)
                      (zero_stats, d, c) in
                  (Return stats1, d1, disconnect srv c1)
              end
          end
      end
  end.

End Delete.

(** ** Mailboxes and runs used in the statements *)

Module Scenario.
Import Db Imap Fetch.

(** A mailbox that does not change: the uids it lists, for each message
    that can be fetched the metadata line and the header bytes of its FETCH
    item, and the line of the STATUS reply. *)
Record mailbox := {
  listing : list Z;
  messages : list (Z * (bytes * bytes));
  status_line : bytes
}.

Fixpoint fetch_items (m : mailbox) (uids : list Z) : list fetch_item :=
  match uids with
  | [] => []
  | uid :: uids' =>
      match List.find (fun p => Z.eqb (fst p) uid) (messages m) with
      | Some (_, (metadata, hdrs)) =>
          ItemTuple metadata hdrs :: ItemBytes ")" :: fetch_items m uids'
      | None => fetch_items m uids'
      end
  end.

(** The server of an unchanging mailbox: no reply depends on the history,
    and UID FETCH leaves out the uids that have no message. *)
Definition mailbox_server (m : mailbox) : server :=
  {| on_login := fun _ => Return tt;
     on_select := fun _ _ => Return (OK, Return (Z.of_nat (length (listing m))));
     on_search := fun _ => Return (OK, Return (listing m));
     on_fetch := fun _ uids => Return (OK, fetch_items m uids);
     on_status := fun _ => Return (OK, status_line m);
     on_store := fun _ _ => Return OK;
     on_expunge := fun _ => Return tt;
     on_close := fun _ => Return tt;
     on_logout := fun _ => Return tt |}.

(** The same server, answering NO to every STORE. *)
Definition store_refused (m : mailbox) : server :=
  {| on_login := on_login (mailbox_server m);
     on_select := on_select (mailbox_server m);
     on_search := on_search (mailbox_server m);
     on_fetch := on_fetch (mailbox_server m);
     on_status := on_status (mailbox_server m);
     on_store := fun _ _ => Return NO;
     on_expunge := on_expunge (mailbox_server m);
     on_close := on_close (mailbox_server m);
     on_logout := on_logout (mailbox_server m) |}.

Definition is_store (cmd : command) : bool :=
  match cmd with UID_STORE_DELETED _ => true | _ => false end.

(** The same server, answering NO to an EXAMINE that follows a STORE. *)
Definition examine_refused_after_store (m : mailbox) : server :=
  {| on_login := on_login (mailbox_server m);
     on_select := fun h readonly =>
       if (readonly && existsb is_store h)%bool
       then Return (NO, Return 0)
       else on_select (mailbox_server m) h readonly;
     on_search := on_search (mailbox_server m);
     on_fetch := on_fetch (mailbox_server m);
     on_status := on_status (mailbox_server m);
     on_store := on_store (mailbox_server m);
     on_expunge := on_expunge (mailbox_server m);
     on_close := on_close (mailbox_server m);
     on_logout := on_logout (mailbox_server m) |}.

(** A library in which headers are plain text: the raw bytes are the
    Subject, an encoded word is refused by [decode_header], and one date is
    understood. *)
Definition plain_lib : email_lib :=
  {| message_from_bytes := fun raw =>
       Return (fun name => if String.eqb name "Subject" then Some (Text raw) else None);
     decode_header := fun value =>
       match value with
       | Text s =>
           if String.prefix "=?" s then Raise (OtherError "HeaderParseError")
           else Return [(ChunkStr s, None)]
       | HeaderObject raw => Return [(ChunkBytes raw, Some "unknown-8bit")]
       end;
     header_str := fun raw => raw;
     bytes_decode := fun data _ _ => Return data;
     parseaddr := fun header => ("", header);
     str_lower := fun s => s;
     str_strip := fun s => s;
     datetime := str;
     parsedate_to_datetime := fun header =>
       match header with
       | Text s =>
           if String.eqb s "Mon, 1 Jan 2024 12:00:00 +0000"
           then Return "2024-01-01T12:00:00+00:00"
           else Raise (ValueError "Invalid date value or format")
       | HeaderObject _ => Raise (TypeError "expected string or bytes-like object")
       end;
     tzinfo_is_none := fun _ => false;
     replace_tzinfo_utc := fun dt => Return dt;
     astimezone_utc := fun dt => Return dt;
     isoformat := fun dt => Return dt |}.

(** The same library with one encoded word whose declared charset does
    not exist: [decode] raises [LookupError] on it, strict UTF-8 raises
    [UnicodeDecodeError], and UTF-8 with replacement returns. *)
Definition bogus_charset_lib : email_lib :=
  {| message_from_bytes := message_from_bytes plain_lib;
     decode_header := fun value =>
       match value with
       | Text "Re: =?x-unknown?Q?caf=E9?=" =>
           Return [(ChunkStr "Re: ", None); (ChunkBytes "caf=E9", Some "x-unknown")]
       | _ => decode_header plain_lib value
       end;
     header_str := header_str plain_lib;
     bytes_decode := fun data encoding replace =>
       if String.eqb encoding "x-unknown" then Raise LookupError
       else if replace then Return "caf?"
       else Raise UnicodeDecodeError;
     parseaddr := parseaddr plain_lib;
     str_lower := str_lower plain_lib;
     str_strip := str_strip plain_lib;
     datetime := datetime plain_lib;
     parsedate_to_datetime := parsedate_to_datetime plain_lib;
     tzinfo_is_none := tzinfo_is_none plain_lib;
     replace_tzinfo_utc := replace_tzinfo_utc plain_lib;
     astimezone_utc := astimezone_utc plain_lib;
     isoformat := isoformat plain_lib |}.

(** A library for messages with raw bytes that are not ASCII in the Date
    header, and in the Message-ID header when the raw bytes begin with
    [8bit-id]: [msg.get] gives these headers as [Header] objects. *)
Definition eight_bit_lib : email_lib :=
  {| message_from_bytes := fun raw =>
       Return (fun name =>
                 if String.eqb name "Subject" then Some (Text raw)
                 else if String.eqb name "Date" then Some (HeaderObject raw)
                 else if String.eqb name "Message-ID" then
                   Some (if String.prefix "8bit-id" raw then HeaderObject raw
                         else Text "<m@example.org>")
                 else None);
     decode_header := decode_header plain_lib;
     header_str := header_str plain_lib;
     bytes_decode := bytes_decode plain_lib;
     parseaddr := parseaddr plain_lib;
     str_lower := str_lower plain_lib;
     str_strip := str_strip plain_lib;
     datetime := datetime plain_lib;
     parsedate_to_datetime := parsedate_to_datetime plain_lib;
     tzinfo_is_none := tzinfo_is_none plain_lib;
     replace_tzinfo_utc := replace_tzinfo_utc plain_lib;
     astimezone_utc := astimezone_utc plain_lib;
     isoformat := isoformat plain_lib |}.

(** The environment with both credentials set. *)
Definition credentials (name : str) : option str :=
  if String.eqb name "GMAIL_EMAIL" then Some "user@gmail.com"
  else if String.eqb name "GMAIL_APP_PASSWORD" then Some "abcd efgh ijkl mnop"
  else None.

(** Three messages are listed, 10, 20 and 30; the message 30 is gone by
    the time it is fetched, so the FETCH reply has no item for it. *)
Definition three_listed_two_fetched : mailbox :=
  {| listing := [10; 20; 30];
     messages :=
       [(10, ("1 (UID 10 RFC822.SIZE 120 BODY[HEADER] {5}", "first"));
        (20, ("2 (UID 20 RFC822.SIZE 340 BODY[HEADER] {6}", "second"))];
     status_line := "[Gmail]/All Mail (UIDNEXT 31)" |}.

(** The connection after [connect] to a mailbox server. *)
Definition connected : client :=
  {| sent := [EXAMINE; LOGIN]; mode := ReadOnly |}.

(** A database whose cursor is at [cursor]. *)
Definition db_with_cursor (cursor : Z) : conn :=
  {| emails := ∅;
     sync_state := Some {| last_uid := cursor; last_sync := None; total_messages := 0 |};
     deleted_uids := ∅;
     clock := 1%nat |}.

(** The calls [insert_email] of a list of records in order: the value each
    call returns and the database after the last. *)
Fixpoint insert_each (c : conn) (es : list email_data) : list bool * conn :=
  match es with
  | [] => ([], c)
  | e :: es' =>
      let '(r, c1) := insert_email c e in
      let '(rs, c2) := insert_each c1 es' in
      (r :: rs, c2)
  end.

(** The returned values of the calls whose record has the uid [u]. *)
Definition results_for (u : Z) (es : list email_data) (rs : list bool) : list bool :=
  snd <$> filter (fun p => uid (fst p) = u) (zip es rs).

Definition record (u : Z) (subj : str) : email_data :=
  {| uid := u; message_id := None; sender_raw := ""; sender_email := "";
     sender_name := ""; recipient_raw := ""; subject := subj;
     date_header := ""; date_parsed := None; size_bytes := 0 |}.

(** The records [parse_batch] appends for the items of one batch: those
    [parse_headers] returns on. *)
Fixpoint parsed_records (lib : email_lib) (items : list (Z * header_data))
  : list email_record :=
  match items with
  | [] => []
  | (uid, data) :: items' =>
      match parse_headers lib (headers data) (size data) uid with
      | Return email_record => email_record :: parsed_records lib items'
      | Raise _ => parsed_records lib items'
      end
  end.

(** A uid is covered by the state of the batch loop when its record is
    stored or waits in [batch_emails]. *)
Definition covered (ls : loop_state) (u : Z) : Prop :=
  u ∈ dom (emails (db ls)) \/ u ∈ record_uid <$> batch_emails ls.

(** The batch loop has written nothing to the database [d]: its database is
    [d], it counted no new record, and every waiting record is stored in [d]. *)
Definition settled (d : conn) (ls : loop_state) : Prop :=
  db ls = d /\ new_stored (st ls) = 0 /\
  Forall (fun e => record_uid e ∈ dom (emails d)) (batch_emails ls).

(** The uids of a run from the sorted listing: those above the cursor in an
    incremental run whose cursor is positive, all of them otherwise. *)
Definition select_uids (incremental : bool) (last : Z) (all_uids : list Z) : list Z :=
  if (incremental && (last >? 0))%bool
  then filter (fun uid => last < uid) all_uids
  else all_uids.

(** Every UID FETCH the client has sent names only uids with [P]. *)
Definition fetches_only (P : Z -> Prop) (c : client) : Prop :=
  forall uids : list Z, UID_FETCH uids ∈ sent c -> Forall P uids.

(** For each batch of a deletion loop, whether [delete_messages] returned
    on it, in the state the loop had reached. *)
Fixpoint batch_outcomes (srv : server) (progress_callback : option (Z -> Z -> result unit))
  (total : Z) (batches : list (list Z)) (s : Delete.stats * database * client)
  : list (list Z * bool) :=
  match batches with
  | [] => []
  | batch :: batches' =>
      (batch, returns (fst (delete_messages srv (snd s) batch true)))
        :: batch_outcomes srv progress_callback total batches'
             (Delete.delete_batch srv progress_callback total s batch)
  end.

(** The sum of the sizes of the batches with the outcome [ok]. *)
Definition total_size (ok : bool) (outcomes : list (list Z * bool)) : Z :=
  fold_right (fun p acc => if Bool.eqb (snd p) ok then Z.of_nat (length (fst p)) + acc else acc)
    0 outcomes.

(** The outcomes of the batches of [delete_emails] when the run reaches its
    loop: the credentials are there, [connect] returns and the batch size
    is not zero. *)
Definition delete_emails_outcomes (srv : server) (uids : list Z) (batch_size : Z)
  (progress_callback : option (Z -> Z -> result unit)) (d : database)
  : list (list Z * bool) :=
  match range (length uids) batch_size with
  | Raise _ => []
  | Return starts =>
      batch_outcomes srv progress_callback (Z.of_nat (length uids))
        (map (fun i => slice uids i batch_size) starts)
        (Delete.zero_stats, d, snd (connect srv new_client))
  end.

End Scenario.

(** ** fetch.py: the sample fetch *)

Module Sample.
Import Db Imap Fetch.

(** [sorted(l, reverse=True)] on integers: equal integers are one value,
    so the stable descending sort is the ascending sort reversed. *)
Definition sorted_descending (l : list Z) : list Z := reverse (sorted l).

(** [l[:n]]: the first [n] elements, and for a negative [n] all but the
    last [-n]. *)
Definition prefix {A} (l : list A) (n : Z) : list A :=
  if n <? 0 then take (length l - Z.to_nat (- n)) l else take (Z.to_nat n) l.

(** [for uid, data in batch.items(): results.append(parse_headers(...))];
    nothing catches an exception of [parse_headers] here. *)
Fixpoint parse_each (lib : email_lib) (items : list (Z * header_data))
  : result (list email_record) :=
  match items with
  | [] => Return []
  | (uid, data) :: items' =>
      parsed <- parse_headers lib (headers data) (size data) uid ;;
      results <- parse_each lib items' ;;
      Return (parsed :: results)
  end.

(** [fetch_sample]: the parsed records or the exception, and the
    connection; there is no database in it. *)
Definition fetch_sample (srv : server) (lib : email_lib) (getenv : str -> option str)
  (count : Z) : result (list email_record) * client :=
  match load_config_from_env getenv with
  | Raise e => (Raise e, new_client)
  | Return _ =>
      match connect srv new_client with
      | (Raise e, c) => (Raise e, c)
      | (Return _, c) =>
          let '(r, c3) :=
            match search_all srv c with
            | (Raise e, c1) => (Raise e, c1)
            | (Return uids, c1) =>
                (* Get most recent UIDs *)
                let recent_uids := prefix (sorted_descending uids) count in
                match fetch_headers srv c1 recent_uids with
                | (Raise e, c2) => (Raise e, c2)
                | (Return batch, c2) => (parse_each lib batch, c2)
                end
            end in
          (r, disconnect srv c3)
      end
  end.

End Sample.

(** ** delete.py: reading uids and the dry run *)

Module Dryrun.
Import Db.

(** [c.isspace()] for a character of a [str], read as its code point; the
    code points of a [string] are below 256. *)
Definition is_space (c : ascii) : bool :=
  let n := nat_of_ascii c in
  (((9 <=? n) && (n <=? 13)) || ((28 <=? n) && (n <=? 32)) || (n =? 133) || (n =? 160))%nat.

Fixpoint lstrip (s : str) : str :=
  match s with
  | String c s' => if is_space c then lstrip s' else s
  | EmptyString => EmptyString
  end.

Fixpoint rstrip (s : str) : str :=
  match s with
  | String c s' =>
      match rstrip s' with
      | EmptyString => if is_space c then EmptyString else String c EmptyString
      | r => String c r
      end
  | EmptyString => EmptyString
  end.

(** [s.strip()] *)
Definition strip (s : str) : str := rstrip (lstrip s).

(** [s.startswith("#")] *)
Definition is_comment (s : str) : bool :=
  match s with
  | String c _ => Ascii.eqb c "#"
  | EmptyString => false
  end.

(** [s.replace(",", " ")] *)
Fixpoint commas_to_spaces (s : str) : str :=
  match s with
  | String c s' => String (if Ascii.eqb c "," then " "%char else c) (commas_to_spaces s')
  | EmptyString => EmptyString
  end.

(** [s.split()]: the maximal runs of characters that are not whitespace;
    [word] is the run being read. *)
Fixpoint split_from (word : str) (s : str) : list str :=
  match s with
  | String c s' =>
      if is_space c
      then match word with
           | EmptyString => split_from EmptyString s'
           | _ => word :: split_from EmptyString s'
           end
      else split_from (word ++ String c EmptyString)%string s'
  | EmptyString =>
      match word with
      | EmptyString => []
      | _ => [word]
      end
  end.

Definition split (s : str) : list str := split_from EmptyString s.

(** The inner loop over [parts]: [int(part)] is appended, a [ValueError]
    is reported and skipped.  [py_int] is [int] on a [str], [None] when it
    raises [ValueError]. *)
Fixpoint read_parts (py_int : str -> option Z) (parts : list str) : list Z :=
  match parts with
  | [] => []
  | part :: parts' =>
      match py_int part with
      | Some uid => uid :: read_parts py_int parts'
      | None => read_parts py_int parts'
      end
  end.

(** The body of the loop over the lines: what one line appends. *)
Definition read_line (py_int : str -> option Z) (line : str) : list Z :=
  let line := strip line in
  (* Skip empty lines and comments *)
  if (String.eqb line "" || is_comment line)%bool then []
  else read_parts py_int (split (commas_to_spaces line)).

(** [read_uids_from_stream]; the stream is the list of its lines. *)
Fixpoint read_uids_from_stream (py_int : str -> option Z) (stream : list str) : list Z :=
  match stream with
  | [] => []
  | line :: stream' => read_line py_int line ++ read_uids_from_stream py_int stream'
  end.

(** The figures [preview_deletion] prints in its summary. *)
Record summary := {
  provided : Z;
  found_count : Z;
  not_found : Z;
  total_size : Z
}.

(** The rows of [SELECT ... FROM emails WHERE uid IN (uids)].  The summary
    does not depend on their order, which [ORDER BY date_parsed DESC] gives. *)
Definition selected_rows (d : conn) (uids : list Z) : list (Z * email_row) :=
  filter (fun p => fst p ∈ uids) (map_to_list (emails d)).

(** [preview_deletion]: [None] when there is nothing to delete.  The
    SELECT raises [sqlite3.OperationalError] when it has more than
    [max_variables] placeholders, which SQLite finds while it parses the
    statement, and when the file has no tables: [get_connection] is called
    without [init_db]. *)
Definition preview_deletion (max_variables : nat) (d : database) (uids : list Z)
  : result (option summary) :=
  match uids with
  | [] => Return None
  | _ =>
      if (max_variables <? length uids)%nat
      then Raise (Sqlite3Error "too many SQL variables")
      else
        match d with
        | NoTables => Raise (Sqlite3Error "no such table: emails")
        | Tables db =>
            let rows := selected_rows db uids in
            let found := Z.of_nat (length rows) in
            Return (Some {| provided := Z.of_nat (length uids);
                            found_count := found;
                            not_found := Z.of_nat (length uids) - found;
                            total_size :=
                              fold_left (fun acc p => acc + size_bytes (row_data (snd p)))
                                rows 0 |})
        end
  end.

End Dryrun.

(** ** delete.py: the command line *)

Module Cli.
Import Db Imap.

(** [str(n)] of a length. *)
Definition str_of_nat (n : nat) : str :=
  DecimalString.NilEmpty.string_of_uint (Nat.to_uint n).

(** The namespace [parse_args] returns. *)
Record args := {
  uids : list Z;
  file : option (list str);
  confirm : bool;
  yes : bool;
  batch_size : Z
}.

(** Standard input is a terminal, where [input] reads the line the user
    types ([None]: end of file), or it is not, and then its lines are read
    as uids to the end, after which [input] raises [EOFError]. *)
Inductive stdin :=
  | Terminal (typed : option str)
  | Piped (lines : list str).

Definition isatty (input : stdin) : bool :=
  match input with Terminal _ => true | Piped _ => false end.

(** How [main] ends: [sys.exit], after the dry run, or after the deletion
    (also when one of the two raised). *)
Inductive outcome :=
  | Exit (code : Z)
  | Previewed (r : result (option Dryrun.summary))
  | Deleted (run : result Delete.stats * database * client).

(** Collect UIDs from all sources, and deduplicate.  [sorted] gives the
    same list for every order in which the set is enumerated. *)
Definition collect_uids (py_int : str -> option Z) (a : args) (input : stdin) : list Z :=
  let all_uids := uids a in
  (* From file *)
  let all_uids :=
    match file a with
    | Some f => all_uids ++ Dryrun.read_uids_from_stream py_int f
    | None => all_uids
    end in
  (* From stdin (if not a TTY) *)
  let all_uids :=
    match input with
    | Piped lines => all_uids ++ Dryrun.read_uids_from_stream py_int lines
    | Terminal _ => all_uids
    end in
  sorted (elements (list_to_set all_uids : gset Z)).

(** [input(...)]: [None] is [EOFError]. *)
Definition read_response (input : stdin) : option str :=
  match input with
  | Terminal typed => typed
  | Piped _ => None
  end.

(** [main], after [parse_args] *)
Definition main (srv : server) (getenv : str -> option str) (py_int : str -> option Z)
  (max_variables : nat) (a : args) (input : stdin) (d : database) : outcome :=
  let all_uids := collect_uids py_int a input in
  match all_uids with
  | [] => Exit 1
  | _ =>
      if confirm a then
        (* Double-check confirmation (skip if --yes is provided) *)
        if negb (yes a) then
          match read_response input with
          | Some response =>
              let expected := ("DELETE " ++ str_of_nat (length all_uids))%string in
              if negb (String.eqb response expected) then Exit 1
              else Deleted (Delete.delete_emails srv getenv all_uids (batch_size a) None d)
          | None => Exit 1
          end
        else Deleted (Delete.delete_emails srv getenv all_uids (batch_size a) None d)
      else
        (* Dry run mode (default) *)
        Previewed (Dryrun.preview_deletion max_variables d all_uids)
  end.

End Cli.

(** ** Further mailboxes and measures used in the statements *)

Module Cases.
Import Db Imap Fetch Scenario.

(** A mailbox whose listing is not in order. *)
Definition unordered_listing : mailbox :=
  {| listing := [30; 10; 20];
     messages :=
       [(10, ("1 (UID 10 RFC822.SIZE 120 BODY[HEADER] {5}", "first"));
        (20, ("2 (UID 20 RFC822.SIZE 340 BODY[HEADER] {6}", "second"));
        (30, ("3 (UID 30 BODY[HEADER] {5}", "third"))];
     status_line := "[Gmail]/All Mail (UIDNEXT 31)" |}.

(** The commands that leave the remote mailbox as it is. *)
Definition is_query (cmd : command) : bool :=
  match cmd with
  | SELECT | UID_STORE_DELETED _ | EXPUNGE => false
  | _ => true
  end.

(** The uids of the batches on which [delete_messages] returned. *)
Definition succeeded (outcomes : list (list Z * bool)) : list Z :=
  concat (fst <$> filter (fun p => snd p = true) outcomes).

(** The item is a two-part item whose metadata carries the uid [u]. *)
Definition item_has_uid (u : Z) (item : fetch_item) : Prop :=
  match item with
  | ItemTuple metadata _ => re_search_number "UID " metadata = Some u
  | _ => False
  end.

(** Every command the client has sent satisfies [P]. *)
Definition sends_only (P : command -> Prop) (c : client) : Prop :=
  Forall P (sent c).

(** The counters of the batch loop add up, for a run that began with the
    database [d0]: every parsed record is counted as new, as already
    existing, or waits in [batch_emails]; the table has grown by
    [new_stored] rows. *)
Definition balanced (d0 : conn) (ls : loop_state) : Prop :=
  new_stored (st ls) + already_existed (st ls) + Z.of_nat (length (batch_emails ls))
  = fetched ls /\
  get_email_count (db ls) = get_email_count d0 + new_stored (st ls) /\
  0 <= new_stored (st ls) /\ 0 <= already_existed (st ls) /\ 0 <= errors (st ls).

Definition is_fetch (cmd : command) : bool :=
  match cmd with UID_FETCH _ => true | _ => false end.

(** A reading of [int] for the examples: the value of a run of decimal
    digits; it raises [ValueError] on every other string. *)
Definition digits_int (s : str) : option Z :=
  if (negb (String.eqb s "") && forallb is_digit (list_ascii_of_string s))%bool
  then Some (digits_value 0 s) else None.

(** Every character of [s] satisfies [f]. *)
Fixpoint all_chars (f : ascii -> bool) (s : str) : bool :=
  match s with
  | String c s' => f c && all_chars f s'
  | EmptyString => true
  end.

(** What ends a token on a line of uids: whitespace or a comma. *)
Definition is_separator (c : ascii) : bool :=
  Dryrun.is_space c || Ascii.eqb c ",".

Definition is_token (s : str) : bool :=
  negb (String.eqb s "") && all_chars (fun c => negb (is_separator c)) s.

(** The lines of a file of uids, by their parts: a blank line, a comment
    after optional whitespace, and a line of tokens, each token with the
    separators that follow it. *)
Inductive line :=
  | Blank (ws : str)
  | Comment (ws text : str)
  | Uids (leading : str) (items : list (str * str)).

Fixpoint join_tokens (items : list (str * str)) : str :=
  match items with
  | [] => EmptyString
  | (t, sep) :: rest => (t ++ sep ++ join_tokens rest)%string
  end.

Definition render (l : line) : str :=
  match l with
  | Blank ws => ws
  | Comment ws text => (ws ++ String "#" text)%string
  | Uids leading items => (leading ++ join_tokens items)%string
  end.

(** Tokens are not empty and hold no separator; between two tokens there
    is at least one separator. *)
Fixpoint well_separated (items : list (str * str)) : bool :=
  match items with
  | [] => true
  | (t, sep) :: rest =>
      is_token t && all_chars is_separator sep
      && match rest with [] => true | _ => negb (String.eqb sep "") end
      && well_separated rest
  end.

Definition well_formed (l : line) : bool :=
  match l with
  | Blank ws => all_chars Dryrun.is_space ws
  | Comment ws _ => all_chars Dryrun.is_space ws
  | Uids leading items =>
      all_chars is_separator leading && well_separated items
      && match items with
         | (t, _) :: _ => negb (Dryrun.is_comment t)
         | [] => true
         end
  end.

(** The uids a line stands for: the tokens that [py_int] reads. *)
Definition uids_of (py_int : str -> option Z) (l : line) : list Z :=
  match l with
  | Uids _ items => omap py_int (fst <$> items)
  | _ => []
  end.

(** The uids given to [main]: on the command line, in the file, and on
    standard input when it is not a terminal. *)
Definition given_uids (py_int : str -> option Z) (a : Cli.args) (input : Cli.stdin)
  : list Z :=
  Cli.uids a
  ++ match Cli.file a with
     | Some f => Dryrun.read_uids_from_stream py_int f
     | None => []
     end
  ++ match input with
     | Cli.Piped lines => Dryrun.read_uids_from_stream py_int lines
     | Cli.Terminal _ => []
     end.

(** The commands sent to the server during a run of [main]. *)
Definition commands_of (o : Cli.outcome) : history :=
  match o with
  | Cli.Deleted run => sent (snd run)
  | _ => []
  end.

(** The local database after a run of [main] that began with [d]. *)
Definition database_after (d : database) (o : Cli.outcome) : database :=
  match o with
  | Cli.Deleted run => snd (fst run)
  | _ => d
  end.

End Cases.

(** * Properties *)

Import Db Imap Fetch Scenario.

(** ** The local store: cursor and dedup *)

Lemma update_sync_state_frame (c : conn) (u t : Z) :
  emails (update_sync_state c u t) = emails c /\
  deleted_uids (update_sync_state c u t) = deleted_uids c.
Proof. unfold update_sync_state. destruct (sync_state c); auto. Qed.

Lemma update_sync_state_cursor (c : conn) (row : sync_row) (u t : Z) :
  sync_state c = Some row ->
  get_sync_state (update_sync_state c u t)
  = {| last_uid := u; last_sync := Some (clock c); total_messages := t |}.
Proof. intros H. unfold update_sync_state, get_sync_state. rewrite H. reflexivity. Qed.

(** C2, as the code has it: for every stored cursor value [C] and every
    argument [maxUid], [update_sync_state] stores [maxUid] as the cursor,
    whatever its order with [C]: a larger value advances the cursor, and a
    smaller value lowers it; the records and the tombstones are untouched. *)
Theorem update_sync_state_overwrites_cursor (c : conn) (row : sync_row) (maxUid total : Z) :
  sync_state c = Some row ->
  let C := last_uid (get_sync_state c) in
  let c' := update_sync_state c maxUid total in
  last_uid (get_sync_state c') = maxUid /\
  (maxUid < C -> last_uid (get_sync_state c') < C) /\
  (C < maxUid -> C < last_uid (get_sync_state c')) /\
  emails c' = emails c /\ deleted_uids c' = deleted_uids c.
Proof.
  intros Hrow C c'. subst c'.
  rewrite (update_sync_state_cursor c row maxUid total Hrow). simpl.
  pose proof (update_sync_state_frame c maxUid total) as [He Hd].
  repeat split; auto.
Qed.

Lemma update_sync_state_overwrites_cursor_witness :
  last_uid (get_sync_state (update_sync_state (db_with_cursor 10) 30 31)) = 30.
Proof.
  apply (update_sync_state_overwrites_cursor (db_with_cursor 10)
           {| last_uid := 10; last_sync := None; total_messages := 0 |} 30 31).
  reflexivity.
Defined.

(** C2 as stated fails: with the cursor at 10, the call with 5 is not a
    no-op; it leaves the cursor at 5. *)
Lemma update_sync_state_lowers_cursor :
  last_uid (get_sync_state (db_with_cursor 10)) = 10 /\
  5 < last_uid (get_sync_state (db_with_cursor 10)) /\
  last_uid (get_sync_state (update_sync_state (db_with_cursor 10) 5 0)) = 5.
Proof. repeat split; reflexivity. Qed.

Lemma insert_email_present (c : conn) (e : email_data) (r : email_row) :
  emails c !! uid e = Some r -> insert_email c e = (false, c).
Proof. intros H. unfold insert_email. rewrite H. reflexivity. Qed.

Lemma insert_email_absent (c : conn) (e : email_data) :
  emails c !! uid e = None ->
  fst (insert_email c e) = true /\
  emails (snd (insert_email c e)) !! uid e
  = Some {| row_data := e; fetched_at := clock c |}.
Proof.
  intros H. unfold insert_email. rewrite H. simpl. split; [reflexivity|].
  apply lookup_insert_eq.
Qed.

Lemma insert_email_other (c : conn) (e : email_data) (u : Z) :
  uid e <> u -> emails (snd (insert_email c e)) !! u = emails c !! u.
Proof.
  intros Hne. unfold insert_email. destruct (emails c !! uid e); simpl; [reflexivity|].
  by rewrite lookup_insert_ne.
Qed.

Lemma insert_email_keeps (c : conn) (e : email_data) (u : Z) (r : email_row) :
  emails c !! u = Some r -> emails (snd (insert_email c e)) !! u = Some r.
Proof.
  intros H. destruct (decide (uid e = u)) as [<- | Hne].
  - by rewrite (insert_email_present c e r H).
  - by rewrite insert_email_other.
Qed.

Lemma results_for_cons (u : Z) (e : email_data) (es : list email_data)
  (r : bool) (rs : list bool) :
  results_for u (e :: es) (r :: rs)
  = if decide (uid e = u) then r :: results_for u es rs else results_for u es rs.
Proof.
  unfold results_for. simpl. rewrite filter_cons. simpl.
  destruct (decide (uid e = u)); reflexivity.
Qed.

Lemma insert_each_cons (c : conn) (e : email_data) (es : list email_data) :
  insert_each c (e :: es)
  = (fst (insert_email c e) :: fst (insert_each (snd (insert_email c e)) es),
     snd (insert_each (snd (insert_email c e)) es)).
Proof.
  simpl. destruct (insert_email c e) as [r c1]. simpl.
  destruct (insert_each c1 es) as [rs c2]. reflexivity.
Qed.

(** Once a uid is stored, every insert with it returns false and its row
    stays as it is. *)
Lemma insert_each_present (u : Z) (r : email_row) (es : list email_data) (c : conn) :
  emails c !! u = Some r ->
  results_for u es (fst (insert_each c es))
  = replicate (length (filter (fun e => uid e = u) es)) false /\
  emails (snd (insert_each c es)) !! u = Some r.
Proof.
  revert c. induction es as [|e es IH]; intros c H.
  - split; [reflexivity | exact H].
  - rewrite insert_each_cons. cbn [fst snd]. rewrite results_for_cons, filter_cons.
    destruct (decide (uid e = u)) as [Heq | Hne].
    + subst u. rewrite (insert_email_present c e r H). cbn [fst snd].
      destruct (IH c H) as [IH1 IH2]. rewrite IH1. split; [reflexivity | exact IH2].
    + apply IH. by apply insert_email_keeps.
Qed.

(** C6: for a uid that is not stored yet, over any sequence of inserts
    (records of any uids), the inserts with that uid return true exactly
    once, at the first of them, and false at every later one; the stored
    record is the first one's, whatever the later ones carry. *)
Theorem insert_email_true_exactly_once (c : conn) (u : Z) (es : list email_data) :
  emails c !! u = None ->
  results_for u es (fst (insert_each c es))
  = match filter (fun e => uid e = u) es with
    | [] => []
    | _ :: later => true :: replicate (length later) false
    end /\
  row_data <$> emails (snd (insert_each c es)) !! u
  = head (filter (fun e => uid e = u) es).
Proof.
  revert c. induction es as [|e es IH]; intros c H.
  - simpl. rewrite H. split; reflexivity.
  - rewrite insert_each_cons. cbn [fst snd]. rewrite results_for_cons, filter_cons.
    destruct (decide (uid e = u)) as [Heq | Hne].
    + subst u. destruct (insert_email_absent c e H) as [Ht Hrow].
      rewrite Ht.
      destruct (insert_each_present (uid e) _ es _ Hrow) as [H1 H2].
      rewrite H1, H2. split; reflexivity.
    + apply IH. rewrite insert_email_other; auto.
Qed.

Lemma insert_email_true_exactly_once_witness :
  results_for 7 [record 7 "a"; record 8 "b"; record 7 "c"]
    (fst (insert_each empty_db [record 7 "a"; record 8 "b"; record 7 "c"]))
  = [true; false] /\
  row_data <$> emails (snd (insert_each empty_db
                              [record 7 "a"; record 8 "b"; record 7 "c"])) !! 7
  = Some (record 7 "a").
Proof.
  apply (insert_email_true_exactly_once empty_db 7
           [record 7 "a"; record 8 "b"; record 7 "c"]).
  reflexivity.
Defined.

(** ** The batched retriever: partition into chunks *)



Lemma range_loop_concat {A} (l : list A) (step : nat) (fuel i : nat) :
  (0 < step)%nat -> (length l - i <= fuel)%nat ->
  concat (map (fun j => take step (drop j l)) (range_loop fuel i (length l) step))
  = drop i l.
Proof.
  intros Hstep. revert i. induction fuel as [|fuel IH]; intros i Hfuel; simpl.
  - symmetry. apply drop_ge. lia.
  - destruct (Nat.ltb_spec i (length l)) as [Hlt | Hge].
    + simpl. rewrite IH by lia.
      rewrite <- drop_drop. apply take_drop.
    + symmetry. apply drop_ge. lia.
Qed.








(** ** The record normalizer never raises *)

Lemma decode_part_fallback (lib : email_lib) (data : bytes) (charset : option str) :
  let encoding := if truthy charset then default "utf-8" charset else "utf-8" in
  decode_part lib (ChunkBytes data, charset)
  = match bytes_decode lib data encoding false with
    | Return s => Return s
    | Raise UnicodeDecodeError | Raise LookupError =>
        match bytes_decode lib data "utf-8" true with
        | Return s => Return s
        | Raise _ => bytes_decode lib data "latin-1" true
        end
    | Raise e => Raise e
    end.
Proof. reflexivity. Qed.

(** The loop over the parts appends what each part decodes to, and an
    exception of a part leaves the loop. *)
Lemma decode_parts_returns (lib : email_lib) (parts : list (chunk * option str))
  (strs res : list str) :
  Forall2 (fun part s => decode_part lib part = Return s) parts strs ->
  decode_parts lib res parts = Return (res ++ strs).
Proof.
  intros H. revert res. induction H as [|part s parts strs Hpart _ IH]; intros res.
  - by rewrite app_nil_r.
  - cbn [decode_parts]. rewrite Hpart. cbn [bind]. rewrite IH, <- app_assoc. reflexivity.
Qed.

Lemma decode_parts_raises (lib : email_lib) (parts : list (chunk * option str))
  (res : list str) :
  Exists (fun part => returns (decode_part lib part) = false) parts ->
  returns (decode_parts lib res parts) = false.
Proof.
  intros H. revert res. induction H as [part parts Hpart | part parts _ IH]; intros res.
  - cbn [decode_parts]. destruct (decode_part lib part); [discriminate | reflexivity].
  - cbn [decode_parts]. destruct (decode_part lib part); [apply IH | reflexivity].
Qed.

Lemma join_app (l1 l2 : list str) : join (l1 ++ l2) = (join l1 ++ join l2)%string.
Proof.
  induction l1 as [|s l1 IH]; [reflexivity|].
  cbn [app join fold_right]. fold (join (l1 ++ l2)). fold (join l1).
  rewrite IH. clear IH. induction s as [|c s IHs]; [reflexivity|].
  change (String c s ++ ?x)%string with (String c (s ++ x)%string). by rewrite IHs.
Qed.

(** C9: whatever the library functions do, [decode_header_value] and
    [parse_date] return and do not raise, on a [str], on [None] and on a
    [Header] object.  Of a value that is not empty [decode_header_value]
    returns the concatenation of what its parts decode to; a part of bytes
    is decoded with its declared charset (UTF-8 when it declares none), on
    UnicodeDecodeError or LookupError with UTF-8 and replacement, and if
    that raises with latin-1; a part that is a [str] is taken as it is;
    when [decode_header] raises or any exception leaves the decoding of a
    part, the original value is returned as a string.  [parse_date] returns
    the ISO form of the date converted to UTC, and [None] for an empty
    header and whenever the parser or the conversion raises. *)
Theorem normalizer_never_raises (lib : email_lib) :
  (forall value : option header_value,
     exists s : str, decode_header_value lib value = Return s) /\
  (forall date_header : header_value,
     exists d : option str, parse_date lib date_header = Return d) /\
  (forall (data : bytes) (charset : option str),
     let encoding := if truthy charset then default "utf-8" charset else "utf-8" in
     decode_part lib (ChunkBytes data, charset)
     = match bytes_decode lib data encoding false with
       | Return s => Return s
       | Raise UnicodeDecodeError | Raise LookupError =>
           match bytes_decode lib data "utf-8" true with
           | Return s => Return s
           | Raise _ => bytes_decode lib data "latin-1" true
           end
       | Raise e => Raise e
       end) /\
  (forall value : header_value,
     returns (decoded_parts <- decode_header lib value ;;
              decode_parts lib [] decoded_parts) = false ->
     decode_header_value lib (Some value) = Return (py_str lib value)) /\
  (forall date_header : header_value,
     returns (parsedate_to_datetime lib date_header) = false ->
     parse_date lib date_header = Return None) /\
  (forall value : option header_value,
     truthy_value value = false -> decode_header_value lib value = Return "") /\
  (forall (data : str) (charset : option str),
     decode_part lib (ChunkStr data, charset) = Return data) /\
  (forall (value : header_value) (parts : list (chunk * option str)) (strs : list str),
     truthy_value (Some value) = true ->
     decode_header lib value = Return parts ->
     Forall2 (fun part s => decode_part lib part = Return s) parts strs ->
     decode_header_value lib (Some value) = Return (join strs)) /\
  (forall value : header_value,
     returns (decode_header lib value) = false ->
     decode_header_value lib (Some value) = Return (py_str lib value)) /\
  (forall (value : header_value) (parts : list (chunk * option str)),
     decode_header lib value = Return parts ->
     Exists (fun part => returns (decode_part lib part) = false) parts ->
     decode_header_value lib (Some value) = Return (py_str lib value)) /\
  (forall (date_header : header_value) (dt dt' : datetime lib) (iso : str),
     truthy_value (Some date_header) = true ->
     parsedate_to_datetime lib date_header = Return dt ->
     (if tzinfo_is_none lib dt then replace_tzinfo_utc lib dt
      else astimezone_utc lib dt) = Return dt' ->
     isoformat lib dt' = Return iso ->
     parse_date lib date_header = Return (Some iso)) /\
  (forall date_header : header_value,
     truthy_value (Some date_header) = false \/
     returns (dt <- parsedate_to_datetime lib date_header ;;
              dt' <- (if tzinfo_is_none lib dt then replace_tzinfo_utc lib dt
                      else astimezone_utc lib dt) ;;
              isoformat lib dt') = false ->
     parse_date lib date_header = Return None).
Proof.
  assert (Hworst : forall value : header_value,
            returns (decoded_parts <- decode_header lib value ;;
                     decode_parts lib [] decoded_parts) = false ->
            decode_header_value lib (Some value) = Return (py_str lib value)).
  { intros value Hraise. unfold decode_header_value.
    destruct (truthy_value (Some value)) eqn:Ht; cbn [negb].
    - change (default (Text "") (Some value)) with value.
      destruct (decode_header lib value) as [parts|e];
        cbn [bind try_except returns] in *; [|reflexivity].
      destruct (decode_parts lib [] parts) as [res|e]; cbn [bind try_except returns] in *;
        [discriminate | reflexivity].
    - destruct value as [s|raw]; [|discriminate]. cbn in Ht.
      apply negb_false_iff, String.eqb_eq in Ht. by subst s. }
  split; [|split; [|split; [|split; [|split; [|split; [|split; [|split; [|split;
    [|split; [|split]]]]]]]]]].
  - intros value. unfold decode_header_value.
    destruct (truthy_value value); cbn [negb]; [|eauto].
    destruct (decode_header lib (default (Text "") value)) as [parts|e];
      cbn [bind try_except]; [|eauto].
    destruct (decode_parts lib [] parts) as [res|e]; cbn [bind try_except]; eauto.
  - intros date_header. unfold parse_date.
    destruct (truthy_value (Some date_header)); cbn [negb]; [|eauto].
    destruct (parsedate_to_datetime lib date_header) as [dt|e];
      cbn [bind try_except]; [|eauto].
    destruct (if tzinfo_is_none lib dt then replace_tzinfo_utc lib dt
              else astimezone_utc lib dt) as [dt'|e]; cbn [bind try_except]; [|eauto].
    destruct (isoformat lib dt') as [iso|e]; cbn [bind try_except]; eauto.
  - intros data charset. apply decode_part_fallback.
  - exact Hworst.
  - intros date_header Hraise. unfold parse_date.
    destruct (truthy_value (Some date_header)); cbn [negb]; [|reflexivity].
    destruct (parsedate_to_datetime lib date_header); cbn [bind try_except returns] in *;
      [discriminate | reflexivity].
  - intros value Ht. unfold decode_header_value. by rewrite Ht.
  - reflexivity.
  - intros value parts strs Ht Hparts Hstrs. unfold decode_header_value.
    rewrite Ht. cbn [negb]. change (default (Text "") (Some value)) with value.
    rewrite Hparts. cbn [bind].
    rewrite (decode_parts_returns lib parts strs [] Hstrs). reflexivity.
  - intros value Hraise. apply Hworst.
    destruct (decode_header lib value); [discriminate | reflexivity].
  - intros value parts Hparts Hex. apply Hworst. rewrite Hparts. cbn [bind].
    by apply decode_parts_raises.
  - intros date_header dt dt' iso Ht Hdt Hdt' Hiso. unfold parse_date.
    rewrite Ht. cbn [negb]. rewrite Hdt. cbn [bind]. rewrite Hdt'. cbn [bind].
    rewrite Hiso. reflexivity.
  - intros date_header [Ht | Hraise]; unfold parse_date.
    + by rewrite Ht.
    + destruct (truthy_value (Some date_header)); cbn [negb]; [|reflexivity].
      destruct (parsedate_to_datetime lib date_header) as [dt|e];
        cbn [bind try_except returns] in *; [|reflexivity].
      destruct (if tzinfo_is_none lib dt then replace_tzinfo_utc lib dt
                else astimezone_utc lib dt) as [dt'|e];
        cbn [bind try_except returns] in *; [|reflexivity].
      destruct (isoformat lib dt') as [iso|e]; cbn [bind try_except returns] in *;
        [discriminate | reflexivity].
Qed.

Lemma normalizer_never_raises_witness :
  decode_header_value bogus_charset_lib (Some (Text "Re: =?x-unknown?Q?caf=E9?="))
  = Return "Re: caf?" /\
  decode_header_value plain_lib (Some (Text "=?utf-8?Q?caf=C3=A9?="))
  = Return "=?utf-8?Q?caf=C3=A9?=" /\
  parse_date plain_lib (Text "Mon, 1 Jan 2024 12:00:00 +0000")
  = Return (Some "2024-01-01T12:00:00+00:00") /\
  parse_date plain_lib (Text "someday") = Return None.
Proof.
  destruct (normalizer_never_raises plain_lib)
    as (_ & _ & _ & Hvalue & Hdate & _ & _ & _ & _ & _ & Hiso & _).
  destruct (normalizer_never_raises bogus_charset_lib)
    as (_ & _ & _ & _ & _ & _ & _ & Hjoin & _).
  split; [|split; [|split]].
  - apply (Hjoin (Text "Re: =?x-unknown?Q?caf=E9?=")
             [(ChunkStr "Re: ", None); (ChunkBytes "caf=E9", Some "x-unknown")]
             ["Re: "; "caf?"]); [reflexivity | reflexivity |].
    repeat constructor.
  - apply (Hvalue (Text "=?utf-8?Q?caf=C3=A9?=")). reflexivity.
  - apply (Hiso (Text "Mon, 1 Jan 2024 12:00:00 +0000")
             "2024-01-01T12:00:00+00:00" "2024-01-01T12:00:00+00:00"); reflexivity.
  - apply Hdate. reflexivity.
Defined.

(** ** Deletion: the access mode *)

(** When [delete_messages] returns on a non-empty list, the folder is
    selected read-only again. *)
Lemma delete_messages_returns_read_only (srv : server) (c : client) (uids : list Z)
  (expunge : bool) (n : Z) (c' : client) :
  uids <> [] ->
  delete_messages srv c uids expunge = (Return n, c') -> mode c' = ReadOnly.
Proof.
  intros Hne. unfold delete_messages, _select_all_mail.
  destruct uids as [|u uids]; [done|].
  destruct (on_select srv (sent c) false) as [[[|] [k|e]]|e]; try (intros [=]; fail).
  cbn [fst snd]. 
  destruct (on_store srv _ (u :: uids)) as [[|]|e]; try (intros [=]; fail).
  destruct expunge.
  - destruct (on_expunge srv _) as [[]|e]; try (intros [=]; fail).
    destruct (on_select srv _ true) as [[[|] [k'|e]]|e]; try (intros [=]; fail).
    intros [= _ <-]. reflexivity.
  - destruct (on_select srv _ true) as [[[|] [k'|e]]|e]; try (intros [=]; fail).
    intros [= _ <-]. reflexivity.
Qed.

(** When the STORE is answered NO, [delete_messages] raises with the
    folder still selected read-write, the STORE being the last command. *)
Lemma delete_messages_store_no (srv : server) (c : client) (uids : list Z)
  (expunge : bool) (k : Z) :
  uids <> [] ->
  on_select srv (sent c) false = Return (OK, Return k) ->
  on_store srv (SELECT :: sent c) uids = Return NO ->
  delete_messages srv c uids expunge
  = (Raise (RuntimeError "Failed to mark deleted"),
     {| sent := UID_STORE_DELETED uids :: SELECT :: sent c; mode := ReadWrite |}).
Proof.
  intros Hne Hsel Hstore. unfold delete_messages, _select_all_mail.
  destruct uids as [|u uids]; [done|].
  rewrite Hsel. cbn. rewrite Hstore. reflexivity.
Qed.

(** C3 at the failing input: the folder is selected read-only, the batch
    [10; 20] is to be deleted and the server answers NO to the STORE.  The
    call raises; the last select was the read-write one, no read-only
    select follows it, and the mode is left read-write. *)
Theorem delete_messages_store_failure_leaves_read_write :
  mode connected = ReadOnly /\
  delete_messages (store_refused three_listed_two_fetched) connected [10; 20] true
  = (Raise (RuntimeError "Failed to mark deleted"),
     {| sent := [UID_STORE_DELETED [10; 20]; SELECT; EXAMINE; LOGIN];
        mode := ReadWrite |}).
Proof. split; reflexivity. Qed.

(** ** Deletion: failed batches and the counters *)

Lemma delete_loop_app (srv : server) (cb : option (Z -> Z -> result unit)) (total : Z)
  (pre post : list (list Z)) (s : Delete.stats * database * client) :
  Delete.delete_loop srv cb total (pre ++ post) s
  = Delete.delete_loop srv cb total post (Delete.delete_loop srv cb total pre s).
Proof. unfold Delete.delete_loop. apply fold_left_app. Qed.

Lemma delete_batch_failed (srv : server) (cb : option (Z -> Z -> result unit)) (total : Z)
  (s : Delete.stats * database * client) (batch : list Z) :
  returns (fst (delete_messages srv (snd s) batch true)) = false ->
  Delete.delete_batch srv cb total s batch
  = (Delete.add_errors (fst (fst s)) (Z.of_nat (length batch)), snd (fst s),
     snd (delete_messages srv (snd s) batch true)).
Proof.
  destruct s as [[stats0 d] c]. cbn [fst snd]. unfold Delete.delete_batch.
  destruct (delete_messages srv c batch true) as [[n|e] c1]; cbn [fst snd returns];
    [discriminate | reflexivity].
Qed.

(** C8: when [delete_messages] raises on a batch, whatever was processed
    before it and whether or not the database file has its tables: the
    batch's size is added to [errors], [deleted] and the database stay as
    they were (no tombstone written, no row removed), and the loop goes on
    with the batches after it. *)
Theorem failed_batch_is_counted_and_skipped (srv : server)
  (progress_callback : option (Z -> Z -> result unit)) (total : Z)
  (before : list (list Z)) (batch : list Z) (after : list (list Z))
  (s0 : Delete.stats * database * client) :
  let s1 := Delete.delete_loop srv progress_callback total before s0 in
  let s2 := Delete.delete_batch srv progress_callback total s1 batch in
  returns (fst (delete_messages srv (snd s1) batch true)) = false ->
  Delete.errors (fst (fst s2)) = Delete.errors (fst (fst s1)) + Z.of_nat (length batch) /\
  Delete.deleted (fst (fst s2)) = Delete.deleted (fst (fst s1)) /\
  snd (fst s2) = snd (fst s1) /\
  (forall d1 : conn, snd (fst s1) = Tables d1 ->
     exists d2 : conn, snd (fst s2) = Tables d2 /\
       get_deleted_uids d2 = get_deleted_uids d1 /\
       emails d2 = emails d1) /\
  Delete.delete_loop srv progress_callback total (before ++ batch :: after) s0
  = Delete.delete_loop srv progress_callback total after s2.
Proof.
  intros s1 s2 Hfail. subst s2.
  rewrite (delete_batch_failed srv progress_callback total s1 batch Hfail).
  cbn [fst snd]. split; [reflexivity|]. split; [reflexivity|]. split; [reflexivity|].
  split; [intros d1 Hd1; exists d1; auto|].
  rewrite delete_loop_app. fold s1. cbn [Delete.delete_loop fold_left].
  rewrite (delete_batch_failed srv progress_callback total s1 batch Hfail).
  reflexivity.
Qed.

Lemma failed_batch_is_counted_and_skipped_witness :
  Delete.delete_emails (store_refused three_listed_two_fetched) credentials
    [10; 20; 30] 2 None (Tables (db_with_cursor 30))
  = (Return {| Delete.deleted := 0; Delete.errors := 3; Delete.not_found := 0 |},
     Tables (db_with_cursor 30),
     {| sent := [LOGOUT; CLOSE; UID_STORE_DELETED [30]; SELECT;
                 UID_STORE_DELETED [10; 20]; SELECT; EXAMINE; LOGIN];
        mode := NotSelected |}) /\
  Delete.errors
    (fst (fst (Delete.delete_batch (store_refused three_listed_two_fetched) None 3
                 (Delete.zero_stats, Tables (db_with_cursor 30), connected) [10; 20]))) = 2.
Proof.
  split; [reflexivity|].
  apply (failed_batch_is_counted_and_skipped (store_refused three_listed_two_fetched)
           None 3 [] [10; 20] [[30]]
           (Delete.zero_stats, Tables (db_with_cursor 30), connected)).
  reflexivity.
Defined.

Lemma delete_messages_count (srv : server) (c : client) (uids : list Z) (expunge : bool) :
  match fst (delete_messages srv c uids expunge) with
  | Return n => n = Z.of_nat (length uids)
  | Raise _ => True
  end.
Proof.
  unfold delete_messages, _select_all_mail.
  destruct uids as [|u uids]; [reflexivity|].
  destruct (on_select srv (sent c) false) as [[[|] [k|e]]|e]; try exact I.
  cbn [fst snd].
  destruct (on_store srv _ (u :: uids)) as [[|]|e]; try exact I.
  destruct expunge.
  - destruct (on_expunge srv _) as [[]|e]; try exact I.
    destruct (on_select srv _ true) as [[[|] [k'|e]]|e]; try exact I. reflexivity.
  - destruct (on_select srv _ true) as [[[|] [k'|e]]|e]; try exact I. reflexivity.
Qed.

Lemma total_size_cons (ok : bool) (batch : list Z) (b : bool)
  (outcomes : list (list Z * bool)) :
  total_size ok ((batch, b) :: outcomes)
  = (if Bool.eqb b ok then Z.of_nat (length batch) else 0) + total_size ok outcomes.
Proof. unfold total_size. simpl. destruct (Bool.eqb b ok); lia. Qed.

Lemma delete_batch_deleted (srv : server) (cb : option (Z -> Z -> result unit)) (total : Z)
  (s : Delete.stats * database * client) (batch : list Z) :
  Delete.deleted (fst (fst (Delete.delete_batch srv cb total s batch)))
  = Delete.deleted (fst (fst s))
    + (if returns (fst (delete_messages srv (snd s) batch true))
       then Z.of_nat (length batch) else 0).
Proof.
  destruct s as [[stats0 d] c]. cbn [fst snd]. unfold Delete.delete_batch.
  pose proof (delete_messages_count srv c batch true) as Hn.
  destruct (delete_messages srv c batch true) as [[n|e] c1]; cbn [fst snd returns] in *.
  - subst n. destruct (mark_deleted_in d batch) as [d1|e]; [|reflexivity].
    destruct cb as [callback|]; [|reflexivity].
    destruct (callback _ total); reflexivity.
  - simpl. lia.
Qed.

Lemma delete_loop_deleted (srv : server) (cb : option (Z -> Z -> result unit)) (total : Z)
  (batches : list (list Z)) (s : Delete.stats * database * client) :
  Delete.deleted (fst (fst (Delete.delete_loop srv cb total batches s)))
  = Delete.deleted (fst (fst s)) + total_size true (batch_outcomes srv cb total batches s).
Proof.
  revert s. induction batches as [|batch batches IH]; intros s.
  - simpl. unfold total_size. simpl. lia.
  - cbn [Delete.delete_loop fold_left batch_outcomes].
    change (fold_left (Delete.delete_batch srv cb total) batches ?x)
      with (Delete.delete_loop srv cb total batches x).
    rewrite IH, delete_batch_deleted, total_size_cons.
    destruct (returns (fst (delete_messages srv (snd s) batch true))); simpl; lia.
Qed.

(** C10, as the code has it: [delete_messages] never returns anything but
    the length of its input, whatever exists remotely, and it returns when
    the read-write select, the STORE, the expunge and the read-only select
    that ends it all succeed; the [deleted] statistic of [delete_emails] is
    the total size of the batches on which [delete_messages] returned. *)
Theorem deleted_counts_input_sizes :
  (forall (srv : server) (c : client) (uids : list Z) (expunge : bool),
     match fst (delete_messages srv c uids expunge) with
     | Return n => n = Z.of_nat (length uids)
     | Raise _ => True
     end) /\
  (forall (srv : server) (c : client) (uids : list Z) (expunge : bool) (k k' : Z),
     let h2 := UID_STORE_DELETED uids :: SELECT :: sent c in
     let h3 := if expunge then EXPUNGE :: h2 else h2 in
     on_select srv (sent c) false = Return (OK, Return k) ->
     on_store srv (SELECT :: sent c) uids = Return OK ->
     (expunge = true -> on_expunge srv h2 = Return tt) ->
     on_select srv h3 true = Return (OK, Return k') ->
     fst (delete_messages srv c uids expunge) = Return (Z.of_nat (length uids))) /\
  (forall (srv : server) (getenv : str -> option str) (uids : list Z) (batch_size : Z)
          (progress_callback : option (Z -> Z -> result unit)) (d : database)
          (stats : Delete.stats),
     fst (fst (Delete.delete_emails srv getenv uids batch_size progress_callback d))
     = Return stats ->
     Delete.deleted stats
     = total_size true (delete_emails_outcomes srv uids batch_size progress_callback d)).
Proof.
  split; [exact delete_messages_count | split].
  - intros srv c uids expunge k k' h2 h3 Hsel Hstore Hexp Hexam.
    unfold delete_messages, _select_all_mail.
    destruct uids as [|u uids]; [reflexivity|].
    rewrite Hsel. cbn [fst snd sent send set_mode]. rewrite Hstore.
    subst h3 h2. destruct expunge.
    + rewrite (Hexp eq_refl). cbn [fst snd sent send set_mode].
      rewrite Hexam. reflexivity.
    + cbn [fst snd sent send set_mode]. rewrite Hexam. reflexivity.
  - intros srv getenv uids batch_size cb d stats.
    unfold Delete.delete_emails, delete_emails_outcomes.
    destruct uids as [|u uids].
    + intros [= <-]. simpl. destruct (range 0 batch_size) as [starts|e] eqn:Hr;
        [|reflexivity].
      unfold range in Hr. simpl in Hr.
      destruct (batch_size =? 0); [discriminate|].
      destruct (batch_size <? 0); injection Hr as <-; reflexivity.
    + destruct (load_config_from_env getenv); [|intros [=]].
      destruct (connect srv new_client) as [[[]|e] c]; [|intros [=]].
      cbn [fst snd].
      destruct (range (length (u :: uids)) batch_size) as [starts|e]; [|intros [=]].
      pose proof (delete_loop_deleted srv cb (Z.of_nat (length (u :: uids)))
                    (map (fun i => slice (u :: uids) i batch_size) starts)
                    (Delete.zero_stats, d, c)) as Hd.
      destruct (Delete.delete_loop srv cb _ _ _) as [[stats1 d1] c1].
      intros [= <-]. exact Hd.
Qed.

Lemma deleted_counts_input_sizes_witness :
  fst (delete_messages (mailbox_server three_listed_two_fetched) connected [7; 8; 9] true)
  = Return 3 /\
  Delete.deleted
    {| Delete.deleted := 3; Delete.errors := 0; Delete.not_found := 0 |}
  = total_size true
      (delete_emails_outcomes (mailbox_server three_listed_two_fetched) [7; 8; 9] 2 None
         (Tables (db_with_cursor 30))).
Proof.
  destruct deleted_counts_input_sizes as (_ & Hreturns & Hstat).
  split.
  - apply (Hreturns (mailbox_server three_listed_two_fetched) connected [7; 8; 9] true 3 3);
      reflexivity.
  - apply (Hstat (mailbox_server three_listed_two_fetched) credentials [7; 8; 9] 2 None
             (Tables (db_with_cursor 30))).
    reflexivity.
Defined.

(** C10 as stated fails: the STORE of the batch [10; 20] is answered OK,
    but the read-only select that follows is answered NO; the call raises
    instead of returning 2, and [delete_emails] reports the batch under
    [errors], with [deleted] at 0. *)
Lemma store_ok_but_delete_messages_raises :
  on_store (examine_refused_after_store three_listed_two_fetched)
    [SELECT; EXAMINE; LOGIN] [10; 20] = Return OK /\
  fst (delete_messages (examine_refused_after_store three_listed_two_fetched)
         connected [10; 20] true)
  = Raise (RuntimeError "Failed to select [Gmail]/All Mail") /\
  fst (fst (Delete.delete_emails (examine_refused_after_store three_listed_two_fetched)
              credentials [10; 20] 50 None (Tables (db_with_cursor 30))))
  = Return {| Delete.deleted := 0; Delete.errors := 2; Delete.not_found := 0 |}.
Proof. repeat split; reflexivity. Qed.

(** ** The sync run: tombstones are filtered before any fetch *)

Lemma fetches_only_send (P : Z -> Prop) (c : client) (cmd : command) :
  (forall uids, cmd = UID_FETCH uids -> Forall P uids) ->
  fetches_only P c -> fetches_only P (send c cmd).
Proof.
  intros Hcmd Hc uids Hin. unfold send in Hin. simpl in Hin.
  apply elem_of_cons in Hin as [Heq | Hin]; [symmetry in Heq|]; auto.
Qed.

Lemma fetches_only_set_mode (P : Z -> Prop) (c : client) (m : folder_mode) :
  fetches_only P c -> fetches_only P (set_mode c m).
Proof. intros Hc. exact Hc. Qed.

Ltac fetches_only_step :=
  first
    [ assumption
    | apply fetches_only_set_mode
    | apply fetches_only_send; [ intros ? [=]; subst; assumption | ]
    | apply fetches_only_send; [ intros ? [=] | ] ].

Ltac fetches_only_tac := cbn [fst snd]; repeat fetches_only_step.

Lemma fetches_only_select (P : Z -> Prop) (srv : server) (c : client) (readonly : bool) :
  fetches_only P c -> fetches_only P (snd (_select_all_mail srv c readonly)).
Proof.
  intros Hc. unfold _select_all_mail.
  destruct (on_select srv (sent c) readonly) as [[[|] count]|e], readonly;
    fetches_only_tac.
Qed.

Lemma fetches_only_connect (P : Z -> Prop) (srv : server) (c : client) :
  fetches_only P c -> fetches_only P (snd (connect srv c)).
Proof.
  intros Hc. unfold connect.
  destruct (on_login srv (sent c)) as [[]|e]; [|fetches_only_tac].
  pose proof (fetches_only_select P srv (send c LOGIN) true) as Hs.
  destruct (_select_all_mail srv (send c LOGIN) true) as [r c2].
  cbn [fst snd] in *. apply Hs. fetches_only_tac.
Qed.

Lemma fetches_only_disconnect (P : Z -> Prop) (srv : server) (c : client) :
  fetches_only P c -> fetches_only P (disconnect srv c).
Proof.
  intros Hc. unfold disconnect.
  destruct (on_close srv (sent c)); fetches_only_tac.
Qed.

Lemma fetches_only_search_all (P : Z -> Prop) (srv : server) (c : client) :
  fetches_only P c -> fetches_only P (snd (search_all srv c)).
Proof.
  intros Hc. unfold search_all.
  destruct (on_search srv (sent c)) as [[[|] uids]|e]; fetches_only_tac.
Qed.

Lemma fetches_only_enumerate (P : Z -> Prop) (srv : server) (c : client)
  (incremental : bool) (d : conn) :
  fetches_only P c -> fetches_only P (snd (enumerate srv c incremental d)).
Proof.
  intros Hc. unfold enumerate, search_since_uid.
  pose proof (fetches_only_search_all P srv c Hc) as Hs.
  destruct incremental; [|exact Hs].
  destruct (last_uid (get_sync_state d) >? 0); [|exact Hs].
  destruct (search_all srv c) as [r c1]. exact Hs.
Qed.

Lemma fetches_only_get_uidnext (P : Z -> Prop) (srv : server) (c : client) :
  fetches_only P c -> fetches_only P (snd (get_uidnext srv c)).
Proof.
  intros Hc. unfold get_uidnext.
  destruct (on_status srv (sent c)) as [[[|] data0]|e]; fetches_only_tac.
  destruct (re_search_number "UIDNEXT " data0); fetches_only_tac.
Qed.

Lemma fetches_only_fetch_headers (P : Z -> Prop) (srv : server) (c : client)
  (uids : list Z) :
  Forall P uids -> fetches_only P c -> fetches_only P (snd (fetch_headers srv c uids)).
Proof.
  intros Hu Hc. unfold fetch_headers. destruct uids as [|u uids]; [exact Hc|].
  destruct (on_fetch srv (sent c) (u :: uids)) as [[[|] data]|e]; fetches_only_tac.
Qed.

Lemma Forall_batch_uids (P : Z -> Prop) (uids : list Z) (batch_size : Z) (i : nat) :
  Forall P uids -> Forall P (batch_uids uids batch_size i).
Proof.
  intros H. unfold batch_uids, slice. apply Forall_take, Forall_drop, H.
Qed.

Lemma fetches_only_fetch_loop (P : Z -> Prop) (srv : server) (lib : email_lib)
  (batch_size : Z) (cb : option (Z -> Z -> Z -> result unit)) (total : Z)
  (uids : list Z) (starts : list nat) (ls : loop_state) (c : client) :
  Forall P uids -> fetches_only P c ->
  fetches_only P (snd (fetch_loop srv lib batch_size cb total uids starts ls c)).
Proof.
  intros Hu. revert ls c. induction starts as [|i starts IH]; intros ls c Hc.
  - exact Hc.
  - simpl.
    pose proof (fetches_only_fetch_headers P srv c (batch_uids uids batch_size i)
                  (Forall_batch_uids P uids batch_size i Hu) Hc) as Hf.
    destruct (fetch_headers srv c (batch_uids uids batch_size i)) as [[bd|e] c1];
      cbn [fst snd] in *; [|exact Hf].
    destruct (process_batch lib batch_size cb total ls bd) as [[[]|e] ls1];
      cbn [fst snd]; [|exact Hf].
    apply IH, Hf.
Qed.

Lemma Forall_drop_deleted (d : conn) (uids : list Z) :
  Forall (fun uid => uid ∉ get_deleted_uids d) (drop_deleted d uids).
Proof.
  apply Forall_forall. intros u Hin. unfold drop_deleted in Hin.
  apply list_elem_of_filter in Hin as [Hn _]. exact Hn.
Qed.

Lemma fetches_only_sync_uids (P : Z -> Prop) (srv : server) (lib : email_lib)
  (batch_size : Z) (cb : option (Z -> Z -> Z -> result unit)) (d : conn) (c : client)
  (uids : list Z) :
  Forall P uids -> fetches_only P c ->
  fetches_only P (snd (sync_uids srv lib batch_size cb d c uids)).
Proof.
  intros Hu Hc. unfold sync_uids.
  destruct (Z.of_nat (length uids) =? 0); [exact Hc|].
  destruct (batch_starts uids batch_size) as [starts|e]; [|exact Hc].
  pose proof (fetches_only_fetch_loop P srv lib batch_size cb
                (Z.of_nat (length uids)) uids starts
                {| fetched := 0; batch_emails := []; st := zero_stats; db := d |} c
                Hu Hc) as Hl.
  destruct (fetch_loop _ _ _ _ _ _ _ _ _) as [[[e|] ls] c2]; cbn [fst snd] in *;
    [exact Hl|].
  destruct (store_remaining ls) as [ls1|e]; [|exact Hl].
  destruct uids as [|u uids]; [exact Hl|].
  destruct (max (u :: uids)); [|exact Hl].
  pose proof (fetches_only_get_uidnext P srv c2 Hl) as Hn.
  destruct (get_uidnext srv c2) as [[n|e] c3]; exact Hn.
Qed.

Lemma fetches_only_session (srv : server) (lib : email_lib) (batch_size : Z)
  (cb : option (Z -> Z -> Z -> result unit)) (incremental : bool) (d : conn) (c : client) :
  let P := fun uid => uid ∉ get_deleted_uids d in
  fetches_only P c ->
  fetches_only P (snd (fetch_all_session srv lib batch_size cb incremental d c)).
Proof.
  intros P Hc. unfold fetch_all_session.
  pose proof (fetches_only_enumerate P srv c incremental d Hc) as He.
  destruct (enumerate srv c incremental d) as [[uids0|e] c1]; cbn [fst snd] in *;
    [|exact He].
  apply fetches_only_sync_uids; [apply Forall_drop_deleted | exact He].
Qed.

Lemma get_deleted_uids_init_db (d : conn) :
  get_deleted_uids (init_db d) = get_deleted_uids d.
Proof. unfold init_db. destruct (sync_state d); reflexivity. Qed.

(** C4: in a run of [fetch_all], incremental or full, whatever the remote
    listing reports, every UID FETCH that is sent names only uids outside
    the tombstone set the database had when the run began. *)
Theorem fetch_all_never_fetches_tombstones (srv : server) (lib : email_lib)
  (getenv : str -> option str) (batch_size : Z)
  (progress_callback : option (Z -> Z -> Z -> result unit)) (incremental : bool)
  (d : conn) (uids : list Z) :
  UID_FETCH uids
    ∈ sent (snd (fetch_all srv lib getenv batch_size progress_callback incremental d)) ->
  Forall (fun uid => uid ∉ get_deleted_uids d) uids.
Proof.
  revert uids. change (fetches_only (fun uid => uid ∉ get_deleted_uids d)
    (snd (fetch_all srv lib getenv batch_size progress_callback incremental d))).
  assert (H0 : fetches_only (fun uid => uid ∉ get_deleted_uids d) new_client).
  { intros uids Hin. simpl in Hin. by apply elem_of_nil in Hin. }
  unfold fetch_all.
  destruct (load_config_from_env getenv); [|exact H0].
  pose proof (fetches_only_connect _ srv new_client H0) as Hc.
  destruct (connect srv new_client) as [[[]|e] c]; cbn [fst snd] in *; [|exact Hc].
  pose proof (fetches_only_session srv lib batch_size progress_callback incremental
                (init_db d) c) as Hs.
  cbn zeta in Hs. rewrite get_deleted_uids_init_db in Hs. specialize (Hs Hc).
  destruct (fetch_all_session _ _ _ _ _ _ _) as [[r d2] c1]. cbn [fst snd] in *.
  apply fetches_only_disconnect, Hs.
Qed.

Lemma fetch_all_never_fetches_tombstones_witness :
  Forall (fun uid => uid ∉ get_deleted_uids (mark_deleted empty_db [20])) [10; 30].
Proof.
  apply (fetch_all_never_fetches_tombstones (mailbox_server three_listed_two_fetched)
           plain_lib credentials 100 None true (mark_deleted empty_db [20]) [10; 30]).
  vm_compute. do 3 apply list_elem_of_further. apply list_elem_of_here.
Defined.

(** ** The sync run: what a run stores and where the cursor goes *)

Lemma insert_email_frame (c : conn) (e : email_data) :
  sync_state (snd (insert_email c e)) = sync_state c /\
  deleted_uids (snd (insert_email c e)) = deleted_uids c.
Proof. unfold insert_email. destruct (emails c !! uid e); auto. Qed.

Lemma insert_email_dom (c : conn) (e : email_data) (u : Z) :
  u ∈ dom (emails (snd (insert_email c e))) <-> u ∈ dom (emails c) \/ u = uid e.
Proof.
  unfold insert_email. destruct (emails c !! uid e) as [r|] eqn:He; simpl.
  - split; [auto|]. intros [H | ->]; [exact H|]. apply elem_of_dom. eauto.
  - rewrite dom_insert_L, elem_of_union, elem_of_singleton. tauto.
Qed.

Lemma insert_emails_batch_cons (c : conn) (e : email_data) (es : list email_data) :
  insert_emails_batch c (e :: es)
  = ((if fst (insert_email c e) then 1 else 0)
       + fst (insert_emails_batch (snd (insert_email c e)) es),
     snd (insert_emails_batch (snd (insert_email c e)) es)).
Proof.
  simpl. destruct (insert_email c e) as [r c1]. simpl.
  destruct (insert_emails_batch c1 es) as [n c2]. reflexivity.
Qed.

Lemma insert_emails_batch_frame (es : list email_data) (c : conn) :
  sync_state (snd (insert_emails_batch c es)) = sync_state c /\
  deleted_uids (snd (insert_emails_batch c es)) = deleted_uids c.
Proof.
  revert c. induction es as [|e es IH]; intros c; [auto|].
  rewrite insert_emails_batch_cons. cbn [snd].
  destruct (IH (snd (insert_email c e))) as [-> ->]. apply insert_email_frame.
Qed.

Lemma insert_emails_batch_dom (es : list email_data) (c : conn) (u : Z) :
  u ∈ dom (emails (snd (insert_emails_batch c es)))
  <-> u ∈ dom (emails c) \/ u ∈ uid <$> es.
Proof.
  revert c. induction es as [|e es IH]; intros c.
  - simpl. split; [auto|]. intros [H | H]; [exact H|]. by apply elem_of_nil in H.
  - rewrite insert_emails_batch_cons. cbn [snd]. rewrite IH, insert_email_dom.
    rewrite fmap_cons, elem_of_cons. tauto.
Qed.

(** Records whose uids are all stored: the batch insert adds none and
    leaves the database as it is. *)
Lemma insert_emails_batch_known (es : list email_data) (c : conn) :
  Forall (fun e => uid e ∈ dom (emails c)) es -> insert_emails_batch c es = (0, c).
Proof.
  induction 1 as [|e es He _ IH]; [reflexivity|].
  rewrite insert_emails_batch_cons.
  apply elem_of_dom in He as [r Hr]. rewrite (insert_email_present c e r Hr).
  cbn [fst snd]. rewrite IH. reflexivity.
Qed.

Lemma parse_batch_spec (lib : email_lib) (items : list (Z * header_data)) (ls : loop_state) :
  db (parse_batch lib ls items) = db ls /\
  new_stored (st (parse_batch lib ls items)) = new_stored (st ls) /\
  batch_emails (parse_batch lib ls items) = batch_emails ls ++ parsed_records lib items.
Proof.
  revert ls. induction items as [|[u data] items IH]; intros ls; simpl.
  - by rewrite app_nil_r.
  - destruct (parse_headers lib (headers data) (size data) u) as [e|err].
    + destruct (IH {| fetched := fetched ls + 1;
                      batch_emails := batch_emails ls ++ [e];
                      st := st ls; db := db ls |}) as (-> & -> & ->).
      simpl. by rewrite <- app_assoc.
    + destruct (IH {| fetched := fetched ls;
                      batch_emails := batch_emails ls;
                      st := {| total_fetched := total_fetched (st ls);
                               new_stored := new_stored (st ls);
                               already_existed := already_existed (st ls);
                               errors := errors (st ls) + 1 |};
                      db := db ls |}) as (-> & -> & ->).
      auto.
Qed.

Lemma bind_parameters_uid (r : email_record) (e : email_data) :
  bind_parameters r = Return e -> uid e = record_uid r.
Proof.
  unfold bind_parameters. destruct (record_date_header r); [|discriminate].
  by intros [= <-].
Qed.

Lemma bind_all_uids (records : list email_record) (rows : list email_data) :
  bind_all records = Return rows -> uid <$> rows = record_uid <$> records.
Proof.
  revert rows. induction records as [|r records IH]; intros rows; cbn [bind_all].
  - by intros [= <-].
  - destruct (bind_parameters r) as [e|err] eqn:He; cbn [bind]; [|discriminate].
    destruct (bind_all records) as [rows'|err]; cbn [bind]; [|discriminate].
    intros [= <-].
    by rewrite !fmap_cons, (IH rows' eq_refl), (bind_parameters_uid r e He).
Qed.

(** [store_batch] raises exactly when a waiting record cannot be bound,
    and then nothing is stored; otherwise it inserts the bound rows. *)
Lemma store_batch_returns (ls : loop_state) (reset : bool) :
  match store_batch ls reset with
  | Raise _ => returns (bind_all (batch_emails ls)) = false
  | Return ls' =>
      exists rows : list email_data,
        bind_all (batch_emails ls) = Return rows /\
        uid <$> rows = record_uid <$> batch_emails ls /\
        db ls' = snd (insert_emails_batch (db ls) rows) /\
        batch_emails ls' = (if reset then [] else batch_emails ls) /\
        fetched ls' = fetched ls /\
        new_stored (st ls')
        = new_stored (st ls) + fst (insert_emails_batch (db ls) rows) /\
        already_existed (st ls')
        = already_existed (st ls)
          + (Z.of_nat (length (batch_emails ls)) - fst (insert_emails_batch (db ls) rows)) /\
        errors (st ls') = errors (st ls)
  end.
Proof.
  unfold store_batch, insert_records.
  destruct (bind_all (batch_emails ls)) as [rows|e] eqn:Hb; cbn [bind]; [|reflexivity].
  destruct (insert_emails_batch (db ls) rows) as [n d1] eqn:Hi.
  exists rows. cbn [db batch_emails fetched st new_stored already_existed errors fst snd].
  rewrite ?Hi. cbn [fst snd].
  split; [reflexivity|]. split; [by apply bind_all_uids|]. repeat split.
Qed.

Lemma store_batch_same (ls1 ls2 : loop_state) (reset : bool) :
  batch_emails ls1 = batch_emails ls2 ->
  returns (store_batch ls1 reset) = returns (store_batch ls2 reset).
Proof.
  intros He.
  pose proof (store_batch_returns ls1 reset) as H1.
  pose proof (store_batch_returns ls2 reset) as H2.
  rewrite He in H1.
  destruct (store_batch ls1 reset), (store_batch ls2 reset); cbn [returns]; try reflexivity.
  - destruct H1 as (rows & Hb & _). rewrite Hb in H2. discriminate.
  - destruct H2 as (rows & Hb & _). rewrite Hb in H1. discriminate.
Qed.

Lemma store_remaining_same (ls1 ls2 : loop_state) :
  batch_emails ls1 = batch_emails ls2 ->
  returns (store_remaining ls1) = returns (store_remaining ls2).
Proof.
  intros He. pose proof (store_batch_same ls1 ls2 false He) as Hs.
  unfold store_remaining. rewrite He.
  destruct (batch_emails ls2); [reflexivity | exact Hs].
Qed.

(** How [process_batch] leaves the loop variables: as [parse_batch] left
    them, or as the [store_batch] that returned left them. *)
Lemma process_batch_cases (lib : email_lib) (batch_size : Z)
  (cb : option (Z -> Z -> Z -> result unit)) (total : Z) (ls : loop_state)
  (bd : list (Z * header_data)) :
  snd (process_batch lib batch_size cb total ls bd) = parse_batch lib ls bd \/
  store_batch (parse_batch lib ls bd) true
  = Return (snd (process_batch lib batch_size cb total ls bd)).
Proof.
  unfold process_batch.
  destruct (_ >=? _).
  - destruct (store_batch (parse_batch lib ls bd) true) as [ls2|e]; [|by left].
    right. by destruct cb.
  - left. by destruct cb.
Qed.

Lemma store_batch_stores (ls ls' : loop_state) (reset : bool) (u : Z) :
  store_batch ls reset = Return ls' -> covered ls u -> u ∈ dom (emails (db ls')).
Proof.
  intros Hs Hc. pose proof (store_batch_returns ls reset) as H. rewrite Hs in H.
  destruct H as (rows & _ & Hu & -> & _).
  apply insert_emails_batch_dom. rewrite Hu. exact Hc.
Qed.

Lemma store_remaining_stores (ls ls' : loop_state) (u : Z) :
  store_remaining ls = Return ls' -> covered ls u -> u ∈ dom (emails (db ls')).
Proof.
  unfold store_remaining.
  destruct (batch_emails ls) as [|e es] eqn:Hb.
  - intros [= <-] [H | H]; [exact H|]. rewrite Hb in H. by apply elem_of_nil in H.
  - apply store_batch_stores.
Qed.

Lemma process_batch_covered (lib : email_lib) (batch_size : Z)
  (cb : option (Z -> Z -> Z -> result unit)) (total : Z) (ls : loop_state)
  (bd : list (Z * header_data)) (u : Z) :
  covered ls u \/ u ∈ record_uid <$> parsed_records lib bd ->
  covered (snd (process_batch lib batch_size cb total ls bd)) u.
Proof.
  intros H.
  assert (H1 : covered (parse_batch lib ls bd) u).
  { destruct (parse_batch_spec lib bd ls) as (Hdb & _ & Hbe).
    unfold covered. rewrite Hdb, Hbe, fmap_app, elem_of_app.
    unfold covered in H. tauto. }
  destruct (process_batch_cases lib batch_size cb total ls bd) as [-> | Hs]; [exact H1|].
  left. exact (store_batch_stores _ _ _ u Hs H1).
Qed.

(** Through the batch loop, a covered uid stays covered, however the loop
    ends. *)
Lemma fetch_loop_covered (srv : server) (lib : email_lib) (batch_size : Z)
  (cb : option (Z -> Z -> Z -> result unit)) (total : Z) (uids : list Z)
  (starts : list nat) (ls : loop_state) (c : client) (u : Z) :
  covered ls u ->
  covered (snd (fst (fetch_loop srv lib batch_size cb total uids starts ls c))) u.
Proof.
  revert ls c. induction starts as [|i starts IH]; intros ls c Hc; [exact Hc|].
  simpl. destruct (fetch_headers srv c (batch_uids uids batch_size i)) as [[bd|e] c1];
    [|exact Hc].
  pose proof (process_batch_covered lib batch_size cb total ls bd u (or_introl Hc)) as Hp.
  destruct (process_batch lib batch_size cb total ls bd) as [[[]|e] ls1];
    cbn [fst snd] in *; [|exact Hp].
  apply IH, Hp.
Qed.

Lemma store_batch_frame (ls ls' : loop_state) (reset : bool) :
  store_batch ls reset = Return ls' ->
  sync_state (db ls') = sync_state (db ls) /\ deleted_uids (db ls') = deleted_uids (db ls).
Proof.
  intros Hs. pose proof (store_batch_returns ls reset) as H. rewrite Hs in H.
  destruct H as (rows & _ & _ & -> & _). apply insert_emails_batch_frame.
Qed.

Lemma fetch_loop_frame (srv : server) (lib : email_lib) (batch_size : Z)
  (cb : option (Z -> Z -> Z -> result unit)) (total : Z) (uids : list Z)
  (starts : list nat) (ls : loop_state) (c : client) :
  let ls' := snd (fst (fetch_loop srv lib batch_size cb total uids starts ls c)) in
  sync_state (db ls') = sync_state (db ls) /\ deleted_uids (db ls') = deleted_uids (db ls).
Proof.
  revert ls c. induction starts as [|i starts IH]; intros ls c; [simpl; auto|].
  simpl. destruct (fetch_headers srv c (batch_uids uids batch_size i)) as [[bd|e] c1];
    [|simpl; auto].
  assert (Hp : sync_state (db (snd (process_batch lib batch_size cb total ls bd)))
               = sync_state (db ls) /\
               deleted_uids (db (snd (process_batch lib batch_size cb total ls bd)))
               = deleted_uids (db ls)).
  { destruct (parse_batch_spec lib bd ls) as (Hdb & _ & _).
    destruct (process_batch_cases lib batch_size cb total ls bd) as [-> | Hs].
    - by rewrite Hdb.
    - destruct (store_batch_frame _ _ _ Hs) as [-> ->]. by rewrite Hdb. }
  destruct (process_batch lib batch_size cb total ls bd) as [[[]|e] ls1];
    cbn [fst snd] in *; [|exact Hp].
  destruct (IH ls1 c1) as [-> ->]. exact Hp.
Qed.

Lemma store_remaining_frame (ls ls' : loop_state) :
  store_remaining ls = Return ls' ->
  sync_state (db ls') = sync_state (db ls) /\ deleted_uids (db ls') = deleted_uids (db ls).
Proof.
  unfold store_remaining. destruct (batch_emails ls); [by intros [= <-]|].
  apply store_batch_frame.
Qed.

Lemma store_batch_settled (d : conn) (ls ls' : loop_state) (reset : bool) :
  settled d ls -> store_batch ls reset = Return ls' -> settled d ls'.
Proof.
  intros (Hdb & Hnew & Hall) Hs.
  pose proof (store_batch_returns ls reset) as H. rewrite Hs in H.
  destruct H as (rows & _ & Hu & Hdb' & Hbe & _ & Hnew' & _).
  assert (Hrows : Forall (fun e => uid e ∈ dom (emails d)) rows).
  { apply Forall_forall. intros e He.
    assert (Hin : uid e ∈ record_uid <$> batch_emails ls).
    { rewrite <- Hu. by apply list_elem_of_fmap_2. }
    apply list_elem_of_fmap in Hin as (r & -> & Hr).
    rewrite Forall_forall in Hall. by apply Hall. }
  rewrite Hdb, (insert_emails_batch_known _ _ Hrows) in Hdb', Hnew'. cbn [fst snd] in *.
  unfold settled. rewrite Hdb', Hnew', Hbe.
  split; [reflexivity|]. split; [lia|]. destruct reset; [constructor | exact Hall].
Qed.

Lemma store_remaining_settled (d : conn) (ls ls' : loop_state) :
  settled d ls -> store_remaining ls = Return ls' -> settled d ls'.
Proof.
  intros H. unfold store_remaining. destruct (batch_emails ls); [by intros [= <-]|].
  by apply store_batch_settled.
Qed.

Lemma process_batch_settled (lib : email_lib) (batch_size : Z)
  (cb : option (Z -> Z -> Z -> result unit)) (total : Z) (d : conn) (ls : loop_state)
  (bd : list (Z * header_data)) :
  settled d ls ->
  Forall (fun e => record_uid e ∈ dom (emails d)) (parsed_records lib bd) ->
  settled d (snd (process_batch lib batch_size cb total ls bd)).
Proof.
  intros (Hdb & Hnew & Hall) Hbd.
  assert (H1 : settled d (parse_batch lib ls bd)).
  { destruct (parse_batch_spec lib bd ls) as (Hdb' & Hnew' & Hbe).
    unfold settled. rewrite Hdb', Hnew', Hbe. repeat split; auto.
    apply Forall_app. auto. }
  destruct (process_batch_cases lib batch_size cb total ls bd) as [-> | Hs]; [exact H1|].
  exact (store_batch_settled d _ _ true H1 Hs).
Qed.

(** The loop of a first run that came to its end, and the loop of a second
    run over the same slices from the same connection state: when all that
    the first loop covered is stored in [d], the second writes nothing. *)
Lemma fetch_loop_second (srv : server) (lib : email_lib) (batch_size : Z)
  (cb : option (Z -> Z -> Z -> result unit)) (total : Z) (uids : list Z) (d : conn)
  (starts : list nat) (ls1 ls2 : loop_state) (c : client) (ls1' : loop_state) (c' : client) :
  fetch_loop srv lib batch_size cb total uids starts ls1 c = (None, ls1', c') ->
  (forall u, covered ls1' u -> u ∈ dom (emails d)) ->
  settled d ls2 ->
  settled d (snd (fst (fetch_loop srv lib batch_size cb total uids starts ls2 c))).
Proof.
  revert ls1 ls2 c. induction starts as [|i starts IH]; intros ls1 ls2 c Hrun Hcov Hs;
    [exact Hs|].
  simpl in *.
  destruct (fetch_headers srv c (batch_uids uids batch_size i)) as [[bd|e] c1];
    [|discriminate].
  assert (Hbd : Forall (fun e => record_uid e ∈ dom (emails d)) (parsed_records lib bd)).
  { apply Forall_forall. intros e He. apply Hcov.
    pose proof (process_batch_covered lib batch_size cb total ls1 bd (record_uid e)
                  (or_intror (list_elem_of_fmap_2 record_uid _ _ He))) as Hp.
    destruct (process_batch lib batch_size cb total ls1 bd) as [[[]|err] ls1a];
      [|discriminate].
    cbn [fst snd] in Hp.
    pose proof (fetch_loop_covered srv lib batch_size cb total uids starts ls1a c1
                  (record_uid e) Hp) as Hl.
    rewrite Hrun in Hl. exact Hl. }
  pose proof (process_batch_settled lib batch_size cb total d ls2 bd Hs Hbd) as Hs2.
  destruct (process_batch lib batch_size cb total ls1 bd) as [[[]|err] ls1a];
    [|discriminate].
  destruct (process_batch lib batch_size cb total ls2 bd) as [[[]|err] ls2a];
    cbn [fst snd] in *; [|exact Hs2].
  exact (IH ls1a ls2a c1 Hrun Hcov Hs2).
Qed.

Lemma fold_left_max_spec (l : list Z) (x : Z) :
  (fold_left Z.max l x = x \/ fold_left Z.max l x ∈ l) /\
  x <= fold_left Z.max l x /\
  (forall y, y ∈ l -> y <= fold_left Z.max l x).
Proof.
  revert x. induction l as [|a l IH]; intros x; simpl.
  - split; [auto|]. split; [lia|]. intros y Hy. by apply elem_of_nil in Hy.
  - destruct (IH (Z.max x a)) as (Hin & Hge & Hall). split; [|split].
    + destruct Hin as [Heq | Hin].
      * rewrite Heq. destruct (Z.max_spec x a) as [[_ ->] | [_ ->]];
          [right; apply elem_of_cons|left]; auto.
      * right. apply elem_of_cons. auto.
    + lia.
    + intros y Hy. apply elem_of_cons in Hy as [-> | Hy]; [lia | auto].
Qed.

Lemma max_spec (l : list Z) (m : Z) :
  max l = Return m -> m ∈ l /\ (forall y, y ∈ l -> y <= m).
Proof.
  destruct l as [|x l]; [discriminate|]. simpl. intros [= <-].
  destruct (fold_left_max_spec l x) as (Hin & Hge & Hall). split.
  - apply elem_of_cons. destruct Hin; auto.
  - intros y Hy. apply elem_of_cons in Hy as [-> | Hy]; auto.
Qed.

Lemma enumerate_eq (srv : server) (c : client) (incremental : bool) (d : conn) :
  enumerate srv c incremental d
  = (all_uids <- fst (search_all srv c) ;;
     Return (select_uids incremental (last_uid (get_sync_state d)) all_uids),
     snd (search_all srv c)).
Proof.
  unfold enumerate, search_since_uid, select_uids.
  destruct incremental; simpl.
  - destruct (last_uid (get_sync_state d) >? 0);
      destruct (search_all srv c) as [[all_uids|e] c1]; reflexivity.
  - destruct (search_all srv c) as [[all_uids|e] c1]; reflexivity.
Qed.

Lemma drop_deleted_same (d d' : conn) (uids : list Z) :
  deleted_uids d' = deleted_uids d -> drop_deleted d' uids = drop_deleted d uids.
Proof. intros H. unfold drop_deleted, get_deleted_uids. rewrite H. reflexivity. Qed.

Lemma sync_uids_nil (srv : server) (lib : email_lib) (batch_size : Z)
  (cb : option (Z -> Z -> Z -> result unit)) (d : conn) (c : client) :
  sync_uids srv lib batch_size cb d c [] = (Return zero_stats, d, c).
Proof. reflexivity. Qed.

(** What a run that returns on a non-empty list has done: the loop came to
    its end, the remaining emails were stored, and the cursor was set to
    the maximum of the list. *)
Lemma sync_uids_returns (srv : server) (lib : email_lib) (batch_size : Z)
  (cb : option (Z -> Z -> Z -> result unit)) (d : conn) (c : client) (uids : list Z)
  (s : stats) (d' : conn) (c' : client) :
  uids <> [] ->
  sync_uids srv lib batch_size cb d c uids = (Return s, d', c') ->
  exists (starts : list nat) (ls : loop_state) (c2 : client) (m n : Z) (ls1 : loop_state),
    batch_starts uids batch_size = Return starts /\
    fetch_loop srv lib batch_size cb (Z.of_nat (length uids)) uids starts
      {| fetched := 0; batch_emails := []; st := zero_stats; db := d |} c
    = (None, ls, c2) /\
    store_remaining ls = Return ls1 /\
    max uids = Return m /\
    get_uidnext srv c2 = (Return n, c') /\
    s = final_stats ls1 /\
    d' = update_sync_state (db ls1) m n.
Proof.
  intros Hne. unfold sync_uids.
  destruct uids as [|u uids]; [done|].
  change (Z.of_nat (length (u :: uids)) =? 0) with false. cbv iota.
  destruct (batch_starts (u :: uids) batch_size) as [starts|e] eqn:Hst; [|intros [=]].
  destruct (fetch_loop _ _ _ _ _ _ _ _ _) as [[[e|] ls] c2] eqn:Hloop; [intros [=]|].
  destruct (store_remaining ls) as [ls1|e] eqn:Hrem; [|intros [=]].
  destruct (max (u :: uids)) as [m|e] eqn:Hmax; [|intros [=]].
  destruct (get_uidnext srv c2) as [[n|e] c3] eqn:Hnext; [|intros [=]].
  intros [= <- <- <-]. exists starts, ls, c2, m, n, ls1. repeat split; auto.
Qed.

(** Without a progress callback, a loop that came to its end comes to its
    end again from the same connection state and with the same waiting
    records, whatever its other variables. *)
Lemma fetch_loop_completes (srv : server) (lib : email_lib) (batch_size : Z) (total : Z)
  (uids : list Z) (starts : list nat) (ls1 ls2 : loop_state) (c : client)
  (ls1' : loop_state) (c' : client) :
  batch_emails ls1 = batch_emails ls2 ->
  fetch_loop srv lib batch_size None total uids starts ls1 c = (None, ls1', c') ->
  exists ls2',
    fetch_loop srv lib batch_size None total uids starts ls2 c = (None, ls2', c') /\
    batch_emails ls2' = batch_emails ls1'.
Proof.
  revert ls1 ls2 c. induction starts as [|i starts IH]; intros ls1 ls2 c He Hrun;
    simpl in *.
  - injection Hrun as <- <-. eauto.
  - destruct (fetch_headers srv c (batch_uids uids batch_size i)) as [[bd|e] c1];
      [|discriminate].
    destruct (parse_batch_spec lib bd ls1) as (_ & _ & Hb1).
    destruct (parse_batch_spec lib bd ls2) as (_ & _ & Hb2).
    assert (Hb : batch_emails (parse_batch lib ls1 bd) = batch_emails (parse_batch lib ls2 bd))
      by (by rewrite Hb1, Hb2, He).
    unfold process_batch in *. rewrite <- Hb.
    destruct (_ >=? _).
    + pose proof (store_batch_same _ _ true Hb) as Hsame.
      pose proof (store_batch_returns (parse_batch lib ls1 bd) true) as H1.
      pose proof (store_batch_returns (parse_batch lib ls2 bd) true) as H2.
      destruct (store_batch (parse_batch lib ls1 bd) true) as [ls1a|e]; [|discriminate].
      destruct (store_batch (parse_batch lib ls2 bd) true) as [ls2a|e]; [|discriminate].
      destruct H1 as (_ & _ & _ & _ & Hbe1 & _). destruct H2 as (_ & _ & _ & _ & Hbe2 & _).
      eapply IH; [|exact Hrun]. by rewrite Hbe1, Hbe2.
    + eapply IH; [|exact Hrun]. exact Hb.
Qed.

(** The second run over the same list, from the database the first run
    left and from the same connection state. *)
Lemma sync_uids_second (srv : server) (lib : email_lib) (batch_size : Z)
  (cb : option (Z -> Z -> Z -> result unit)) (d d1 : conn) (c : client) (uids : list Z)
  (s1 : stats) (c' : client) :
  uids <> [] -> is_Some (sync_state d) ->
  sync_uids srv lib batch_size cb d c uids = (Return s1, d1, c') ->
  let run2 := sync_uids srv lib batch_size cb d1 c uids in
  emails (snd (fst run2)) = emails d1 /\
  last_uid (get_sync_state (snd (fst run2))) = last_uid (get_sync_state d1) /\
  match fst (fst run2) with
  | Return s2 => new_stored s2 = 0
  | Raise _ => True
  end /\
  (cb = None -> returns (fst (fst run2)) = true).
Proof.
  intros Hne Hsome Hrun.
  destruct (sync_uids_returns _ _ _ _ _ _ _ _ _ _ Hne Hrun)
    as (starts & ls & c2 & m & n & lsr & Hst & Hloop & Hrem & Hmax & Hnext & -> & ->).
  pose proof (fetch_loop_frame srv lib batch_size cb (Z.of_nat (length uids)) uids starts
                {| fetched := 0; batch_emails := []; st := zero_stats; db := d |} c) as Hfr.
  rewrite Hloop in Hfr. cbn [fst snd db] in Hfr. destruct Hfr as [Hss _].
  destruct (store_remaining_frame ls lsr Hrem) as [Hss' _].
  assert (Hrow : is_Some (sync_state (db lsr))) by (by rewrite Hss', Hss).
  destruct Hrow as [row Hrow].
  set (d1 := update_sync_state (db lsr) m n) in *.
  assert (Hcur : last_uid (get_sync_state d1) = m).
  { subst d1. by rewrite (update_sync_state_cursor _ row m n Hrow). }
  assert (Hem : emails d1 = emails (db lsr)).
  { subst d1. apply update_sync_state_frame. }
  assert (Hrow1 : is_Some (sync_state d1)).
  { subst d1. unfold update_sync_state. rewrite Hrow. eauto. }
  assert (Hcov : forall u, covered ls u -> u ∈ dom (emails d1)).
  { intros u Hu. rewrite Hem. by eapply store_remaining_stores. }
  assert (Hs0 : settled d1 {| fetched := 0; batch_emails := []; st := zero_stats; db := d1 |}).
  { unfold settled. simpl. auto. }
  pose proof (fetch_loop_second srv lib batch_size cb (Z.of_nat (length uids)) uids d1
                starts _ _ c ls c2 Hloop Hcov Hs0) as Hs2.
  assert (Hcomp : cb = None ->
            exists ls2', fetch_loop srv lib batch_size cb (Z.of_nat (length uids)) uids
                           starts {| fetched := 0; batch_emails := []; st := zero_stats;
                                     db := d1 |} c = (None, ls2', c2) /\
                         batch_emails ls2' = batch_emails ls).
  { intros ->. eapply fetch_loop_completes; [|exact Hloop]. reflexivity. }
  intros run2. subst run2. unfold sync_uids.
  destruct uids as [|u uids]; [done|].
  change (Z.of_nat (length (u :: uids)) =? 0) with false. cbv iota.
  rewrite Hst.
  destruct (fetch_loop srv lib batch_size cb (Z.of_nat (length (u :: uids))) (u :: uids)
              starts {| fetched := 0; batch_emails := []; st := zero_stats; db := d1 |} c)
    as [[[e|] ls2] c2'].
  - cbn [fst snd] in *. destruct Hs2 as (-> & _ & _).
    repeat split; auto. intros Hcb. destruct (Hcomp Hcb) as (? & [=] & _).
  - cbn [fst snd] in Hs2.
    assert (Hret2 : cb = None -> returns (store_remaining ls2) = true).
    { intros Hcb. destruct (Hcomp Hcb) as (ls2' & [= <- _] & Hbe).
      by rewrite (store_remaining_same ls2 ls Hbe), Hrem. }
    pose proof (store_remaining_settled d1 ls2) as Hset.
    destruct (store_remaining ls2) as [ls2r|e].
    + destruct (Hset ls2r Hs2 eq_refl) as (Hdb & Hnew & _). rewrite Hmax.
      assert (Hnext' : cb = None -> get_uidnext srv c2' = (Return n, c')).
      { intros Hcb. destruct (Hcomp Hcb) as (? & [= _ <-] & _). exact Hnext. }
      destruct (get_uidnext srv c2') as [[n'|e] c3']; cbn [fst snd]; rewrite Hdb.
      * destruct Hrow1 as [row1 Hrow1].
        rewrite (update_sync_state_cursor _ row1 m n' Hrow1). simpl.
        split; [apply update_sync_state_frame|]. split; [by rewrite Hcur|].
        split; [exact Hnew | reflexivity].
      * repeat split; auto. intros Hcb. by specialize (Hnext' Hcb).
    + cbn [fst snd]. destruct Hs2 as (-> & _ & _).
      repeat split; auto.
Qed.

Lemma init_db_some (d : conn) : is_Some (sync_state (init_db d)).
Proof. unfold init_db. destruct (sync_state d) eqn:H; simpl; rewrite ?H; eauto. Qed.

Lemma init_db_idem (d : conn) : is_Some (sync_state d) -> init_db d = d.
Proof. intros [row H]. unfold init_db. by rewrite H. Qed.

(** The block of a second run, from the database the first run left and
    from the same connection state. *)
Lemma fetch_all_session_second (srv : server) (lib : email_lib) (batch_size : Z)
  (cb : option (Z -> Z -> Z -> result unit)) (incremental : bool) (d d1 : conn)
  (c : client) (s1 : stats) (c' : client) :
  is_Some (sync_state d) ->
  fetch_all_session srv lib batch_size cb incremental d c = (Return s1, d1, c') ->
  let run2 := fetch_all_session srv lib batch_size cb incremental d1 c in
  is_Some (sync_state d1) /\
  emails (snd (fst run2)) = emails d1 /\
  last_uid (get_sync_state (snd (fst run2))) = last_uid (get_sync_state d1) /\
  match fst (fst run2) with
  | Return s2 => new_stored s2 = 0
  | Raise _ => True
  end /\
  (cb = None -> returns (fst (fst run2)) = true).
Proof.
  intros Hsome Hrun run2. subst run2. unfold fetch_all_session in *.
  rewrite enumerate_eq in *.
  destruct (search_all srv c) as [[all_uids|e] c1]; cbn [fst snd bind] in *;
    [|discriminate].
  set (last0 := last_uid (get_sync_state d)) in *.
  destruct (drop_deleted d (select_uids incremental last0 all_uids)) as [|u0 uids0] eqn:Hu.
  - (* nothing to fetch: the first run changed nothing *)
    rewrite sync_uids_nil in Hrun. injection Hrun as <- <- <-.
    fold last0. rewrite Hu, sync_uids_nil. simpl. auto 6.
  - assert (Hne : u0 :: uids0 <> []) by done.
    pose proof (sync_uids_second srv lib batch_size cb d d1 c1 _ s1 c' Hne Hsome Hrun)
      as Hsecond.
    destruct (sync_uids_returns _ _ _ _ _ _ _ _ _ _ Hne Hrun)
      as (starts & ls & c2 & m & n & lsr & Hst & Hloop & Hrem & Hmax & Hnext & -> & Hd1).
    pose proof (fetch_loop_frame srv lib batch_size cb (Z.of_nat (length (u0 :: uids0)))
                  (u0 :: uids0) starts
                  {| fetched := 0; batch_emails := []; st := zero_stats; db := d |} c1) as Hfr.
    rewrite Hloop in Hfr. cbn [fst snd db] in Hfr. destruct Hfr as [Hss Hdel].
    destruct (store_remaining_frame ls lsr Hrem) as [Hss' Hdel'].
    assert (Hrow : is_Some (sync_state (db lsr))) by (by rewrite Hss', Hss).
    destruct Hrow as [row Hrow].
    assert (Hcur : last_uid (get_sync_state d1) = m).
    { subst d1. by rewrite (update_sync_state_cursor _ row m n Hrow). }
    assert (Hdel1 : deleted_uids d1 = deleted_uids d).
    { subst d1. destruct (update_sync_state_frame (db lsr) m n) as [_ ->].
      by rewrite Hdel', Hdel. }
    assert (Hrow1 : is_Some (sync_state d1)).
    { subst d1. unfold update_sync_state. rewrite Hrow. eauto. }
    split; [exact Hrow1|].
    rewrite Hcur, (drop_deleted_same d d1 _ Hdel1).
    destruct (max_spec _ _ Hmax) as [Hm_in Hm_max].
    assert (Hm_sel : m ∈ select_uids incremental last0 all_uids).
    { rewrite <- Hu in Hm_in. unfold drop_deleted in Hm_in.
      by apply list_elem_of_filter in Hm_in as [_ ?]. }
    destruct (incremental && (m >? 0))%bool eqn:Hcase.
    + (* incremental, above a positive cursor: nothing is left to fetch *)
      assert (Hnil : drop_deleted d (select_uids incremental m all_uids) = []).
      { apply elem_of_nil_inv. intros x Hx. unfold drop_deleted in Hx.
        apply list_elem_of_filter in Hx as [Hnd Hx].
        unfold select_uids in Hx. rewrite Hcase in Hx.
        apply list_elem_of_filter in Hx as [Hgt Hx].
        assert (Hx1 : x ∈ select_uids incremental last0 all_uids).
        { unfold select_uids in *. destruct (incremental && (last0 >? 0))%bool; [|exact Hx].
          apply list_elem_of_filter in Hm_sel as [Hlast _].
          apply list_elem_of_filter. split; [lia | exact Hx]. }
        assert (Hx2 : x ∈ u0 :: uids0).
        { rewrite <- Hu. unfold drop_deleted. apply list_elem_of_filter. auto. }
        specialize (Hm_max x Hx2). lia. }
      rewrite Hnil, sync_uids_nil. simpl. auto 6.
    + (* the same list is enumerated again *)
      assert (Hsame : select_uids incremental m all_uids
                      = select_uids incremental last0 all_uids).
      { unfold select_uids in *. rewrite Hcase.
        destruct (incremental && (last0 >? 0))%bool eqn:Hcase0; [|reflexivity].
        apply list_elem_of_filter in Hm_sel as [Hlast _].
        apply andb_true_iff in Hcase0 as [-> Hpos]. simpl in Hcase.
        apply Z.gtb_lt in Hpos. rewrite Z.gtb_ltb in Hcase.
        apply Z.ltb_ge in Hcase. lia. }
      rewrite Hsame, Hu, <- Hcur. exact Hsecond.
Qed.

(** C7: when a run of [fetch_all] has returned, a second run with the same
    arguments against the same server leaves the stored records as they
    are (it inserts none), reports [new_stored = 0] when it returns, and
    leaves the cursor [last_uid] where the first run put it; without a
    progress callback the second run returns too. *)
Theorem second_sync_adds_nothing (srv : server) (lib : email_lib)
  (getenv : str -> option str) (batch_size : Z)
  (progress_callback : option (Z -> Z -> Z -> result unit)) (incremental : bool)
  (d : conn) (s1 : stats) :
  let run1 := fetch_all srv lib getenv batch_size progress_callback incremental d in
  let d1 := snd (fst run1) in
  let run2 := fetch_all srv lib getenv batch_size progress_callback incremental d1 in
  fst (fst run1) = Return s1 ->
  emails (snd (fst run2)) = emails d1 /\
  last_uid (get_sync_state (snd (fst run2))) = last_uid (get_sync_state d1) /\
  match fst (fst run2) with
  | Return s2 => new_stored s2 = 0
  | Raise _ => True
  end /\
  (progress_callback = None -> returns (fst (fst run2)) = true).
Proof.
  intros run1 d1 run2 Hret. subst run2 d1 run1. unfold fetch_all in *.
  destruct (load_config_from_env getenv) as [config|e]; [|discriminate].
  destruct (connect srv new_client) as [[[]|e] c]; [|discriminate].
  destruct (fetch_all_session srv lib batch_size progress_callback incremental
              (init_db d) c) as [[r d1] c1] eqn:Hrun.
  cbn [fst snd] in *. subst r.
  destruct (fetch_all_session_second srv lib batch_size progress_callback incremental
              (init_db d) d1 c s1 c1 (init_db_some d) Hrun) as (Hsome & H).
  rewrite (init_db_idem d1 Hsome).
  destruct (fetch_all_session srv lib batch_size progress_callback incremental d1 c)
    as [[r2 d2] c2]. exact H.
Qed.

Lemma second_sync_adds_nothing_witness :
  let srv := mailbox_server three_listed_two_fetched in
  let run1 := fetch_all srv plain_lib credentials 2 None false empty_db in
  let d1 := snd (fst run1) in
  let run2 := fetch_all srv plain_lib credentials 2 None false d1 in
  emails (snd (fst run2)) = emails d1 /\
  last_uid (get_sync_state (snd (fst run2))) = last_uid (get_sync_state d1) /\
  match fst (fst run2) with
  | Return s2 => new_stored s2 = 0
  | Raise _ => True
  end /\
  (@None (Z -> Z -> Z -> result unit) = None -> returns (fst (fst run2)) = true).
Proof.
  apply (second_sync_adds_nothing (mailbox_server three_listed_two_fetched) plain_lib
           credentials 2 None false empty_db
           {| total_fetched := 2; new_stored := 2; already_existed := 0; errors := 0 |}).
  reflexivity.
Defined.

(** ** The sync run: the cursor and what was stored *)

(** A run that returns on a non-empty list sets the cursor to the maximum
    of the list it enumerated, whatever it stored. *)
Lemma sync_uids_cursor (srv : server) (lib : email_lib) (batch_size : Z)
  (cb : option (Z -> Z -> Z -> result unit)) (d : conn) (c : client) (uids : list Z)
  (s : stats) (d' : conn) (c' : client) :
  uids <> [] -> is_Some (sync_state d) ->
  sync_uids srv lib batch_size cb d c uids = (Return s, d', c') ->
  max uids = Return (last_uid (get_sync_state d')).
Proof.
  intros Hne Hsome Hrun.
  destruct (sync_uids_returns _ _ _ _ _ _ _ _ _ _ Hne Hrun)
    as (starts & ls & c2 & m & n & lsr & Hst & Hloop & Hrem & Hmax & Hnext & -> & ->).
  pose proof (fetch_loop_frame srv lib batch_size cb (Z.of_nat (length uids)) uids starts
                {| fetched := 0; batch_emails := []; st := zero_stats; db := d |} c) as Hfr.
  rewrite Hloop in Hfr. cbn [fst snd db] in Hfr. destruct Hfr as [Hss _].
  destruct (store_remaining_frame ls lsr Hrem) as [Hss' _].
  assert (Hrow : is_Some (sync_state (db lsr))) by (by rewrite Hss', Hss).
  destruct Hrow as [row Hrow].
  by rewrite (update_sync_state_cursor _ row m n Hrow).
Qed.

(** C1 at the failing input: the first sync of a mailbox that lists 10, 20
    and 30 and whose FETCH reply has no item for 30.  The run returns with
    two records stored, 30 is not stored, and the cursor is at 30; the next
    incremental run sends no FETCH, so 30 is never stored. *)
Theorem fetch_all_cursor_passes_unstored_uid :
  let srv := mailbox_server three_listed_two_fetched in
  let run1 := fetch_all srv plain_lib credentials 100 None true empty_db in
  let d1 := snd (fst run1) in
  let run2 := fetch_all srv plain_lib credentials 100 None true d1 in
  fst (fst run1)
  = Return {| total_fetched := 2; new_stored := 2; already_existed := 0; errors := 0 |} /\
  sent (snd run1)
  = [LOGOUT; CLOSE; STATUS_UIDNEXT; UID_FETCH [10; 20; 30]; UID_SEARCH_ALL; EXAMINE; LOGIN] /\
  fst <$> map_to_list (emails d1) = [10; 20] /\
  emails d1 !! 30 = None /\
  last_uid (get_sync_state d1) = 30 /\
  fst (fst run2) = Return zero_stats /\
  sent (snd run2) = [LOGOUT; CLOSE; UID_SEARCH_ALL; EXAMINE; LOGIN] /\
  emails (snd (fst run2)) !! 30 = None.
Proof. vm_compute. repeat split; reflexivity. Qed.

(** * Further properties of the code *)

(** ** db.py: schema initialisation, batch insert and tombstones *)

Lemma init_db_is_safe_to_repeat_aux (d : conn) :
  emails (init_db d) = emails d /\
  deleted_uids (init_db d) = deleted_uids d /\
  get_sync_state (init_db d) = get_sync_state d.
Proof.
  unfold init_db, get_sync_state.
  destruct (sync_state d) as [row|] eqn:H; simpl; rewrite ?H; auto.
Qed.

(** X1: [init_db] may be called any number of times: a second call changes
    nothing, no call touches a record or a tombstone, and what
    [get_sync_state] reports is the same before and after, so an existing
    cursor is never reset. *)
Theorem init_db_is_safe_to_repeat (d : conn) :
  init_db (init_db d) = init_db d /\
  emails (init_db d) = emails d /\
  deleted_uids (init_db d) = deleted_uids d /\
  get_sync_state (init_db d) = get_sync_state d /\
  sync_state (init_db d) = Some (get_sync_state d).
Proof.
  unfold init_db, get_sync_state.
  destruct (sync_state d) as [row|] eqn:H; simpl; rewrite ?H; auto.
Qed.

Lemma insert_email_size (c : conn) (e : email_data) :
  base.size (emails (snd (insert_email c e)))
  = (base.size (emails c) + if fst (insert_email c e) then 1 else 0)%nat.
Proof.
  unfold insert_email. destruct (emails c !! uid e) eqn:H; simpl; [lia|].
  rewrite map_size_insert_None by exact H. lia.
Qed.

Lemma insert_emails_batch_size (es : list email_data) (c : conn) :
  get_email_count (snd (insert_emails_batch c es))
  = get_email_count c + fst (insert_emails_batch c es) /\
  0 <= fst (insert_emails_batch c es) <= Z.of_nat (length es).
Proof.
  revert c. induction es as [|e es IH]; intros c.
  - simpl. unfold get_email_count. lia.
  - rewrite insert_emails_batch_cons. cbn [fst snd length].
    destruct (IH (snd (insert_email c e))) as (Hcount & Hrange).
    pose proof (insert_email_size c e) as Hsize.
    unfold get_email_count in *.
    destruct (fst (insert_email c e)); lia.
Qed.

Lemma insert_emails_batch_keeps (es : list email_data) (c : conn) (u : Z) (row : email_row) :
  emails c !! u = Some row -> emails (snd (insert_emails_batch c es)) !! u = Some row.
Proof.
  revert c. induction es as [|e es IH]; intros c Hu; [exact Hu|].
  rewrite insert_emails_batch_cons. cbn [snd]. apply IH. by apply insert_email_keeps.
Qed.

(** X2: [insert_emails_batch]: the count it returns is the number of rows the
    table has gained, it lies between 0 and the number of records given,
    and every row that was stored before is still there unchanged. *)
Theorem insert_emails_batch_counts_new_rows (c : conn) (es : list email_data) :
  get_email_count (snd (insert_emails_batch c es))
  = get_email_count c + fst (insert_emails_batch c es) /\
  0 <= fst (insert_emails_batch c es) <= Z.of_nat (length es) /\
  (forall u row, emails c !! u = Some row ->
     emails (snd (insert_emails_batch c es)) !! u = Some row).
Proof.
  destruct (insert_emails_batch_size es c) as [Hcount Hrange].
  split; [exact Hcount|]. split; [exact Hrange|].
  intros u row. apply insert_emails_batch_keeps.
Qed.

Lemma insert_deleted_uid_frame (c : conn) (u : Z) :
  emails (insert_deleted_uid c u) = emails c /\
  sync_state (insert_deleted_uid c u) = sync_state c /\
  dom (deleted_uids (insert_deleted_uid c u)) = dom (deleted_uids c) ∪ {[u]}.
Proof.
  unfold insert_deleted_uid. destruct (deleted_uids c !! u) as [t|] eqn:H; simpl.
  - repeat split. apply set_eq. intros x.
    rewrite elem_of_union, elem_of_singleton. split; [auto|].
    intros [Hx | ->]; [exact Hx|]. apply elem_of_dom. eauto.
  - repeat split. rewrite dom_insert_L. apply set_eq. intros x.
    rewrite !elem_of_union, elem_of_singleton. tauto.
Qed.

Lemma insert_deleted_uids_frame (uids : list Z) (c : conn) :
  emails (fold_left insert_deleted_uid uids c) = emails c /\
  sync_state (fold_left insert_deleted_uid uids c) = sync_state c /\
  dom (deleted_uids (fold_left insert_deleted_uid uids c))
  = dom (deleted_uids c) ∪ list_to_set uids.
Proof.
  revert c. induction uids as [|u uids IH]; intros c; simpl.
  - repeat split. apply set_eq. intros x. rewrite elem_of_union, elem_of_empty. tauto.
  - destruct (IH (insert_deleted_uid c u)) as (-> & -> & ->).
    destruct (insert_deleted_uid_frame c u) as (-> & -> & ->).
    repeat split. apply set_eq. intros x.
    rewrite !elem_of_union, elem_of_singleton. tauto.
Qed.

Lemma delete_emails_frame (uids : list Z) (c : conn) :
  sync_state (fold_left delete_email uids c) = sync_state c /\
  deleted_uids (fold_left delete_email uids c) = deleted_uids c /\
  clock (fold_left delete_email uids c) = clock c /\
  (forall u, u ∈ uids -> emails (fold_left delete_email uids c) !! u = None) /\
  (forall u, u ∉ uids -> emails (fold_left delete_email uids c) !! u = emails c !! u) /\
  (forall u, emails c !! u = None -> emails (fold_left delete_email uids c) !! u = None).
Proof.
  revert c. induction uids as [|u0 uids IH]; intros c; simpl.
  - repeat split; auto. intros u Hu. by apply elem_of_nil in Hu.
  - destruct (IH (delete_email c u0)) as (-> & -> & -> & Hin & Hout & Hnone).
    repeat split.
    + intros u Hu. destruct (decide (u ∈ uids)) as [Hi | Hni]; [by apply Hin|].
      apply elem_of_cons in Hu as [-> | Hu]; [|done].
      apply Hnone. simpl. apply lookup_delete_eq.
    + intros u Hu. apply not_elem_of_cons in Hu as [Hne Hu].
      rewrite (Hout u Hu). simpl. by apply lookup_delete_ne.
    + intros u Hu. apply Hnone. simpl.
      destruct (decide (u0 = u)) as [-> | Hne];
        [apply lookup_delete_eq | by rewrite lookup_delete_ne].
Qed.

Lemma mark_deleted_effect (c : conn) (uids : list Z) :
  get_deleted_uids (mark_deleted c uids) = get_deleted_uids c ∪ list_to_set uids /\
  (forall u, u ∈ uids -> emails (mark_deleted c uids) !! u = None) /\
  (forall u, u ∉ uids -> emails (mark_deleted c uids) !! u = emails c !! u) /\
  sync_state (mark_deleted c uids) = sync_state c.
Proof.
  unfold mark_deleted, get_deleted_uids.
  destruct (delete_emails_frame uids (fold_left insert_deleted_uid uids c))
    as (-> & -> & _ & Hin & Hout & _).
  destruct (insert_deleted_uids_frame uids c) as (Hem & -> & ->).
  repeat split; auto. intros u Hu. rewrite (Hout u Hu), Hem. reflexivity.
Qed.

Lemma insert_deleted_uids_known (uids : list Z) (c : conn) :
  Forall (fun u => u ∈ dom (deleted_uids c)) uids ->
  fold_left insert_deleted_uid uids c = c.
Proof.
  induction 1 as [|u uids Hu _ IH]; [reflexivity|]. simpl.
  apply elem_of_dom in Hu as [t Ht].
  unfold insert_deleted_uid at 2. rewrite Ht. exact IH.
Qed.

Lemma delete_emails_absent (uids : list Z) (c : conn) :
  Forall (fun u => emails c !! u = None) uids -> fold_left delete_email uids c = c.
Proof.
  induction 1 as [|u uids Hu _ IH]; [reflexivity|]. simpl.
  assert (Hc : delete_email c u = c).
  { unfold delete_email. rewrite (delete_id _ _ Hu). by destruct c. }
  rewrite Hc. exact IH.
Qed.

Lemma mark_deleted_idem (c : conn) (uids : list Z) :
  mark_deleted (mark_deleted c uids) uids = mark_deleted c uids.
Proof.
  unfold mark_deleted at 1.
  destruct (delete_emails_frame uids (fold_left insert_deleted_uid uids c))
    as (_ & Hdel & _ & Hin & _ & _).
  destruct (insert_deleted_uids_frame uids c) as (_ & _ & Hdom).
  rewrite insert_deleted_uids_known.
  - apply delete_emails_absent. apply Forall_forall. exact Hin.
  - apply Forall_forall. intros u Hu. unfold mark_deleted. rewrite Hdel, Hdom.
    apply elem_of_union_r, elem_of_list_to_set, Hu.
Qed.

(** X3: [mark_deleted]: afterwards the tombstones are the old ones and the
    given uids, no record with a given uid is stored, the records of all
    other uids and the sync state are as they were; marking the same uids
    again leaves the database exactly as it is. *)
Theorem mark_deleted_tombstones_and_removes (c : conn) (uids : list Z) :
  get_deleted_uids (mark_deleted c uids) = get_deleted_uids c ∪ list_to_set uids /\
  (forall u, u ∈ uids -> emails (mark_deleted c uids) !! u = None) /\
  (forall u, u ∉ uids -> emails (mark_deleted c uids) !! u = emails c !! u) /\
  sync_state (mark_deleted c uids) = sync_state c /\
  mark_deleted (mark_deleted c uids) uids = mark_deleted c uids.
Proof.
  destruct (mark_deleted_effect c uids) as (H1 & H2 & H3 & H4).
  repeat split; auto. apply mark_deleted_idem.
Qed.

(** ** imap_client.py: enumeration and response parsing *)

Import Cases.

Lemma StronglySorted_filter_le (P : Z -> Prop) `{forall x, Decision (P x)} (l : list Z) :
  StronglySorted Z.le l -> StronglySorted Z.le (filter P l).
Proof.
  induction 1 as [|x l Hs IH Hall]; [constructor|].
  rewrite filter_cons. destruct (decide (P x)); [|exact IH].
  constructor; [exact IH|].
  apply Forall_forall. intros y Hy. apply list_elem_of_filter in Hy as [_ Hy].
  rewrite Forall_forall in Hall. auto.
Qed.

(** X4: [search_all]: when it returns, its result is the uids of the reply, each
    as often as the reply names it, in ascending order; one UID SEARCH was
    sent. *)
Theorem search_all_sorts_the_listing (srv : server) (c : client) (uids : list Z)
  (c' : client) :
  search_all srv c = (Return uids, c') ->
  exists listed : list Z,
    on_search srv (sent c) = Return (OK, Return listed) /\
    uids ≡ₚ listed /\
    StronglySorted Z.le uids /\
    c' = send c UID_SEARCH_ALL.
Proof.
  unfold search_all.
  destruct (on_search srv (sent c)) as [[[|] [listed|e]]|e]; simpl; intros [= <- <-].
  exists listed. split; [reflexivity|]. split; [apply merge_sort_Permutation|].
  split; [|reflexivity]. apply (StronglySorted_merge_sort Z.le).
Qed.

Lemma search_all_sorts_the_listing_witness :
  exists listed : list Z,
    on_search (mailbox_server unordered_listing) (sent connected)
    = Return (OK, Return listed) /\
    [10; 20; 30] ≡ₚ listed /\
    StronglySorted Z.le [10; 20; 30] /\
    send connected UID_SEARCH_ALL = send connected UID_SEARCH_ALL.
Proof.
  apply (search_all_sorts_the_listing (mailbox_server unordered_listing) connected
           [10; 20; 30] (send connected UID_SEARCH_ALL)).
  reflexivity.
Defined.

(** X5: [search_since_uid]: when it returns, its result holds exactly the uids
    of the reply that are greater than [min_uid], in ascending order. *)
Theorem search_since_uid_is_exact (srv : server) (c : client) (min_uid : Z)
  (uids : list Z) (c' : client) :
  search_since_uid srv c min_uid = (Return uids, c') ->
  exists listed : list Z,
    on_search srv (sent c) = Return (OK, Return listed) /\
    (forall u, u ∈ uids <-> u ∈ listed /\ min_uid < u) /\
    StronglySorted Z.le uids.
Proof.
  unfold search_since_uid, search_all.
  destruct (on_search srv (sent c)) as [[[|] [listed|e]]|e]; simpl; intros [= <- <-].
  exists listed. split; [reflexivity|]. split.
  - intros u. rewrite list_elem_of_filter.
    unfold sorted. rewrite merge_sort_Permutation. tauto.
  - apply StronglySorted_filter_le, (StronglySorted_merge_sort Z.le).
Qed.

Lemma search_since_uid_is_exact_witness :
  exists listed : list Z,
    on_search (mailbox_server unordered_listing) (sent connected)
    = Return (OK, Return listed) /\
    (forall u, u ∈ [20; 30] <-> u ∈ listed /\ 10 < u) /\
    StronglySorted Z.le [20; 30].
Proof.
  apply (search_since_uid_is_exact (mailbox_server unordered_listing) connected 10
           [20; 30] (send connected UID_SEARCH_ALL)).
  reflexivity.
Defined.

Ltac decide_in_goal H :=
  match goal with |- context [decide ?P] => destruct (decide P) as [H | H] end.

Lemma dict_set_keys {V} (d : list (Z * V)) (k : Z) (v : V) :
  fst <$> dict_set d k v = if decide (k ∈ fst <$> d) then fst <$> d else (fst <$> d) ++ [k].
Proof.
  induction d as [|[k' v'] d IH].
  - reflexivity.
  - cbn [dict_set]. destruct (decide (k' = k)) as [-> | Hne];
      rewrite !fmap_cons; cbn [fst].
    + decide_in_goal Hn; [reflexivity|]. exfalso. apply Hn, list_elem_of_here.
    + rewrite IH. decide_in_goal Hin; decide_in_goal Hin'; try reflexivity.
      * exfalso. apply Hin', list_elem_of_further, Hin.
      * exfalso. apply elem_of_cons in Hin' as [-> | Hin']; done.
Qed.

Lemma dict_set_elem {V} (d : list (Z * V)) (k : Z) (v : V) (p : Z * V) :
  p ∈ dict_set d k v -> p = (k, v) \/ p ∈ d.
Proof.
  induction d as [|[k' v'] d IH]; simpl.
  - intros Hp. apply list_elem_of_singleton in Hp. auto.
  - destruct (decide (k' = k)) as [-> | Hne]; intros Hp;
      apply elem_of_cons in Hp as [-> | Hp].
    + auto.
    + right. apply elem_of_cons. auto.
    + right. apply elem_of_cons. auto.
    + destruct (IH Hp) as [-> | Hd]; [auto|]. right. apply elem_of_cons. auto.
Qed.

Lemma dict_set_NoDup {V} (d : list (Z * V)) (k : Z) (v : V) :
  NoDup (fst <$> d) -> NoDup (fst <$> dict_set d k v).
Proof.
  intros Hd. rewrite dict_set_keys. destruct (decide (k ∈ fst <$> d)) as [Hin|Hnin];
    [exact Hd|].
  apply NoDup_app. split; [exact Hd|]. split; [|apply NoDup_singleton].
  intros x Hx Hk. apply list_elem_of_singleton in Hk as ->. done.
Qed.

Lemma parse_items_spec (data : list fetch_item) (results : list (Z * header_data)) :
  NoDup (fst <$> results) ->
  NoDup (fst <$> parse_items results data) /\
  (forall u, u ∈ fst <$> parse_items results data
             <-> u ∈ fst <$> results \/ exists item, item ∈ data /\ item_has_uid u item) /\
  (forall u hd, (u, hd) ∈ parse_items results data ->
     (u, hd) ∈ results \/
     exists metadata, ItemTuple metadata (headers hd) ∈ data /\
       re_search_number "UID " metadata = Some u /\
       size hd = default 0 (re_search_number "RFC822.SIZE " metadata)).
Proof.
  revert results. induction data as [|item data IH]; intros results Hnd; simpl.
  - split; [exact Hnd|]. split; [|auto].
    intros u. split; [auto|]. intros [H | (item & Hi & _)]; [exact H|].
    by apply elem_of_nil in Hi.
  - assert (Hskip : (forall u, ~ item_has_uid u item) ->
              NoDup (fst <$> parse_items results data) /\
              (forall u, u ∈ fst <$> parse_items results data
                 <-> u ∈ fst <$> results
                     \/ exists item0, item0 ∈ item :: data /\ item_has_uid u item0) /\
              (forall u hd, (u, hd) ∈ parse_items results data ->
                 (u, hd) ∈ results \/
                 exists metadata, ItemTuple metadata (headers hd) ∈ item :: data /\
                   re_search_number "UID " metadata = Some u /\
                   size hd = default 0 (re_search_number "RFC822.SIZE " metadata))).
    { intros Hno. destruct (IH results Hnd) as (H1 & H2 & H3).
      split; [exact H1|]. split.
      - intros u. rewrite H2. split.
        + intros [H | (it & Hi & Hu)]; [auto|]. right. exists it.
          split; [apply elem_of_cons; auto | exact Hu].
        + intros [H | (it & Hi & Hu)]; [auto|].
          apply elem_of_cons in Hi as [-> | Hi]; [by apply Hno in Hu|]. eauto.
      - intros u hd Hin. destruct (H3 u hd Hin) as [H | (m & Hm & Hu & Hs)]; [auto|].
        right. exists m. split; [apply elem_of_cons; auto | auto]. }
    destruct item as [| b | metadata hdrs]; try (apply Hskip; intros u []; fail).
    destruct (re_search_number "UID " metadata) as [k|] eqn:Hk;
      [|apply Hskip; intros u Hu; simpl in Hu; congruence].
    set (v := {| headers := hdrs;
                 size := match re_search_number "RFC822.SIZE " metadata with
                         | Some n => n
                         | None => 0
                         end |}).
    destruct (IH (dict_set results k v) (dict_set_NoDup results k v Hnd))
      as (H1 & H2 & H3).
    split; [exact H1|]. split.
    + intros u. rewrite H2, dict_set_keys. split.
      * intros [H | (it & Hi & Hu)].
        -- destruct (decide (k ∈ fst <$> results)); [auto|].
           apply elem_of_app in H as [H | H]; [auto|].
           apply list_elem_of_singleton in H as ->. right.
           exists (ItemTuple metadata hdrs). split; [apply elem_of_cons; auto | exact Hk].
        -- right. exists it. split; [apply elem_of_cons; auto | exact Hu].
      * intros [H | (it & Hi & Hu)].
        -- left. destruct (decide (k ∈ fst <$> results)); [exact H|].
           apply elem_of_app. auto.
        -- apply elem_of_cons in Hi as [-> | Hi]; [|eauto].
           simpl in Hu. rewrite Hk in Hu. injection Hu as <-.
           left. destruct (decide (k ∈ fst <$> results)); [done|].
           apply elem_of_app. right. apply list_elem_of_singleton. reflexivity.
    + intros u hd Hin. destruct (H3 u hd Hin) as [H | (m & Hm & Hu & Hs)].
      * apply dict_set_elem in H as [[= -> ->] | H]; [|auto].
        right. exists metadata. split; [apply elem_of_cons; auto|].
        split; [exact Hk|]. simpl. destruct (re_search_number "RFC822.SIZE " metadata);
          reflexivity.
      * right. exists m. split; [apply elem_of_cons; auto | auto].
Qed.

(** X6: [_parse_fetch_response]: the result has one entry per uid; a uid is a
    key exactly when some two-part item of the reply carries it in a [UID]
    token; every entry holds the header bytes of such an item and its
    [RFC822.SIZE], or 0 when the item has no size token.  [None], closing
    parentheses and items without a uid contribute nothing. *)
Theorem parse_fetch_response_entries (data : list fetch_item) :
  NoDup (fst <$> _parse_fetch_response data) /\
  (forall u, u ∈ fst <$> _parse_fetch_response data
             <-> exists metadata hdrs, ItemTuple metadata hdrs ∈ data /\
                   re_search_number "UID " metadata = Some u) /\
  (forall u hd, (u, hd) ∈ _parse_fetch_response data ->
     exists metadata, ItemTuple metadata (headers hd) ∈ data /\
       re_search_number "UID " metadata = Some u /\
       size hd = default 0 (re_search_number "RFC822.SIZE " metadata)).
Proof.
  unfold _parse_fetch_response.
  destruct (parse_items_spec data [] (NoDup_nil_2)) as (H1 & H2 & H3).
  split; [exact H1|]. split.
  - intros u. rewrite H2. split.
    + intros [H | (item & Hi & Hu)]; [by apply elem_of_nil in H|].
      destruct item as [| b | metadata hdrs]; try done. eauto.
    + intros (metadata & hdrs & Hi & Hu). right.
      exists (ItemTuple metadata hdrs). auto.
  - intros u hd Hin. destruct (H3 u hd Hin) as [H | H]; [by apply elem_of_nil in H|].
    exact H.
Qed.

(** ** fetch.py: the normalizer's records *)

Lemma decode_header_value_returns (lib : email_lib) (value : option header_value) :
  exists s : str, decode_header_value lib value = Return s.
Proof.
  unfold decode_header_value.
  destruct (truthy_value value); simpl; [|eauto].
  destruct (decode_header lib _) as [parts|e]; simpl; [|eauto].
  destruct (decode_parts lib [] parts) as [res|e]; simpl; eauto.
Qed.

Lemma parse_date_returns (lib : email_lib) (date_header : header_value) :
  exists d : option str, parse_date lib date_header = Return d.
Proof.
  unfold parse_date.
  destruct (truthy_value (Some date_header)); simpl; [|eauto].
  destruct (parsedate_to_datetime lib date_header) as [dt|e]; simpl; [|eauto].
  destruct (if tzinfo_is_none lib dt then replace_tzinfo_utc lib dt
            else astimezone_utc lib dt) as [dt'|e]; simpl; [|eauto].
  destruct (isoformat lib dt') as [iso|e]; simpl; eauto.
Qed.

Lemma extract_email_address_returns_aux (lib : email_lib) (from_header : str) :
  exists sender : str * str, extract_email_address lib from_header = Return sender.
Proof.
  unfold extract_email_address.
  destruct (negb (truthy (Some from_header))); [eauto|].
  destruct (parseaddr lib from_header) as [name addr].
  destruct (decode_header_value_returns lib (Some (Text name))) as [decoded ->].
  simpl. eauto.
Qed.

(** X7: [extract_email_address] never raises, whatever the library does; an
    empty header gives two empty strings, and otherwise the address is the
    parsed one lowercased and then stripped (empty when there is none) and
    the name is the decoded parsed name, stripped. *)
Theorem extract_email_address_returns (lib : email_lib) (from_header : str) :
  exists addr name : str,
    extract_email_address lib from_header = Return (addr, name) /\
    (from_header = "" -> addr = "" /\ name = "") /\
    (from_header <> "" ->
     addr = (if String.eqb (snd (parseaddr lib from_header)) "" then ""
             else str_strip lib (str_lower lib (snd (parseaddr lib from_header)))) /\
     exists decoded,
       decode_header_value lib (Some (Text (fst (parseaddr lib from_header))))
       = Return decoded /\ name = str_strip lib decoded).
Proof.
  unfold extract_email_address. simpl.
  destruct (String.eqb_spec from_header "") as [-> | Hne]; simpl.
  - exists "", "". split; [reflexivity|]. split; [auto|]. intros H. done.
  - destruct (parseaddr lib from_header) as [name addr] eqn:Hp. simpl.
    destruct (decode_header_value_returns lib (Some (Text name))) as [decoded Hd].
    rewrite Hd. simpl.
    eexists _, _. split; [reflexivity|]. split; [done|]. intros _.
    split; [by destruct (String.eqb addr "") | eauto].
Qed.

(** What [parse_headers] does once [message_from_bytes] has returned
    [msg]. *)
Lemma parse_headers_cases (lib : email_lib) (raw_headers : bytes) (sz u : Z)
  (msg : str -> option header_value) :
  message_from_bytes lib raw_headers = Return msg ->
  match default (Text "") (msg "Message-ID") with
  | HeaderObject _ =>
      parse_headers lib raw_headers sz u
      = Raise (AttributeError "'Header' object has no attribute 'strip'")
  | Text id =>
      exists r : email_record,
        parse_headers lib raw_headers sz u = Return r /\
        record_uid r = u /\ record_size_bytes r = sz /\
        record_date_header r = default (Text "") (msg "Date") /\
        record_message_id r = (if String.eqb id "" then None else Some (str_strip lib id)) /\
        decode_header_value lib (Some (default (Text "") (msg "From")))
        = Return (record_sender_raw r) /\
        decode_header_value lib (Some (default (Text "") (msg "To")))
        = Return (record_recipient_raw r) /\
        decode_header_value lib (Some (default (Text "") (msg "Subject")))
        = Return (record_subject r) /\
        extract_email_address lib (record_sender_raw r)
        = Return (record_sender_email r, record_sender_name r) /\
        parse_date lib (default (Text "") (msg "Date")) = Return (record_date_parsed r)
  end.
Proof.
  intros Hmsg. unfold parse_headers. rewrite Hmsg. cbn [bind].
  destruct (decode_header_value_returns lib (Some (default (Text "") (msg "From"))))
    as [f Hf].
  destruct (decode_header_value_returns lib (Some (default (Text "") (msg "To"))))
    as [t Ht].
  destruct (decode_header_value_returns lib (Some (default (Text "") (msg "Subject"))))
    as [s Hs].
  rewrite Hf, Ht, Hs. cbn [bind].
  destruct (extract_email_address_returns_aux lib f) as [[addr name] Hsender].
  rewrite Hsender. cbn [bind].
  destruct (parse_date_returns lib (default (Text "") (msg "Date"))) as [parsed Hparsed].
  rewrite Hparsed. cbn [bind].
  destruct (default (Text "") (msg "Message-ID")) as [id|raw]; cbn [bind]; [|reflexivity].
  eexists. split; [reflexivity|]. cbn. rewrite Hsender.
  repeat split. by destruct (String.eqb id "").
Qed.

(** X8: [parse_headers] raises in exactly two cases: when
    [email.message_from_bytes] raises, with its exception, and when
    [msg.get] gives the Message-ID as a [Header] object (a header with raw
    bytes that are not ASCII), with the [AttributeError] of
    [message_id.strip()].  Otherwise it returns a record that carries the
    uid and the size it was given, the Date header as [msg.get] gave it,
    a [str] or a [Header], the stripped message id, which is [None]
    exactly when the header is missing or empty, the decoded From, To and
    Subject, the sender extracted from the decoded From, and the date as
    [parse_date] gives it. *)
Theorem parse_headers_record (lib : email_lib) (raw_headers : bytes) (sz u : Z) :
  match message_from_bytes lib raw_headers with
  | Raise e => parse_headers lib raw_headers sz u = Raise e
  | Return msg =>
      match default (Text "") (msg "Message-ID") with
      | HeaderObject _ =>
          parse_headers lib raw_headers sz u
          = Raise (AttributeError "'Header' object has no attribute 'strip'")
      | Text id =>
          exists r : email_record,
            parse_headers lib raw_headers sz u = Return r /\
            record_uid r = u /\ record_size_bytes r = sz /\
            record_date_header r = default (Text "") (msg "Date") /\
            record_message_id r
            = (if String.eqb id "" then None else Some (str_strip lib id)) /\
            (record_message_id r = None <-> id = "") /\
            decode_header_value lib (Some (default (Text "") (msg "From")))
            = Return (record_sender_raw r) /\
            decode_header_value lib (Some (default (Text "") (msg "To")))
            = Return (record_recipient_raw r) /\
            decode_header_value lib (Some (default (Text "") (msg "Subject")))
            = Return (record_subject r) /\
            extract_email_address lib (record_sender_raw r)
            = Return (record_sender_email r, record_sender_name r) /\
            parse_date lib (default (Text "") (msg "Date"))
            = Return (record_date_parsed r)
      end
  end.
Proof.
  destruct (message_from_bytes lib raw_headers) as [msg|e] eqn:Hmsg;
    [|unfold parse_headers; by rewrite Hmsg].
  pose proof (parse_headers_cases lib raw_headers sz u msg Hmsg) as H.
  destruct (default (Text "") (msg "Message-ID")) as [id|raw]; [|exact H].
  destruct H as (r & Hr & Hu & Hsz & Hdate & Hid & Hrest).
  exists r. split; [exact Hr|]. split; [exact Hu|]. split; [exact Hsz|].
  split; [exact Hdate|]. split; [exact Hid|]. split; [|exact Hrest].
  rewrite Hid. destruct (String.eqb_spec id ""); split; done.
Qed.

Lemma parse_headers_record_witness :
  parse_headers eight_bit_lib "8bit-id of the message" 120 10
  = Raise (AttributeError "'Header' object has no attribute 'strip'") /\
  exists r : email_record,
    parse_headers eight_bit_lib "first" 120 10 = Return r /\
    record_uid r = 10 /\ record_size_bytes r = 120 /\
    record_date_header r = HeaderObject "first" /\
    record_message_id r = Some "<m@example.org>" /\
    record_date_parsed r = None.
Proof.
  split.
  - exact (parse_headers_record eight_bit_lib "8bit-id of the message" 120 10).
  - destruct (parse_headers_record eight_bit_lib "first" 120 10)
      as (r & Hr & Hu & Hsz & Hdate & Hid & _ & _ & _ & _ & _ & Hparsed).
    exists r. split; [exact Hr|]. split; [exact Hu|]. split; [exact Hsz|].
    split; [exact Hdate|]. split; [exact Hid|].
    assert (H : Return (record_date_parsed r) = Return (@None str))
      by (rewrite <- Hparsed; reflexivity).
    by injection H.
Defined.

(** A record whose Date is a [Header] object cannot be bound by
    [sqlite3]: the two messages of the mailbox parse, the insert of the
    remaining records raises, the run ends with that exception, and
    neither a record nor the cursor is stored. *)
Example header_date_aborts_the_sync :
  let run := fetch_all (mailbox_server three_listed_two_fetched) eight_bit_lib credentials
               100 None true empty_db in
  fst (fst run) = Raise (Sqlite3Error "Error binding parameter :date_header") /\
  emails (snd (fst run)) = ∅ /\
  last_uid (get_sync_state (snd (fst run))) = 0 /\
  sent (snd run) = [LOGOUT; CLOSE; UID_FETCH [10; 20; 30]; UID_SEARCH_ALL; EXAMINE; LOGIN].
Proof. repeat split; reflexivity. Qed.

(** ** fetch.py: what a sync run sends, counts and keeps *)

Lemma sends_only_send (P : command -> Prop) (c : client) (cmd : command) :
  P cmd -> sends_only P c -> sends_only P (send c cmd).
Proof. intros Hcmd Hc. unfold sends_only, send. simpl. by constructor. Qed.

Lemma sends_only_set_mode (P : command -> Prop) (c : client) (m : folder_mode) :
  sends_only P c -> sends_only P (set_mode c m).
Proof. intros Hc. exact Hc. Qed.

Ltac sends_only_tac :=
  cbn [fst snd];
  repeat first
    [ assumption
    | apply sends_only_set_mode
    | apply sends_only_send; [ solve [ auto ] | ] ].

Lemma sends_only_select (P : command -> Prop) (srv : server) (c : client) (readonly : bool) :
  P (if readonly then EXAMINE else SELECT) ->
  sends_only P c -> sends_only P (snd (_select_all_mail srv c readonly)).
Proof.
  intros Hp Hc. unfold _select_all_mail.
  destruct (on_select srv (sent c) readonly) as [[[|] count]|e]; sends_only_tac.
Qed.

Lemma sends_only_connect (P : command -> Prop) (srv : server) (c : client) :
  P LOGIN -> P EXAMINE -> sends_only P c -> sends_only P (snd (connect srv c)).
Proof.
  intros Hl He Hc. unfold connect.
  destruct (on_login srv (sent c)) as [[]|e]; [|sends_only_tac].
  pose proof (sends_only_select P srv (send c LOGIN) true He) as Hs.
  destruct (_select_all_mail srv (send c LOGIN) true) as [r c2].
  cbn [fst snd] in *. apply Hs. sends_only_tac.
Qed.

Lemma sends_only_disconnect (P : command -> Prop) (srv : server) (c : client) :
  P CLOSE -> P LOGOUT -> sends_only P c -> sends_only P (disconnect srv c).
Proof.
  intros Hcl Hlo Hc. unfold disconnect.
  destruct (on_close srv (sent c)); sends_only_tac.
Qed.

Lemma sends_only_enumerate (P : command -> Prop) (srv : server) (c : client)
  (incremental : bool) (d : conn) :
  P UID_SEARCH_ALL -> sends_only P c -> sends_only P (snd (enumerate srv c incremental d)).
Proof.
  intros Hs Hc. rewrite enumerate_eq. cbn [snd]. unfold search_all.
  destruct (on_search srv (sent c)) as [[[|] uids]|e]; sends_only_tac.
Qed.

Lemma sends_only_get_uidnext (P : command -> Prop) (srv : server) (c : client) :
  P STATUS_UIDNEXT -> sends_only P c -> sends_only P (snd (get_uidnext srv c)).
Proof.
  intros Hs Hc. unfold get_uidnext.
  destruct (on_status srv (sent c)) as [[[|] data0]|e]; sends_only_tac.
  destruct (re_search_number "UIDNEXT " data0); sends_only_tac.
Qed.

Lemma sends_only_fetch_headers (P : command -> Prop) (srv : server) (c : client)
  (uids : list Z) :
  P (UID_FETCH uids) -> sends_only P c -> sends_only P (snd (fetch_headers srv c uids)).
Proof.
  intros Hf Hc. unfold fetch_headers. destruct uids as [|u uids]; [exact Hc|].
  destruct (on_fetch srv (sent c) (u :: uids)) as [[[|] data]|e]; sends_only_tac.
Qed.

Lemma sends_only_fetch_loop (P : command -> Prop) (srv : server) (lib : email_lib)
  (batch_size : Z) (cb : option (Z -> Z -> Z -> result unit)) (total : Z)
  (uids : list Z) (starts : list nat) (ls : loop_state) (c : client) :
  (forall i, P (UID_FETCH (batch_uids uids batch_size i))) -> sends_only P c ->
  sends_only P (snd (fetch_loop srv lib batch_size cb total uids starts ls c)).
Proof.
  intros Hf. revert ls c. induction starts as [|i starts IH]; intros ls c Hc; [exact Hc|].
  simpl.
  pose proof (sends_only_fetch_headers P srv c _ (Hf i) Hc) as Hh.
  destruct (fetch_headers srv c (batch_uids uids batch_size i)) as [[bd|e] c1];
    cbn [fst snd] in *; [|exact Hh].
  destruct (process_batch lib batch_size cb total ls bd) as [[[]|e] ls1];
    cbn [fst snd]; [|exact Hh].
  apply IH, Hh.
Qed.

Lemma sends_only_fetch_all (P : command -> Prop) (srv : server) (lib : email_lib)
  (getenv : str -> option str) (batch_size : Z)
  (cb : option (Z -> Z -> Z -> result unit)) (incremental : bool) (d : conn) :
  (forall cmd, is_query cmd = true -> (forall us, cmd <> UID_FETCH us) -> P cmd) ->
  (forall uids0 i,
     P (UID_FETCH (batch_uids (drop_deleted (init_db d) uids0) batch_size i))) ->
  sends_only P (snd (fetch_all srv lib getenv batch_size cb incremental d)).
Proof.
  intros Hq Hf.
  assert (Hl : P LOGIN) by (apply Hq; [reflexivity | discriminate]).
  assert (He : P EXAMINE) by (apply Hq; [reflexivity | discriminate]).
  assert (Hs : P UID_SEARCH_ALL) by (apply Hq; [reflexivity | discriminate]).
  assert (Hn : P STATUS_UIDNEXT) by (apply Hq; [reflexivity | discriminate]).
  assert (Hc : P CLOSE) by (apply Hq; [reflexivity | discriminate]).
  assert (Ho : P LOGOUT) by (apply Hq; [reflexivity | discriminate]).
  assert (H0 : sends_only P new_client) by constructor.
  unfold fetch_all.
  destruct (load_config_from_env getenv); [|exact H0].
  pose proof (sends_only_connect P srv new_client Hl He H0) as Hcon.
  destruct (connect srv new_client) as [[[]|e] c]; cbn [fst snd] in *; [|exact Hcon].
  assert (Hses : sends_only P (snd (fetch_all_session srv lib batch_size cb incremental
                                      (init_db d) c))).
  { unfold fetch_all_session.
    pose proof (sends_only_enumerate P srv c incremental (init_db d) Hs Hcon) as Hen.
    destruct (enumerate srv c incremental (init_db d)) as [[uids0|e] c1];
      cbn [fst snd] in *; [|exact Hen].
    unfold sync_uids.
    destruct (Z.of_nat (length (drop_deleted (init_db d) uids0)) =? 0); [exact Hen|].
    destruct (batch_starts (drop_deleted (init_db d) uids0) batch_size) as [starts|e];
      [|exact Hen].
    pose proof (sends_only_fetch_loop P srv lib batch_size cb
                  (Z.of_nat (length (drop_deleted (init_db d) uids0)))
                  (drop_deleted (init_db d) uids0) starts
                  {| fetched := 0; batch_emails := []; st := zero_stats; db := init_db d |}
                  c1 (Hf uids0) Hen) as Hloop.
    destruct (fetch_loop _ _ _ _ _ _ _ _ _) as [[[e|] ls] c2]; cbn [fst snd] in *;
      [exact Hloop|].
    destruct (store_remaining ls) as [ls1|e]; [|exact Hloop].
    destruct (drop_deleted (init_db d) uids0) as [|u uids]; [exact Hloop|].
    destruct (max (u :: uids)); [|exact Hloop].
    pose proof (sends_only_get_uidnext P srv c2 Hn Hloop) as Hnext.
    destruct (get_uidnext srv c2) as [[n|e] c3]; exact Hnext. }
  destruct (fetch_all_session _ _ _ _ _ _ _) as [[r d2] c1]. cbn [fst snd] in *.
  by apply sends_only_disconnect.
Qed.

(** X9: a sync run never alters the remote mailbox: whatever the server
    answers and however the run ends, [fetch_all] sends no read-write
    SELECT, no STORE and no EXPUNGE. *)
Theorem fetch_all_sends_only_queries (srv : server) (lib : email_lib)
  (getenv : str -> option str) (batch_size : Z)
  (progress_callback : option (Z -> Z -> Z -> result unit)) (incremental : bool)
  (d : conn) :
  Forall (fun cmd => is_query cmd = true)
    (sent (snd (fetch_all srv lib getenv batch_size progress_callback incremental d))).
Proof.
  apply (sends_only_fetch_all (fun cmd => is_query cmd = true)); auto.
Qed.

Lemma parse_batch_counts (lib : email_lib) (items : list (Z * header_data)) (ls : loop_state) :
  fetched (parse_batch lib ls items)
  = fetched ls + Z.of_nat (length (parsed_records lib items)) /\
  already_existed (st (parse_batch lib ls items)) = already_existed (st ls) /\
  errors (st ls) <= errors (st (parse_batch lib ls items)).
Proof.
  revert ls. induction items as [|[u data] items IH]; intros ls; simpl.
  - lia.
  - destruct (parse_headers lib (headers data) (size data) u) as [e|err].
    + destruct (IH {| fetched := fetched ls + 1;
                      batch_emails := batch_emails ls ++ [e];
                      st := st ls; db := db ls |}) as (-> & -> & Herr).
      simpl in *. lia.
    + destruct (IH {| fetched := fetched ls;
                      batch_emails := batch_emails ls;
                      st := {| total_fetched := total_fetched (st ls);
                               new_stored := new_stored (st ls);
                               already_existed := already_existed (st ls);
                               errors := errors (st ls) + 1 |};
                      db := db ls |}) as (-> & -> & Herr).
      simpl in *. lia.
Qed.

Lemma store_batch_counts (ls ls' : loop_state) (reset : bool) :
  store_batch ls reset = Return ls' ->
  new_stored (st ls') + already_existed (st ls')
  = new_stored (st ls) + already_existed (st ls) + Z.of_nat (length (batch_emails ls)) /\
  get_email_count (db ls')
  = get_email_count (db ls) + (new_stored (st ls') - new_stored (st ls)) /\
  new_stored (st ls) <= new_stored (st ls') /\
  already_existed (st ls) <= already_existed (st ls') /\
  errors (st ls') = errors (st ls) /\
  fetched ls' = fetched ls /\
  batch_emails ls' = (if reset then [] else batch_emails ls).
Proof.
  intros Hs. pose proof (store_batch_returns ls reset) as H. rewrite Hs in H.
  destruct H as (rows & _ & Hu & Hdb & Hbe & Hf & Hn & Ha & He).
  pose proof (insert_emails_batch_size rows (db ls)) as [Hcount Hrange].
  assert (Hlen : length rows = length (batch_emails ls)).
  { by rewrite <- (length_fmap uid rows), Hu, length_fmap. }
  rewrite Hlen in Hrange. rewrite Hdb, Hn, Ha, He, Hf, Hbe.
  repeat split; lia.
Qed.

Lemma process_batch_balanced (lib : email_lib) (batch_size : Z)
  (cb : option (Z -> Z -> Z -> result unit)) (total : Z) (d0 : conn) (ls : loop_state)
  (bd : list (Z * header_data)) :
  balanced d0 ls -> balanced d0 (snd (process_batch lib batch_size cb total ls bd)).
Proof.
  intros (Hsum & Hcount & Hn & Ha & He).
  assert (H1 : balanced d0 (parse_batch lib ls bd)).
  { destruct (parse_batch_spec lib bd ls) as (Hdb & Hnew & Hbe).
    destruct (parse_batch_counts lib bd ls) as (Hf & Hal & Herr).
    unfold balanced. rewrite Hdb, Hnew, Hbe, Hf, Hal, length_app. lia. }
  destruct (process_batch_cases lib batch_size cb total ls bd) as [-> | Hs]; [exact H1|].
  destruct H1 as (Hsum1 & Hcount1 & Hn1 & Ha1 & He1).
  destruct (store_batch_counts _ _ true Hs) as (Hs' & Hc & Hnn & Haa & Hee & Hff & Hbe).
  unfold balanced. rewrite Hff, Hee, Hbe. simpl. lia.
Qed.

Lemma fetch_loop_balanced (srv : server) (lib : email_lib) (batch_size : Z)
  (cb : option (Z -> Z -> Z -> result unit)) (total : Z) (uids : list Z) (d0 : conn)
  (starts : list nat) (ls : loop_state) (c : client) :
  balanced d0 ls ->
  balanced d0 (snd (fst (fetch_loop srv lib batch_size cb total uids starts ls c))).
Proof.
  revert ls c. induction starts as [|i starts IH]; intros ls c Hb; [exact Hb|].
  simpl. destruct (fetch_headers srv c (batch_uids uids batch_size i)) as [[bd|e] c1];
    [|exact Hb].
  pose proof (process_batch_balanced lib batch_size cb total d0 ls bd Hb) as Hp.
  destruct (process_batch lib batch_size cb total ls bd) as [[[]|e] ls1];
    cbn [fst snd] in *; [|exact Hp].
  apply IH, Hp.
Qed.

Lemma store_remaining_final (d0 : conn) (ls ls' : loop_state) :
  balanced d0 ls -> store_remaining ls = Return ls' ->
  let s := final_stats ls' in
  total_fetched s = new_stored s + already_existed s /\
  get_email_count (db ls') = get_email_count d0 + new_stored s /\
  0 <= new_stored s /\ 0 <= already_existed s /\ 0 <= errors s.
Proof.
  intros (Hsum & Hcount & Hn & Ha & He). unfold store_remaining, final_stats.
  destruct (batch_emails ls) as [|e es] eqn:Hb.
  - intros [= <-]. simpl in *. lia.
  - intros Hs.
    destruct (store_batch_counts ls ls' false Hs) as (Hs' & Hc & Hnn & Haa & Hee & Hff & _).
    rewrite Hb in Hs'. simpl in *. rewrite Hff, Hee. lia.
Qed.

(** X10: when a sync run returns, every record it parsed is accounted for once,
    as new or as already existing, and the table has grown by exactly the
    number reported as new. *)
Theorem fetch_all_stats_add_up (srv : server) (lib : email_lib)
  (getenv : str -> option str) (batch_size : Z)
  (progress_callback : option (Z -> Z -> Z -> result unit)) (incremental : bool)
  (d : conn) (s : stats) :
  fst (fst (fetch_all srv lib getenv batch_size progress_callback incremental d))
  = Return s ->
  total_fetched s = new_stored s + already_existed s /\
  get_email_count
    (snd (fst (fetch_all srv lib getenv batch_size progress_callback incremental d)))
  = get_email_count d + new_stored s /\
  0 <= new_stored s /\ 0 <= already_existed s /\ 0 <= errors s.
Proof.
  unfold fetch_all.
  destruct (load_config_from_env getenv); [|intros [=]].
  destruct (connect srv new_client) as [[[]|e] c]; [|intros [=]].
  destruct (fetch_all_session srv lib batch_size progress_callback incremental
              (init_db d) c) as [[r d1] c1] eqn:Hrun.
  cbn [fst snd]. intros ->.
  assert (Hcount0 : get_email_count (init_db d) = get_email_count d).
  { unfold get_email_count, init_db. by destruct (sync_state d). }
  rewrite <- Hcount0.
  unfold fetch_all_session in Hrun.
  destruct (enumerate srv c incremental (init_db d)) as [[uids0|e] c0]; [|discriminate].
  destruct (drop_deleted (init_db d) uids0) as [|u uids] eqn:Hu.
  - rewrite sync_uids_nil in Hrun. injection Hrun as <- <- <-. simpl. lia.
  - assert (Hne : u :: uids <> []) by done.
    destruct (sync_uids_returns _ _ _ _ _ _ _ _ _ _ Hne Hrun)
      as (starts & ls & c2 & m & n & lsr & Hst & Hloop & Hrem & Hmax & Hnext & -> & ->).
    assert (Hb0 : balanced (init_db d)
                    {| fetched := 0; batch_emails := []; st := zero_stats;
                       db := init_db d |}).
    { unfold balanced. simpl. lia. }
    pose proof (fetch_loop_balanced srv lib batch_size progress_callback
                  (Z.of_nat (length (u :: uids))) (u :: uids) (init_db d) starts _ c0 Hb0)
      as Hb.
    rewrite Hloop in Hb. cbn [fst snd] in Hb.
    destruct (store_remaining_final (init_db d) ls lsr Hb Hrem) as (H1 & H2 & H3 & H4 & H5).
    repeat split; auto.
    unfold get_email_count in *.
    destruct (update_sync_state_frame (db lsr) m n) as [-> _].
    exact H2.
Qed.

Lemma fetch_all_stats_add_up_witness :
  let run := fetch_all (mailbox_server three_listed_two_fetched) plain_lib credentials 2
               None false (db_with_cursor 0) in
  total_fetched {| total_fetched := 2; new_stored := 2; already_existed := 0; errors := 0 |}
  = 2 + 0 /\
  get_email_count (snd (fst run)) = get_email_count (db_with_cursor 0) + 2.
Proof.
  destruct (fetch_all_stats_add_up (mailbox_server three_listed_two_fetched) plain_lib
              credentials 2 None false (db_with_cursor 0)
              {| total_fetched := 2; new_stored := 2; already_existed := 0; errors := 0 |}
              eq_refl) as (H1 & H2 & _).
  split; [exact H1 | exact H2].
Defined.

Lemma process_batch_keeps (lib : email_lib) (batch_size : Z)
  (cb : option (Z -> Z -> Z -> result unit)) (total : Z) (ls : loop_state)
  (bd : list (Z * header_data)) (u : Z) (row : email_row) :
  emails (db ls) !! u = Some row ->
  emails (db (snd (process_batch lib batch_size cb total ls bd))) !! u = Some row.
Proof.
  intros Hu.
  destruct (parse_batch_spec lib bd ls) as (Hdb & _ & _).
  destruct (process_batch_cases lib batch_size cb total ls bd) as [-> | Hs];
    [by rewrite Hdb|].
  pose proof (store_batch_returns (parse_batch lib ls bd) true) as H. rewrite Hs in H.
  destruct H as (rows & _ & _ & -> & _). rewrite Hdb.
  by apply insert_emails_batch_keeps.
Qed.

Lemma fetch_loop_keeps (srv : server) (lib : email_lib) (batch_size : Z)
  (cb : option (Z -> Z -> Z -> result unit)) (total : Z) (uids : list Z)
  (starts : list nat) (ls : loop_state) (c : client) (u : Z) (row : email_row) :
  emails (db ls) !! u = Some row ->
  emails (db (snd (fst (fetch_loop srv lib batch_size cb total uids starts ls c)))) !! u
  = Some row.
Proof.
  revert ls c. induction starts as [|i starts IH]; intros ls c Hu; [exact Hu|].
  simpl. destruct (fetch_headers srv c (batch_uids uids batch_size i)) as [[bd|e] c1];
    [|exact Hu].
  pose proof (process_batch_keeps lib batch_size cb total ls bd u row Hu) as Hp.
  destruct (process_batch lib batch_size cb total ls bd) as [[[]|e] ls1];
    cbn [fst snd] in *; [|exact Hp].
  apply IH, Hp.
Qed.

Lemma store_remaining_keeps (ls ls' : loop_state) (u : Z) (row : email_row) :
  store_remaining ls = Return ls' ->
  emails (db ls) !! u = Some row -> emails (db ls') !! u = Some row.
Proof.
  unfold store_remaining. destruct (batch_emails ls) eqn:Hb; [by intros [= <-]|].
  intros Hs Hu. pose proof (store_batch_returns ls false) as H. rewrite Hs in H.
  destruct H as (rows & _ & _ & -> & _). by apply insert_emails_batch_keeps.
Qed.

Lemma sync_uids_frame (srv : server) (lib : email_lib) (batch_size : Z)
  (cb : option (Z -> Z -> Z -> result unit)) (d : conn) (c : client) (uids : list Z) :
  let run := sync_uids srv lib batch_size cb d c uids in
  (forall u row, emails d !! u = Some row -> emails (snd (fst run)) !! u = Some row) /\
  deleted_uids (snd (fst run)) = deleted_uids d /\
  (returns (fst (fst run)) = false -> sync_state (snd (fst run)) = sync_state d).
Proof.
  intros run. subst run. unfold sync_uids.
  destruct (Z.of_nat (length uids) =? 0); [simpl; auto|].
  destruct (batch_starts uids batch_size) as [starts|e]; [|simpl; auto].
  pose proof (fetch_loop_frame srv lib batch_size cb (Z.of_nat (length uids)) uids starts
                {| fetched := 0; batch_emails := []; st := zero_stats; db := d |} c) as Hfr.
  pose proof (fun u row => fetch_loop_keeps srv lib batch_size cb (Z.of_nat (length uids))
                uids starts
                {| fetched := 0; batch_emails := []; st := zero_stats; db := d |} c u row)
    as Hkeep.
  destruct (fetch_loop _ _ _ _ _ _ _ _ _) as [[[e|] ls] c2]; cbn [fst snd db] in *.
  - destruct Hfr as [Hss Hdel]. auto.
  - destruct Hfr as [Hss Hdel].
    destruct (store_remaining ls) as [lsr|e] eqn:Hrem; [|simpl; auto].
    destruct (store_remaining_frame ls lsr Hrem) as [Hss' Hdel'].
    assert (Hkeep' : forall u row, emails d !! u = Some row ->
                       emails (db lsr) !! u = Some row).
    { intros u row Hu. eapply store_remaining_keeps; [exact Hrem|]. by apply Hkeep. }
    assert (Hraise : deleted_uids (db lsr) = deleted_uids d /\
                     sync_state (db lsr) = sync_state d).
    { split; congruence. }
    destruct Hraise as [Hd Hs].
    destruct uids as [|u0 uids]; [simpl; auto|].
    destruct (max (u0 :: uids)) as [m|e]; [|simpl; auto].
    destruct (get_uidnext srv c2) as [[n|e] c3]; cbn [fst snd returns]; [|auto].
    destruct (update_sync_state_frame (db lsr) m n) as [-> ->].
    split; [exact Hkeep'|]. split; [exact Hd | discriminate].
Qed.

(** X11: a sync run only adds to the local store: every record stored before
    the run is still stored, unchanged; the tombstones are untouched; and
    when the run ends with an exception the sync state reads as it did
    before the run, so the cursor has not moved. *)
Theorem fetch_all_only_adds_records (srv : server) (lib : email_lib)
  (getenv : str -> option str) (batch_size : Z)
  (progress_callback : option (Z -> Z -> Z -> result unit)) (incremental : bool)
  (d : conn) :
  let run := fetch_all srv lib getenv batch_size progress_callback incremental d in
  (forall u row, emails d !! u = Some row -> emails (snd (fst run)) !! u = Some row) /\
  deleted_uids (snd (fst run)) = deleted_uids d /\
  (returns (fst (fst run)) = false ->
   get_sync_state (snd (fst run)) = get_sync_state d).
Proof.
  intros run. subst run.
  destruct (init_db_is_safe_to_repeat_aux d) as (Hem & Hdel & Hget).
  unfold fetch_all.
  destruct (load_config_from_env getenv); cbn [fst snd]; [|rewrite Hem, Hdel; auto].
  destruct (connect srv new_client) as [[[]|e] c]; cbn [fst snd];
    [|rewrite Hem, Hdel; auto].
  unfold fetch_all_session.
  destruct (enumerate srv c incremental (init_db d)) as [[uids0|e] c0]; cbn [fst snd];
    [|rewrite Hem, Hdel; auto].
  pose proof (sync_uids_frame srv lib batch_size progress_callback (init_db d) c0
                (drop_deleted (init_db d) uids0)) as Hf.
  cbn zeta in Hf.
  destruct (sync_uids _ _ _ _ _ _ _) as [[r d1] c1]. cbn [fst snd] in *.
  destruct Hf as (Hkeep & Hd & Hs). rewrite Hem, Hdel in *.
  split; [exact Hkeep|]. split; [exact Hd|].
  intros Hr. rewrite <- Hget. unfold get_sync_state. by rewrite (Hs Hr).
Qed.

Lemma sync_uids_negative (srv : server) (lib : email_lib) (batch_size : Z)
  (cb : option (Z -> Z -> Z -> result unit)) (d : conn) (c : client) (uids : list Z) :
  batch_size < 0 ->
  sync_uids srv lib batch_size cb d c uids
  = match uids with
    | [] => (Return zero_stats, d, c)
    | _ =>
        match max uids with
        | Raise e => (Raise e, d, c)
        | Return m =>
            match get_uidnext srv c with
            | (Raise e, c3) => (Raise e, d, c3)
            | (Return n, c3) => (Return zero_stats, update_sync_state d m n, c3)
            end
        end
    end.
Proof.
  intros Hneg. unfold sync_uids. destruct uids as [|u uids]; [reflexivity|].
  change (Z.of_nat (length (u :: uids)) =? 0) with false. cbv iota.
  unfold batch_starts, range.
  destruct (Z.eqb_spec batch_size 0) as [?|_]; [lia|].
  destruct (Z.ltb_spec batch_size 0) as [_|?]; [|lia].
  reflexivity.
Qed.

(** X12: a negative batch size makes the batch loop empty: the run sends no
    FETCH and stores nothing, yet when it returns (with all counters at 0)
    the cursor has been set to the maximum of the enumerated uids. *)
Theorem fetch_all_negative_batch_size (srv : server) (lib : email_lib)
  (getenv : str -> option str) (batch_size : Z)
  (progress_callback : option (Z -> Z -> Z -> result unit)) (incremental : bool)
  (d : conn) :
  batch_size < 0 ->
  let run := fetch_all srv lib getenv batch_size progress_callback incremental d in
  emails (snd (fst run)) = emails d /\
  Forall (fun cmd => is_fetch cmd = false) (sent (snd run)) /\
  (forall s, fst (fst run) = Return s ->
     s = zero_stats /\
     forall uids0,
       fst (enumerate srv (snd (connect srv new_client)) incremental (init_db d))
       = Return uids0 ->
       drop_deleted d uids0 <> [] ->
       max (drop_deleted d uids0) = Return (last_uid (get_sync_state (snd (fst run))))).
Proof.
  intros Hneg run. subst run.
  destruct (init_db_is_safe_to_repeat_aux d) as (Hem & Hdel & Hget).
  set (P := fun cmd => is_fetch cmd = false).
  assert (H0 : sends_only P new_client) by constructor.
  assert (Hdis : forall c, sends_only P c -> sends_only P (disconnect srv c)).
  { intros c Hc. apply sends_only_disconnect; auto; reflexivity. }
  unfold fetch_all.
  destruct (load_config_from_env getenv); cbn [fst snd];
    [|split; [exact Hem|]; split; [exact H0 | intros s [=]]].
  pose proof (sends_only_connect P srv new_client eq_refl eq_refl H0) as Hcon.
  destruct (connect srv new_client) as [[[]|e] c]; cbn [fst snd] in *;
    [|split; [exact Hem|]; split; [exact Hcon | intros s [=]]].
  unfold fetch_all_session.
  pose proof (sends_only_enumerate P srv c incremental (init_db d) eq_refl Hcon) as Hen.
  destruct (enumerate srv c incremental (init_db d)) as [[uids0|e] c0];
    cbn [fst snd] in *.
  2:{ split; [exact Hem|]. split; [by apply Hdis | intros s [=]]. }
  rewrite (sync_uids_negative _ _ _ _ _ _ _ Hneg).
  rewrite (drop_deleted_same d (init_db d) uids0 Hdel).
  destruct (drop_deleted d uids0) as [|u uids] eqn:Hu; cbn [fst snd].
  - split; [exact Hem|]. split; [by apply Hdis|].
    intros s [= <-]. split; [reflexivity|]. intros uids1 [= <-] Hne. by rewrite Hu in Hne.
  - destruct (max (u :: uids)) as [m|e] eqn:Hmax; cbn [fst snd].
    2:{ split; [exact Hem|]. split; [by apply Hdis | intros s [=]]. }
    pose proof (sends_only_get_uidnext P srv c0 eq_refl Hen) as Hnext.
    destruct (get_uidnext srv c0) as [[n|e] c3]; cbn [fst snd] in *.
    + destruct (update_sync_state_frame (init_db d) m n) as [-> _].
      split; [exact Hem|]. split; [by apply Hdis|].
      intros s [= <-]. split; [reflexivity|]. intros uids1 [= <-] _.
      destruct (init_db_some d) as [row Hrow].
      rewrite Hu, (update_sync_state_cursor _ row m n Hrow). exact Hmax.
    + split; [exact Hem|]. split; [by apply Hdis | intros s [=]].
Qed.

Lemma fetch_all_negative_batch_size_witness :
  let run := fetch_all (mailbox_server three_listed_two_fetched) plain_lib credentials (-1)
               None true empty_db in
  emails (snd (fst run)) = emails empty_db /\
  fst (fst run) = Return zero_stats /\
  last_uid (get_sync_state (snd (fst run))) = 30.
Proof.
  destruct (fetch_all_negative_batch_size (mailbox_server three_listed_two_fetched)
              plain_lib credentials (-1) None true empty_db ltac:(lia))
    as (Hem & _ & _).
  split; [exact Hem|]. split; reflexivity.
Defined.

(** ** delete.py: what a deletion run counts, stores and sends *)

(** One batch without a progress callback.  On a file with its tables the
    batch is counted once, under [deleted] or under [errors]; on a file
    without them it is counted under [errors] in every case, and the file
    stays as it is. *)
Lemma delete_batch_accounts (srv : server) (total : Z)
  (s : Delete.stats * database * client) (batch : list Z) :
  let s' := Delete.delete_batch srv None total s batch in
  Delete.not_found (fst (fst s')) = Delete.not_found (fst (fst s)) /\
  match snd (fst s) with
  | Tables _ =>
      (exists d', snd (fst s') = Tables d') /\
      Delete.deleted (fst (fst s')) + Delete.errors (fst (fst s'))
      = Delete.deleted (fst (fst s)) + Delete.errors (fst (fst s)) + Z.of_nat (length batch)
  | NoTables =>
      snd (fst s') = NoTables /\
      Delete.errors (fst (fst s')) = Delete.errors (fst (fst s)) + Z.of_nat (length batch)
  end.
Proof.
  destruct s as [[stats0 d] c]. cbn [fst snd]. unfold Delete.delete_batch.
  pose proof (delete_messages_count srv c batch true) as Hn.
  destruct (delete_messages srv c batch true) as [[n|e] c1]; cbn [fst snd] in *.
  - subst n. destruct d as [|d]; cbn; (split; [reflexivity|]); split; eauto; lia.
  - destruct d as [|d]; cbn; (split; [reflexivity|]); split; eauto; lia.
Qed.

Lemma delete_loop_accounts (srv : server) (total : Z) (batches : list (list Z))
  (s : Delete.stats * database * client) :
  let s' := Delete.delete_loop srv None total batches s in
  Delete.not_found (fst (fst s')) = Delete.not_found (fst (fst s)) /\
  match snd (fst s) with
  | Tables _ =>
      (exists d', snd (fst s') = Tables d') /\
      Delete.deleted (fst (fst s')) + Delete.errors (fst (fst s'))
      = Delete.deleted (fst (fst s)) + Delete.errors (fst (fst s))
        + Z.of_nat (length (concat batches))
  | NoTables =>
      snd (fst s') = NoTables /\
      Delete.errors (fst (fst s'))
      = Delete.errors (fst (fst s)) + Z.of_nat (length (concat batches))
  end.
Proof.
  revert s. induction batches as [|batch batches IH]; intros s.
  - cbn. destruct (snd (fst s)) eqn:Hd; (split; [reflexivity|]); split; eauto; lia.
  - cbn [Delete.delete_loop fold_left concat].
    change (fold_left (Delete.delete_batch srv None total) batches ?x)
      with (Delete.delete_loop srv None total batches x).
    destruct (IH (Delete.delete_batch srv None total s batch)) as [Hnf Hsum].
    destruct (delete_batch_accounts srv total s batch) as [Hnf1 Hsum1].
    cbn zeta in *. rewrite length_app. split; [congruence|].
    destruct (snd (fst s)) as [|d].
    + destruct Hsum1 as [Hd1 He1]. rewrite Hd1 in Hsum.
      destruct Hsum as [Hd He]. split; [exact Hd | lia].
    + destruct Hsum1 as [[d1 Hd1] He1]. rewrite Hd1 in Hsum.
      destruct Hsum as [Hd He]. split; [exact Hd | lia].
Qed.

Lemma slices_concat (uids : list Z) (batch_size : Z) (starts : list nat) :
  0 < batch_size ->
  range (length uids) batch_size = Return starts ->
  concat (map (fun i => slice uids i batch_size) starts) = uids.
Proof.
  intros Hpos. unfold range.
  destruct (Z.eqb_spec batch_size 0) as [?|_]; [lia|].
  destruct (Z.ltb_spec batch_size 0) as [?|_]; [lia|].
  intros [= <-]. unfold slice.
  rewrite (range_loop_concat uids (Z.to_nat batch_size)) by lia. reflexivity.
Qed.

(** X13: with a positive batch size and no progress callback, a deletion
    run that returns never counts [not_found].  On a database file that
    has its tables it has counted every requested uid exactly once, under
    [deleted] or under [errors].  On a file without the tables, which
    [delete_emails] does not create, [mark_deleted] raises in every batch:
    every requested uid is counted under [errors], also those of the
    batches that were deleted remotely and are counted under [deleted] as
    well. *)
Theorem delete_emails_counts_every_uid (srv : server) (getenv : str -> option str)
  (uids : list Z) (batch_size : Z) (d : database) (s : Delete.stats) :
  0 < batch_size ->
  fst (fst (Delete.delete_emails srv getenv uids batch_size None d)) = Return s ->
  Delete.not_found s = 0 /\
  match d with
  | Tables _ => Delete.deleted s + Delete.errors s = Z.of_nat (length uids)
  | NoTables =>
      Delete.errors s = Z.of_nat (length uids) /\
      Delete.deleted s
      = total_size true (delete_emails_outcomes srv uids batch_size None NoTables)
  end.
Proof.
  intros Hpos Hret.
  assert (Hdeleted : Delete.deleted s
                     = total_size true (delete_emails_outcomes srv uids batch_size None d)).
  { revert Hret. unfold Delete.delete_emails, delete_emails_outcomes.
    destruct uids as [|u uids].
    - intros [= <-]. unfold range. cbn [length].
      destruct (Z.eqb_spec batch_size 0) as [?|_]; [lia|].
      destruct (Z.ltb_spec batch_size 0) as [?|_]; [lia|]. reflexivity.
    - destruct (load_config_from_env getenv); [|intros [=]].
      destruct (connect srv new_client) as [[[]|e] c]; [|intros [=]].
      cbn [fst snd].
      destruct (range (length (u :: uids)) batch_size) as [starts|e]; [|intros [=]].
      pose proof (delete_loop_deleted srv None (Z.of_nat (length (u :: uids)))
                    (map (fun i => slice (u :: uids) i batch_size) starts)
                    (Delete.zero_stats, d, c)) as Hd.
      destruct (Delete.delete_loop srv None _ _ _) as [[stats1 d1] c1].
      intros [= <-]. exact Hd. }
  revert Hret. unfold Delete.delete_emails.
  destruct uids as [|u uids].
  { intros [= <-]. split; [reflexivity|].
    destruct d; [split; [reflexivity | exact Hdeleted] | reflexivity]. }
  destruct (load_config_from_env getenv); [|intros [=]].
  destruct (connect srv new_client) as [[[]|e] c]; [|intros [=]].
  destruct (range (length (u :: uids)) batch_size) as [starts|e] eqn:Hr; [|intros [=]].
  pose proof (delete_loop_accounts srv (Z.of_nat (length (u :: uids)))
                (map (fun i => slice (u :: uids) i batch_size) starts)
                (Delete.zero_stats, d, c)) as Hacc.
  cbn zeta in Hacc. rewrite (slices_concat _ _ _ Hpos Hr) in Hacc.
  destruct (Delete.delete_loop srv None _ _ _) as [[stats1 d1] c1].
  cbn [fst snd] in *. intros [= <-]. unfold Delete.zero_stats in Hacc.
  cbn [Delete.deleted Delete.errors Delete.not_found] in Hacc.
  destruct Hacc as [Hnf Hsum]. split; [exact Hnf|].
  destruct d as [|d0].
  - destruct Hsum as [_ He]. split; [lia | exact Hdeleted].
  - destruct Hsum as [_ Hsum]. lia.
Qed.

Lemma delete_emails_counts_every_uid_witness :
  let srv := mailbox_server three_listed_two_fetched in
  fst (fst (Delete.delete_emails srv credentials [10; 20; 30] 2 None
              (Tables (db_with_cursor 30))))
  = Return {| Delete.deleted := 3; Delete.errors := 0; Delete.not_found := 0 |} /\
  fst (fst (Delete.delete_emails srv credentials [10; 20; 30] 2 None NoTables))
  = Return {| Delete.deleted := 3; Delete.errors := 3; Delete.not_found := 0 |} /\
  Delete.deleted {| Delete.deleted := 3; Delete.errors := 0; Delete.not_found := 0 |}
  + Delete.errors {| Delete.deleted := 3; Delete.errors := 0; Delete.not_found := 0 |}
  = Z.of_nat (length [10; 20; 30]).
Proof.
  split; [reflexivity|]. split; [reflexivity|].
  apply (delete_emails_counts_every_uid (mailbox_server three_listed_two_fetched)
           credentials [10; 20; 30] 2 (Tables (db_with_cursor 30))); [lia | reflexivity].
Defined.

Lemma succeeded_cons (batch : list Z) (ok : bool) (outcomes : list (list Z * bool)) :
  succeeded ((batch, ok) :: outcomes)
  = if ok then batch ++ succeeded outcomes else succeeded outcomes.
Proof.
  unfold succeeded. rewrite filter_cons. simpl.
  destruct ok; simpl.
  - destruct (decide (true = true)); [reflexivity | done].
  - destruct (decide (false = true)); [done | reflexivity].
Qed.

Lemma delete_batch_store (srv : server) (cb : option (Z -> Z -> result unit)) (total : Z)
  (stats0 : Delete.stats) (d : conn) (c : client) (batch : list Z) :
  snd (fst (Delete.delete_batch srv cb total (stats0, Tables d, c) batch))
  = Tables (if returns (fst (delete_messages srv c batch true))
            then mark_deleted d batch
            else d).
Proof.
  unfold Delete.delete_batch.
  destruct (delete_messages srv c batch true) as [[n|e] c1]; cbn [fst snd returns];
    [|reflexivity].
  cbn [mark_deleted_in]. destruct cb as [callback|]; [|reflexivity].
  destruct (callback _ total); reflexivity.
Qed.

Lemma delete_batch_no_tables (srv : server) (cb : option (Z -> Z -> result unit))
  (total : Z) (stats0 : Delete.stats) (c : client) (batch : list Z) :
  snd (fst (Delete.delete_batch srv cb total (stats0, NoTables, c) batch)) = NoTables.
Proof.
  unfold Delete.delete_batch.
  by destruct (delete_messages srv c batch true) as [[n|e] c1].
Qed.

Lemma delete_loop_no_tables (srv : server) (cb : option (Z -> Z -> result unit))
  (total : Z) (batches : list (list Z)) (stats0 : Delete.stats) (c : client) :
  snd (fst (Delete.delete_loop srv cb total batches (stats0, NoTables, c))) = NoTables.
Proof.
  revert stats0 c. induction batches as [|batch batches IH]; intros stats0 c;
    [reflexivity|].
  cbn [Delete.delete_loop fold_left].
  change (fold_left (Delete.delete_batch srv cb total) batches ?x)
    with (Delete.delete_loop srv cb total batches x).
  pose proof (delete_batch_no_tables srv cb total stats0 c batch) as Hb.
  destruct (Delete.delete_batch srv cb total (stats0, NoTables, c) batch) as [[stats1 d1] c1].
  cbn [fst snd] in Hb. subst d1. apply IH.
Qed.

Lemma delete_loop_store (srv : server) (cb : option (Z -> Z -> result unit)) (total : Z)
  (batches : list (list Z)) (stats0 : Delete.stats) (d : conn) (c : client) :
  let s := (stats0, Tables d, c) in
  let done := succeeded (batch_outcomes srv cb total batches s) in
  exists d' : conn,
    snd (fst (Delete.delete_loop srv cb total batches s)) = Tables d' /\
    get_deleted_uids d' = get_deleted_uids d ∪ list_to_set done /\
    (forall u, u ∈ done -> emails d' !! u = None) /\
    (forall u, u ∉ done -> emails d' !! u = emails d !! u) /\
    (forall u, emails d !! u = None -> emails d' !! u = None) /\
    sync_state d' = sync_state d.
Proof.
  revert stats0 d c. induction batches as [|batch batches IH]; intros stats0 d c.
  - exists d. cbn. unfold succeeded. cbn. repeat split; auto.
    + apply set_eq. intros x. rewrite elem_of_union, elem_of_empty. tauto.
    + intros u Hu. by apply elem_of_nil in Hu.
  - cbn zeta. cbn [Delete.delete_loop fold_left batch_outcomes snd].
    change (fold_left (Delete.delete_batch srv cb total) batches ?x)
      with (Delete.delete_loop srv cb total batches x).
    rewrite succeeded_cons.
    pose proof (delete_batch_store srv cb total stats0 d c batch) as Hb.
    destruct (Delete.delete_batch srv cb total (stats0, Tables d, c) batch)
      as [[stats1 f1] c1].
    cbn [fst snd] in Hb. subst f1.
    destruct (returns (fst (delete_messages srv c batch true))).
    + destruct (IH stats1 (mark_deleted d batch) c1)
        as (d' & Hd' & Hdel & Hin & Hout & Hnone & Hss).
      cbn zeta in *. exists d'. split; [exact Hd'|].
      destruct (mark_deleted_effect d batch) as (Md & Min & Mout & Mss).
      rewrite Hdel, Md, Hss, Mss. split; [|split; [|split; [|split]]].
      * rewrite list_to_set_app_L. apply set_eq. intros x.
        rewrite !elem_of_union. tauto.
      * intros u Hu. apply elem_of_app in Hu as [Hu | Hu]; [|by apply Hin].
        apply Hnone, Min, Hu.
      * intros u Hu. rewrite elem_of_app in Hu.
        rewrite Hout by tauto. apply Mout. tauto.
      * intros u Hu. apply Hnone.
        destruct (decide (u ∈ batch)) as [Hb | Hb]; [by apply Min|].
        by rewrite (Mout u Hb).
      * reflexivity.
    + exact (IH stats1 d c1).
Qed.

(** X14: when a deletion run on a database file that has its tables
    returns, the tombstones are the old ones together with the uids of the
    batches on which [delete_messages] returned, the records of exactly
    those uids are gone, every other record and the sync state are as they
    were.  A file without the tables, which [delete_emails] does not
    create, is left without them: no tombstone is written, whatever was
    deleted remotely. *)
Theorem delete_emails_updates_the_store (srv : server) (getenv : str -> option str)
  (uids : list Z) (batch_size : Z) (progress_callback : option (Z -> Z -> result unit))
  (d : database) (s : Delete.stats) :
  let run := Delete.delete_emails srv getenv uids batch_size progress_callback d in
  let done := succeeded (delete_emails_outcomes srv uids batch_size progress_callback d) in
  fst (fst run) = Return s ->
  match d with
  | NoTables => snd (fst run) = NoTables
  | Tables d0 =>
      exists d1 : conn,
        snd (fst run) = Tables d1 /\
        get_deleted_uids d1 = get_deleted_uids d0 ∪ list_to_set done /\
        (forall u, u ∈ done -> emails d1 !! u = None) /\
        (forall u, u ∉ done -> emails d1 !! u = emails d0 !! u) /\
        sync_state d1 = sync_state d0
  end.
Proof.
  intros run done. subst run done.
  unfold Delete.delete_emails, delete_emails_outcomes.
  destruct uids as [|u uids].
  - intros _. cbn [fst snd].
    assert (Hnil : succeeded match range (length (@nil Z)) batch_size with
                             | Return starts =>
                                 batch_outcomes srv progress_callback
                                   (Z.of_nat (length (@nil Z)))
                                   (map (fun i => slice [] i batch_size) starts)
                                   (Delete.zero_stats, d, snd (connect srv new_client))
                             | Raise _ => []
                             end = []).
    { unfold range. simpl. destruct (batch_size =? 0); [reflexivity|].
      destruct (batch_size <? 0); reflexivity. }
    rewrite Hnil. destruct d as [|d0]; [reflexivity|].
    exists d0. repeat split; auto.
    + apply set_eq. intros x. rewrite elem_of_union. simpl. rewrite elem_of_empty. tauto.
    + intros x Hx. by apply elem_of_nil in Hx.
  - destruct (load_config_from_env getenv); [|intros [=]].
    destruct (connect srv new_client) as [[[]|e] c]; [|intros [=]].
    cbn [fst snd].
    destruct (range (length (u :: uids)) batch_size) as [starts|e]; [|intros [=]].
    destruct d as [|d0].
    + pose proof (delete_loop_no_tables srv progress_callback
                    (Z.of_nat (length (u :: uids)))
                    (map (fun i => slice (u :: uids) i batch_size) starts)
                    Delete.zero_stats c) as Hno.
      destruct (Delete.delete_loop srv progress_callback _ _ _) as [[stats1 d1] c1].
      intros _. exact Hno.
    + pose proof (delete_loop_store srv progress_callback (Z.of_nat (length (u :: uids)))
                    (map (fun i => slice (u :: uids) i batch_size) starts)
                    Delete.zero_stats d0 c) as Hst.
      cbn zeta in Hst.
      destruct (Delete.delete_loop srv progress_callback _ _ _) as [[stats1 d1] c1].
      cbn [fst snd] in *. intros _.
      destruct Hst as (d' & Hd' & H1 & H2 & H3 & _ & H5). exists d'. auto.
Qed.

Lemma delete_emails_updates_the_store_witness :
  let srv := mailbox_server three_listed_two_fetched in
  let d := snd (fst (fetch_all srv plain_lib credentials 100 None true empty_db)) in
  let run := Delete.delete_emails srv credentials [20] 50 None (Tables d) in
  emails d !! 20 <> None /\
  exists d1 : conn,
    snd (fst run) = Tables d1 /\
    get_deleted_uids d1 = get_deleted_uids d ∪ {[ 20 ]} /\
    emails d1 !! 20 = None /\
    emails d1 !! 10 = emails d !! 10 /\
    sync_state d1 = sync_state d.
Proof.
  intros srv d run. split; [vm_compute; discriminate|].
  destruct (delete_emails_updates_the_store (mailbox_server three_listed_two_fetched)
              credentials [20] 50 None (Tables d)
              {| Delete.deleted := 1; Delete.errors := 0; Delete.not_found := 0 |}
              eq_refl) as (d1 & Hd1 & H1 & H2 & H3 & H4).
  assert (Hdone : succeeded (delete_emails_outcomes (mailbox_server three_listed_two_fetched)
                              [20] 50 None (Tables d)) = [20]) by reflexivity.
  rewrite Hdone in H1, H2, H3.
  exists d1. split; [exact Hd1|]. split.
  - rewrite H1. apply set_eq. intros x. rewrite !elem_of_union, elem_of_list_to_set.
    rewrite list_elem_of_singleton, elem_of_singleton. tauto.
  - split; [apply H2, list_elem_of_here|]. split; [|exact H4].
    apply H3. intros Hin. apply list_elem_of_singleton in Hin. discriminate.
Defined.

Lemma sends_only_delete_messages (P : command -> Prop) (srv : server) (c : client)
  (uids : list Z) (expunge : bool) :
  P SELECT -> P (UID_STORE_DELETED uids) -> P EXPUNGE -> P EXAMINE ->
  sends_only P c -> sends_only P (snd (delete_messages srv c uids expunge)).
Proof.
  intros Hsel Hsto Hexp Hexa Hc. unfold delete_messages.
  destruct uids as [|u uids]; [exact Hc|].
  pose proof (sends_only_select P srv c false Hsel Hc) as H1.
  destruct (_select_all_mail srv c false) as [[k|e] c1]; cbn [fst snd] in *; [|exact H1].
  destruct (on_store srv (sent c1) (u :: uids)) as [[|]|e]; try sends_only_tac.
  assert (H2 : sends_only P (send c1 (UID_STORE_DELETED (u :: uids)))) by sends_only_tac.
  destruct expunge.
  - destruct (on_expunge srv _) as [[]|e]; [|sends_only_tac].
    pose proof (sends_only_select P srv
                  (send (send c1 (UID_STORE_DELETED (u :: uids))) EXPUNGE) true Hexa) as H3.
    destruct (_select_all_mail srv _ true) as [[k'|e] c4]; cbn [fst snd] in *;
      apply H3; sends_only_tac.
  - pose proof (sends_only_select P srv (send c1 (UID_STORE_DELETED (u :: uids))) true Hexa)
      as H3.
    destruct (_select_all_mail srv _ true) as [[k'|e] c4]; cbn [fst snd] in *;
      apply H3; sends_only_tac.
Qed.

Lemma sends_only_delete_loop (P : command -> Prop) (srv : server)
  (cb : option (Z -> Z -> result unit)) (total : Z) (batches : list (list Z))
  (s : Delete.stats * database * client) :
  P SELECT -> P EXPUNGE -> P EXAMINE ->
  Forall (fun batch => P (UID_STORE_DELETED batch)) batches ->
  sends_only P (snd s) ->
  sends_only P (snd (Delete.delete_loop srv cb total batches s)).
Proof.
  intros Hsel Hexp Hexa Hb. revert s.
  induction Hb as [|batch batches Hbatch _ IH]; intros s Hs; [exact Hs|].
  cbn [Delete.delete_loop fold_left]. apply IH.
  destruct s as [[stats0 d] c]. cbn [snd] in *. unfold Delete.delete_batch.
  pose proof (sends_only_delete_messages P srv c batch true Hsel Hbatch Hexp Hexa Hs) as Hd.
  destruct (delete_messages srv c batch true) as [[n|e] c1]; cbn [fst snd] in *;
    [|exact Hd].
  destruct (mark_deleted_in d batch) as [d1|e]; [|exact Hd].
  destruct cb as [callback|]; [|exact Hd].
  destruct (callback _ total); exact Hd.
Qed.

Lemma sends_only_delete_emails (P : command -> Prop) (srv : server)
  (getenv : str -> option str) (uids : list Z) (batch_size : Z)
  (progress_callback : option (Z -> Z -> result unit)) (d : database) :
  P LOGIN -> P EXAMINE -> P SELECT -> P EXPUNGE -> P CLOSE -> P LOGOUT ->
  (forall batch, Forall (fun u => u ∈ uids) batch -> P (UID_STORE_DELETED batch)) ->
  sends_only P (snd (Delete.delete_emails srv getenv uids batch_size progress_callback d)).
Proof.
  intros Hlogin Hexa Hsel Hexp Hclose Hlogout Hstore.
  assert (H0 : sends_only P new_client) by constructor.
  unfold Delete.delete_emails.
  destruct uids as [|u uids]; [exact H0|].
  destruct (load_config_from_env getenv); [|exact H0].
  pose proof (sends_only_connect P srv new_client Hlogin Hexa H0) as Hcon.
  destruct (connect srv new_client) as [[[]|e] c]; cbn [fst snd] in *; [|exact Hcon].
  assert (Hdis : forall c0, sends_only P c0 -> sends_only P (disconnect srv c0)).
  { intros c0 Hc0. by apply sends_only_disconnect. }
  destruct (range (length (u :: uids)) batch_size) as [starts|e]; cbn [snd];
    [|by apply Hdis].
  pose proof (sends_only_delete_loop P srv progress_callback
                (Z.of_nat (length (u :: uids)))
                (map (fun i => slice (u :: uids) i batch_size) starts)
                (Delete.zero_stats, d, c) Hsel Hexp Hexa) as Hloop.
  destruct (Delete.delete_loop srv progress_callback _ _ _) as [[stats1 d1] c1].
  cbn [fst snd] in *. apply Hdis, Hloop; [|exact Hcon].
  apply Forall_forall. intros batch Hb.
  apply list_elem_of_fmap in Hb as (i & -> & _). apply Hstore.
  unfold slice. apply Forall_take, Forall_drop, Forall_forall. auto.
Qed.

(** X15: a deletion run marks nothing it was not asked to: every STORE it
    sends names only uids of the list it was given. *)
Theorem delete_emails_stores_only_requested_uids (srv : server)
  (getenv : str -> option str) (uids : list Z) (batch_size : Z)
  (progress_callback : option (Z -> Z -> result unit)) (d : database) (marked : list Z) :
  UID_STORE_DELETED marked
    ∈ sent (snd (Delete.delete_emails srv getenv uids batch_size progress_callback d)) ->
  Forall (fun u => u ∈ uids) marked.
Proof.
  set (P := fun cmd => forall us, cmd = UID_STORE_DELETED us -> Forall (fun u => u ∈ uids) us).
  assert (H : sends_only P
                (snd (Delete.delete_emails srv getenv uids batch_size progress_callback d))).
  { apply sends_only_delete_emails; try (intros us; discriminate).
    by intros batch Hb us [= <-]. }
  intros Hin. unfold sends_only in H. rewrite Forall_forall in H.
  exact (H _ Hin marked eq_refl).
Qed.

Lemma delete_emails_stores_only_requested_uids_witness :
  Forall (fun u => u ∈ [10; 20; 30]) [10; 20].
Proof.
  apply (delete_emails_stores_only_requested_uids
           (mailbox_server three_listed_two_fetched) credentials [10; 20; 30] 2 None
           (Tables (db_with_cursor 30)) [10; 20]).
  vm_compute. do 8 apply list_elem_of_further. apply list_elem_of_here.
Defined.

(** ** Deletion followed by a sync run *)

Lemma fetch_all_fetches_only (srv : server) (lib : email_lib)
  (getenv : str -> option str) (batch_size : Z)
  (cb : option (Z -> Z -> Z -> result unit)) (incremental : bool) (d : conn) :
  fetches_only (fun uid => uid ∉ get_deleted_uids d)
    (snd (fetch_all srv lib getenv batch_size cb incremental d)).
Proof.
  assert (H0 : fetches_only (fun uid => uid ∉ get_deleted_uids d) new_client).
  { intros uids Hin. simpl in Hin. by apply elem_of_nil in Hin. }
  unfold fetch_all.
  destruct (load_config_from_env getenv); [|exact H0].
  pose proof (fetches_only_connect _ srv new_client H0) as Hc.
  destruct (connect srv new_client) as [[[]|e] c]; cbn [fst snd] in *; [|exact Hc].
  pose proof (fetches_only_session srv lib batch_size cb incremental (init_db d) c) as Hs.
  cbn zeta in Hs. rewrite get_deleted_uids_init_db in Hs. specialize (Hs Hc).
  destruct (fetch_all_session _ _ _ _ _ _ _) as [[r d2] c1]. cbn [fst snd] in *.
  apply fetches_only_disconnect, Hs.
Qed.

Lemma delete_emails_tombstones (srv : server) (getenv : str -> option str)
  (uids : list Z) (batch_size : Z) (cb : option (Z -> Z -> result unit)) (d0 d1 : conn) :
  returns (fst (fst (Delete.delete_emails srv getenv uids batch_size cb (Tables d0))))
  = true ->
  snd (fst (Delete.delete_emails srv getenv uids batch_size cb (Tables d0))) = Tables d1 ->
  forall u, u ∈ succeeded (delete_emails_outcomes srv uids batch_size cb (Tables d0)) ->
            u ∈ get_deleted_uids d1.
Proof.
  unfold Delete.delete_emails, delete_emails_outcomes.
  destruct uids as [|u0 uids].
  - intros _ _ u Hu. exfalso. revert Hu. unfold range. simpl.
    destruct (batch_size =? 0); [intros Hu; by apply elem_of_nil in Hu|].
    destruct (batch_size <? 0); intros Hu; by apply elem_of_nil in Hu.
  - destruct (load_config_from_env getenv); [|intros [=]].
    destruct (connect srv new_client) as [[[]|e] c]; [|intros [=]].
    cbn [fst snd].
    destruct (range (length (u0 :: uids)) batch_size) as [starts|e]; [|intros [=]].
    pose proof (delete_loop_store srv cb (Z.of_nat (length (u0 :: uids)))
                  (map (fun i => slice (u0 :: uids) i batch_size) starts)
                  Delete.zero_stats d0 c) as Hst.
    cbn zeta in Hst.
    destruct (Delete.delete_loop srv cb _ _ _) as [[stats1 f1] c1].
    cbn [fst snd] in *. intros _ Hf1 u Hu. destruct Hst as (d' & Hd' & Hdel & _).
    rewrite Hf1 in Hd'. injection Hd' as <-. rewrite Hdel.
    apply elem_of_union_r, elem_of_list_to_set, Hu.
Qed.

(** X16: what a deletion run has removed is never fetched again, when the
    database file had its tables (a sync run or [init_db] made them)
    before the deletion: after a deletion run that returned, no sync run on
    the database it left, against any server and in either mode, sends a
    FETCH that names a uid of a batch on which [delete_messages]
    returned. *)
Theorem deleted_uids_are_not_fetched_again (srv1 srv2 : server) (lib : email_lib)
  (getenv1 getenv2 : str -> option str) (uids : list Z) (batch_size1 batch_size2 : Z)
  (cb1 : option (Z -> Z -> result unit)) (cb2 : option (Z -> Z -> Z -> result unit))
  (incremental : bool) (d0 d1 : conn) (requested : list Z) :
  let deletion := Delete.delete_emails srv1 getenv1 uids batch_size1 cb1 (Tables d0) in
  returns (fst (fst deletion)) = true ->
  snd (fst deletion) = Tables d1 ->
  UID_FETCH requested
    ∈ sent (snd (fetch_all srv2 lib getenv2 batch_size2 cb2 incremental d1)) ->
  Forall (fun u => u ∉ succeeded (delete_emails_outcomes srv1 uids batch_size1 cb1
                                    (Tables d0)))
    requested.
Proof.
  intros deletion Hret Hd1 Hin. subst deletion.
  pose proof (fetch_all_fetches_only srv2 lib getenv2 batch_size2 cb2 incremental _
                requested Hin) as Hf.
  eapply Forall_impl; [exact Hf|]. intros u Hu Hdone. apply Hu.
  by eapply delete_emails_tombstones.
Qed.

Lemma deleted_uids_are_not_fetched_again_witness :
  let srv := mailbox_server three_listed_two_fetched in
  let d := snd (fst (fetch_all srv plain_lib credentials 100 None true empty_db)) in
  succeeded (delete_emails_outcomes srv [20] 50 None (Tables d)) = [20] /\
  Forall (fun u => u ∉ succeeded (delete_emails_outcomes srv [20] 50 None (Tables d)))
    [10; 30].
Proof.
  intros srv d. split; [reflexivity|].
  apply (deleted_uids_are_not_fetched_again
           (mailbox_server three_listed_two_fetched)
           (mailbox_server three_listed_two_fetched) plain_lib credentials credentials
           [20] 50 100 None None false d
           (mark_deleted d [20]) [10; 30]).
  - reflexivity.
  - reflexivity.
  - vm_compute. do 3 apply list_elem_of_further. apply list_elem_of_here.
Defined.

(** Without the tables the property fails: the deletion of uid 20 on a
    new database file returns and writes no tombstone, and the first sync
    run, which creates the tables, fetches 20 again. *)
Example deleted_without_tables_is_fetched_again :
  let srv := mailbox_server three_listed_two_fetched in
  let deletion := Delete.delete_emails srv credentials [20] 50 None NoTables in
  deletion
  = (Return {| Delete.deleted := 1; Delete.errors := 1; Delete.not_found := 0 |},
     NoTables,
     {| sent := [LOGOUT; CLOSE; EXAMINE; EXPUNGE; UID_STORE_DELETED [20]; SELECT;
                 EXAMINE; LOGIN];
        mode := NotSelected |}) /\
  sent (snd (fetch_all srv plain_lib credentials 100 None true empty_db))
  = [LOGOUT; CLOSE; STATUS_UIDNEXT; UID_FETCH [10; 20; 30]; UID_SEARCH_ALL; EXAMINE; LOGIN].
Proof. split; reflexivity. Qed.

(** ** fetch.py: the sample fetch *)

Import Sample.

Lemma sorted_descending_spec (l : list Z) :
  StronglySorted (flip Z.le) (sorted_descending l) /\
  (forall u, u ∈ sorted_descending l <-> u ∈ l).
Proof.
  unfold sorted_descending, sorted. split.
  - apply Sorted_StronglySorted; [intros x y z; unfold flip; lia|].
    apply Sorted_reverse, Sorted_merge_sort. apply _.
  - intros u. rewrite elem_of_reverse, merge_sort_Permutation. reflexivity.
Qed.

(** The first [k] of a descending list are its largest elements. *)
Lemma take_descending (k : nat) (l : list Z) :
  StronglySorted (flip Z.le) l ->
  StronglySorted (flip Z.le) (take k l) /\
  (forall v, v ∈ l -> v ∈ take k l \/ Forall (fun u => v <= u) (take k l)).
Proof.
  intros Hs. rewrite <- (take_drop k l) in Hs.
  apply StronglySorted_app in Hs as (Hcross & Hl & _).
  split; [exact Hl|]. intros v Hv.
  rewrite <- (take_drop k l) in Hv. apply elem_of_app in Hv as [Hv | Hv]; [auto|].
  right. apply Forall_forall. intros u Hu. exact (Hcross u v Hu Hv).
Qed.

Lemma parse_headers_uid (lib : email_lib) (raw : bytes) (sz u : Z) (r : email_record) :
  parse_headers lib raw sz u = Return r -> record_uid r = u.
Proof.
  intros Hr. destruct (message_from_bytes lib raw) as [msg|e] eqn:Hmsg.
  - pose proof (parse_headers_cases lib raw sz u msg Hmsg) as H.
    destruct (default (Text "") (msg "Message-ID")) as [id|h]; [|congruence].
    destruct H as (r' & Hr' & Hu & _). congruence.
  - unfold parse_headers in Hr. rewrite Hmsg in Hr. discriminate.
Qed.

Lemma parse_each_uids (lib : email_lib) (items : list (Z * header_data))
  (results : list email_record) :
  parse_each lib items = Return results -> record_uid <$> results = fst <$> items.
Proof.
  revert results. induction items as [|[u data] items IH]; intros results; simpl.
  - by intros [= <-].
  - destruct (parse_headers lib (headers data) (size data) u) as [e|] eqn:He; simpl;
      [|discriminate].
    destruct (parse_each lib items) as [rest|]; simpl; [|discriminate].
    intros [= <-]. rewrite fmap_cons, (IH rest eq_refl), (parse_headers_uid _ _ _ _ _ He).
    reflexivity.
Qed.

Lemma fetch_headers_keys (srv : server) (c : client) (uids : list Z)
  (batch : list (Z * header_data)) (c' : client) :
  fetch_headers srv c uids = (Return batch, c') -> NoDup (fst <$> batch).
Proof.
  unfold fetch_headers. destruct uids as [|u uids].
  - intros [= <- _]. constructor.
  - destruct (on_fetch srv (sent c) (u :: uids)) as [[[|] data]|e]; intros [= <- _].
    unfold _parse_fetch_response.
    by destruct (parse_items_spec data [] (NoDup_nil_2)) as (H1 & _).
Qed.

Lemma sends_only_fetch_sample (P : command -> Prop) (srv : server) (lib : email_lib)
  (getenv : str -> option str) (count : Z) :
  P LOGIN -> P EXAMINE -> P UID_SEARCH_ALL -> P CLOSE -> P LOGOUT ->
  (forall (h : history) (listed : list Z),
     on_search srv h = Return (OK, Return listed) ->
     P (UID_FETCH (prefix (sorted_descending (sorted listed)) count))) ->
  sends_only P (snd (fetch_sample srv lib getenv count)).
Proof.
  intros Hlogin Hexa Hsearch Hclose Hlogout Hfetch.
  assert (H0 : sends_only P new_client) by constructor.
  assert (Hdis : forall c, sends_only P c -> sends_only P (disconnect srv c)).
  { intros c Hc. by apply sends_only_disconnect. }
  unfold fetch_sample.
  destruct (load_config_from_env getenv); [|exact H0].
  pose proof (sends_only_connect P srv new_client Hlogin Hexa H0) as Hcon.
  destruct (connect srv new_client) as [[[]|e] c]; cbn [fst snd] in *; [|exact Hcon].
  assert (Hc1 : sends_only P (send c UID_SEARCH_ALL)) by (by apply sends_only_send).
  unfold search_all.
  destruct (on_search srv (sent c)) as [[[|] [listed|e]]|e] eqn:Hlisted;
    cbn [bind fst snd]; try (by apply Hdis).
  pose proof (sends_only_fetch_headers P srv (send c UID_SEARCH_ALL)
                (prefix (sorted_descending (sorted listed)) count)
                (Hfetch _ _ Hlisted) Hc1) as Hfh.
  destruct (fetch_headers srv (send c UID_SEARCH_ALL) _) as [[batch|e] c2];
    cbn [fst snd] in *; by apply Hdis.
Qed.

Lemma fetch_sample_results (srv : server) (lib : email_lib) (getenv : str -> option str)
  (count : Z) (results : list email_record) :
  fst (fetch_sample srv lib getenv count) = Return results ->
  NoDup (record_uid <$> results).
Proof.
  unfold fetch_sample.
  destruct (load_config_from_env getenv); [|intros [=]].
  destruct (connect srv new_client) as [[[]|e] c]; cbn [fst snd]; [|intros [=]].
  destruct (search_all srv c) as [[uids|e] c1]; cbn [fst snd]; [|intros [=]].
  pose proof (fetch_headers_keys srv c1 (prefix (sorted_descending uids) count)) as Hkeys.
  destruct (fetch_headers srv c1 _) as [[batch|e] c2]; cbn [fst snd]; [|intros [=]].
  intros Hres. rewrite (parse_each_uids lib batch results Hres). by eapply Hkeys.
Qed.

(** X17: [fetch_sample].  Whatever the server answers and however the run
    ends, also when no FETCH is sent, the run sends nothing that alters the
    mailbox, and the records it returns have pairwise different uids.
    With a count that is not negative, every FETCH it sends names at most
    [count] uids, all of them listed by the server, in descending order,
    and they are the most recent ones: every listed uid that is left out
    is at most every uid that is asked for. *)
Theorem fetch_sample_asks_for_the_most_recent (srv : server) (lib : email_lib)
  (getenv : str -> option str) (count : Z) :
  Forall (fun cmd => is_query cmd = true) (sent (snd (fetch_sample srv lib getenv count))) /\
  (forall results, fst (fetch_sample srv lib getenv count) = Return results ->
     NoDup (record_uid <$> results)) /\
  (0 <= count ->
   forall requested : list Z,
     UID_FETCH requested ∈ sent (snd (fetch_sample srv lib getenv count)) ->
     exists (h : history) (listed : list Z),
       on_search srv h = Return (OK, Return listed) /\
       Z.of_nat (length requested) <= count /\
       (forall u, u ∈ requested -> u ∈ listed) /\
       StronglySorted (flip Z.le) requested /\
       (forall v, v ∈ listed -> v ∈ requested \/ Forall (fun u => v <= u) requested)).
Proof.
  split; [|split].
  - by apply (sends_only_fetch_sample (fun cmd => is_query cmd = true)).
  - apply fetch_sample_results.
  - intros Hcount.
    set (Q := fun us : list Z =>
      exists (h : history) (listed : list Z),
        on_search srv h = Return (OK, Return listed) /\
        Z.of_nat (length us) <= count /\
        (forall u, u ∈ us -> u ∈ listed) /\
        StronglySorted (flip Z.le) us /\
        (forall v, v ∈ listed -> v ∈ us \/ Forall (fun u => v <= u) us)).
    assert (Hsends : sends_only (fun cmd => forall us, cmd = UID_FETCH us -> Q us)
                       (snd (fetch_sample srv lib getenv count))).
    { apply sends_only_fetch_sample; try (intros us; discriminate).
      intros h listed Hlisted us [= <-].
      exists h, listed. split; [exact Hlisted|].
      unfold prefix.
      destruct (Z.ltb_spec count 0) as [?|_]; [lia|].
      destruct (sorted_descending_spec (sorted listed)) as [Hsorted Hmem].
      destruct (take_descending (Z.to_nat count) _ Hsorted) as [Hs Htop].
      split; [rewrite length_take; lia|]. split; [|split; [exact Hs|]].
      - intros u Hu. apply subseteq_take in Hu. apply Hmem in Hu.
        unfold sorted in Hu. by rewrite merge_sort_Permutation in Hu.
      - intros v Hv. apply Htop, Hmem. unfold sorted.
        by rewrite merge_sort_Permutation. }
    unfold sends_only in Hsends. rewrite Forall_forall in Hsends.
    intros requested Hin. exact (Hsends _ Hin requested eq_refl).
Qed.

Lemma fetch_sample_asks_for_the_most_recent_witness :
  let run := fetch_sample (mailbox_server unordered_listing) plain_lib credentials 2 in
  UID_FETCH [30; 20] ∈ sent (snd run) /\
  (exists (h : history) (listed : list Z),
     on_search (mailbox_server unordered_listing) h = Return (OK, Return listed) /\
     Z.of_nat (length [30; 20]) <= 2 /\
     (forall u, u ∈ [30; 20] -> u ∈ listed) /\
     StronglySorted (flip Z.le) [30; 20] /\
     (forall v, v ∈ listed -> v ∈ [30; 20] \/ Forall (fun u => v <= u) [30; 20])) /\
  Forall (fun cmd => is_query cmd = true) (sent (snd run)).
Proof.
  intros run.
  assert (Hin : UID_FETCH [30; 20] ∈ sent (snd run)).
  { vm_compute. do 2 apply list_elem_of_further. apply list_elem_of_here. }
  destruct (fetch_sample_asks_for_the_most_recent (mailbox_server unordered_listing)
              plain_lib credentials 2) as (Hquery & _ & Hfetch).
  split; [exact Hin|]. split; [exact (Hfetch ltac:(lia) [30; 20] Hin) | exact Hquery].
Defined.

(** ** delete.py: reading the uids and the dry run *)

Lemma append_cons (c : ascii) (a b : str) :
  (String c a ++ b)%string = String c (a ++ b)%string.
Proof. reflexivity. Qed.

Lemma append_nil_l (a : str) : ("" ++ a)%string = a.
Proof. reflexivity. Qed.

Lemma append_nil_r (a : str) : (a ++ "")%string = a.
Proof. induction a as [|c a IH]; [reflexivity|]. by rewrite append_cons, IH. Qed.

Lemma append_assoc (a b c : str) : ((a ++ b) ++ c)%string = (a ++ (b ++ c))%string.
Proof. induction a as [|x a IH]; [reflexivity|]. by rewrite !append_cons, IH. Qed.

Lemma space_is_no_comma (c : ascii) :
  Dryrun.is_space c = true -> Ascii.eqb c "," = false.
Proof.
  intros Hc. destruct (Ascii.eqb_spec c ",") as [->|_]; [|reflexivity].
  vm_compute in Hc. discriminate.
Qed.

Lemma separator_becomes_space (c : ascii) :
  is_separator c = true ->
  Dryrun.is_space (if Ascii.eqb c "," then " "%char else c) = true.
Proof.
  unfold is_separator. destruct (Ascii.eqb c ","); [reflexivity|].
  by rewrite orb_false_r.
Qed.

Lemma token_char_stays (c : ascii) :
  is_separator c = false ->
  (if Ascii.eqb c "," then " "%char else c) = c /\ Dryrun.is_space c = false.
Proof.
  unfold is_separator. intros [Hs Hc]%orb_false_elim. by rewrite Hc.
Qed.

Lemma split_from_token (t w rest : str) :
  all_chars (fun c => negb (is_separator c)) t = true ->
  Dryrun.split_from w (Dryrun.commas_to_spaces (t ++ rest)%string)
  = Dryrun.split_from (w ++ t)%string (Dryrun.commas_to_spaces rest).
Proof.
  revert w. induction t as [|c t IH]; intros w Ht.
  - by rewrite append_nil_r.
  - cbn [all_chars] in Ht. apply andb_true_iff in Ht as [Hc Ht].
    apply negb_true_iff, token_char_stays in Hc as [Hconv Hsp].
    rewrite ?append_cons, ?append_nil_l. cbn [Dryrun.commas_to_spaces Dryrun.split_from].
    rewrite Hconv, Hsp, (IH _ Ht), append_assoc. reflexivity.
Qed.

Lemma split_from_separators (sep rest : str) :
  all_chars is_separator sep = true ->
  Dryrun.split_from "" (Dryrun.commas_to_spaces (sep ++ rest)%string)
  = Dryrun.split_from "" (Dryrun.commas_to_spaces rest).
Proof.
  induction sep as [|c sep IH]; intros Hsep; [reflexivity|].
  cbn [all_chars] in Hsep. apply andb_true_iff in Hsep as [Hc Hsep].
  rewrite ?append_cons, ?append_nil_l. cbn [Dryrun.commas_to_spaces Dryrun.split_from].
  rewrite (separator_becomes_space c Hc). by apply IH.
Qed.

Lemma split_from_after_token (sep w rest : str) :
  all_chars is_separator sep = true -> w <> EmptyString ->
  (rest <> EmptyString -> sep <> EmptyString) ->
  Dryrun.split_from w (Dryrun.commas_to_spaces (sep ++ rest)%string)
  = w :: Dryrun.split_from "" (Dryrun.commas_to_spaces rest).
Proof.
  intros Hsep Hw Hne. destruct sep as [|c sep].
  - destruct rest as [|x rest]; [|by destruct Hne].
    cbn. by destruct w.
  - cbn [all_chars] in Hsep. apply andb_true_iff in Hsep as [Hc Hsep].
    rewrite ?append_cons, ?append_nil_l. cbn [Dryrun.commas_to_spaces Dryrun.split_from].
    rewrite (separator_becomes_space c Hc), (split_from_separators sep rest Hsep).
    by destruct w.
Qed.

Lemma join_tokens_nil (items : list (str * str)) :
  well_separated items = true -> join_tokens items = EmptyString -> items = [].
Proof.
  destruct items as [|[t sep] rest]; [reflexivity|].
  cbn [well_separated join_tokens]. unfold is_token.
  destruct t; [discriminate | discriminate].
Qed.

Lemma split_join_tokens (items : list (str * str)) :
  well_separated items = true ->
  Dryrun.split_from "" (Dryrun.commas_to_spaces (join_tokens items)) = fst <$> items.
Proof.
  induction items as [|[t sep] rest IH]; intros Hw; [reflexivity|].
  pose proof (join_tokens_nil rest) as Hnil.
  cbn [well_separated] in Hw.
  apply andb_true_iff in Hw as [Hw Hrest].
  apply andb_true_iff in Hw as [Hw Hne].
  apply andb_true_iff in Hw as [Ht Hsep].
  unfold is_token in Ht. apply andb_true_iff in Ht as [Ht0 Ht].
  cbn [join_tokens]. rewrite (split_from_token t "" _ Ht).
  rewrite append_nil_l.
  rewrite (split_from_after_token sep t (join_tokens rest) Hsep).
  - by rewrite (IH Hrest).
  - intros ->. discriminate.
  - intros Hj ->. destruct rest as [|p rest']; [|discriminate].
    by apply Hj.
Qed.

Lemma split_lstrip (s : str) :
  Dryrun.split_from "" (Dryrun.commas_to_spaces (Dryrun.lstrip s))
  = Dryrun.split_from "" (Dryrun.commas_to_spaces s).
Proof.
  induction s as [|c s IH]; [reflexivity|].
  cbn [Dryrun.lstrip]. destruct (Dryrun.is_space c) eqn:Hc; [|reflexivity].
  cbn [Dryrun.commas_to_spaces Dryrun.split_from].
  by rewrite (space_is_no_comma c Hc), Hc.
Qed.

Lemma split_rstrip (s w : str) :
  Dryrun.split_from w (Dryrun.commas_to_spaces (Dryrun.rstrip s))
  = Dryrun.split_from w (Dryrun.commas_to_spaces s).
Proof.
  revert w. induction s as [|c s IH]; intros w; [reflexivity|].
  cbn [Dryrun.rstrip]. destruct (Dryrun.rstrip s) as [|x r] eqn:Hr.
  - destruct (Dryrun.is_space c) eqn:Hc.
    + cbn [Dryrun.commas_to_spaces Dryrun.split_from].
      rewrite (space_is_no_comma c Hc), Hc, <- (IH EmptyString).
      by destruct w.
    + cbn [Dryrun.commas_to_spaces Dryrun.split_from].
      destruct (Dryrun.is_space (if Ascii.eqb c "," then " "%char else c));
        rewrite <- ?IH; reflexivity.
  - cbn [Dryrun.commas_to_spaces Dryrun.split_from] in *.
    destruct (Dryrun.is_space (if Ascii.eqb c "," then " "%char else c));
      rewrite <- ?IH; reflexivity.
Qed.

Lemma split_strip (s : str) :
  Dryrun.split (Dryrun.commas_to_spaces (Dryrun.strip s))
  = Dryrun.split (Dryrun.commas_to_spaces s).
Proof. unfold Dryrun.split, Dryrun.strip. by rewrite split_rstrip, split_lstrip. Qed.

Lemma lstrip_blank (ws rest : str) :
  all_chars Dryrun.is_space ws = true -> Dryrun.lstrip (ws ++ rest)%string = Dryrun.lstrip rest.
Proof.
  induction ws as [|c ws IH]; intros Hws; [reflexivity|].
  cbn [all_chars] in Hws. apply andb_true_iff in Hws as [Hc Hws].
  rewrite ?append_cons, ?append_nil_l. cbn [Dryrun.lstrip]. rewrite Hc. by apply IH.
Qed.

Lemma rstrip_head (c : ascii) (s : str) :
  Dryrun.is_space c = false -> exists r, Dryrun.rstrip (String c s) = String c r.
Proof.
  intros Hc. cbn [Dryrun.rstrip]. rewrite Hc. destruct (Dryrun.rstrip s); eauto.
Qed.

(** The first character that [strip] leaves of separators followed by a
    token. *)
Lemma strip_head (leading : str) (c : ascii) (rest : str) :
  all_chars is_separator leading = true -> is_separator c = false ->
  exists x r, Dryrun.strip (leading ++ String c rest)%string = String x r /\
              (x = c \/ x = ","%char).
Proof.
  intros Hl Hc. unfold Dryrun.strip. induction leading as [|y leading IH].
  - rewrite ?append_cons, ?append_nil_l. cbn [Dryrun.lstrip].
    destruct (token_char_stays c Hc) as [_ Hsp]. rewrite Hsp.
    destruct (rstrip_head c rest Hsp) as [r ->]. eauto.
  - cbn [all_chars] in Hl. apply andb_true_iff in Hl as [Hy Hl].
    rewrite ?append_cons, ?append_nil_l. cbn [Dryrun.lstrip].
    destruct (Dryrun.is_space y) eqn:Hsp; [by apply IH|].
    unfold is_separator in Hy. rewrite Hsp in Hy. cbn [orb] in Hy.
    apply Ascii.eqb_eq in Hy as ->.
    destruct (rstrip_head "," (leading ++ String c rest)%string Hsp) as [r ->]. eauto.
Qed.

Lemma read_parts_omap (py_int : str -> option Z) (parts : list str) :
  Dryrun.read_parts py_int parts = omap py_int parts.
Proof.
  induction parts as [|part parts IH]; [reflexivity|].
  cbn [Dryrun.read_parts omap list_omap]. destruct (py_int part); by rewrite IH.
Qed.

Lemma read_line_render (py_int : str -> option Z) (l : line) :
  well_formed l = true -> Dryrun.read_line py_int (render l) = uids_of py_int l.
Proof.
  destruct l as [ws|ws text|leading items]; cbn [well_formed render uids_of]; intros Hw.
  - unfold Dryrun.read_line, Dryrun.strip.
    rewrite <- (append_nil_r ws), (lstrip_blank ws "" Hw). reflexivity.
  - unfold Dryrun.read_line, Dryrun.strip. rewrite (lstrip_blank ws _ Hw).
    cbn [Dryrun.lstrip]. change (Dryrun.is_space "#") with false. cbv iota.
    destruct (rstrip_head "#" text eq_refl) as [r ->]. reflexivity.
  - apply andb_true_iff in Hw as [Hw Hfirst].
    apply andb_true_iff in Hw as [Hl Hitems].
    unfold Dryrun.read_line. rewrite split_strip. unfold Dryrun.split.
    rewrite (split_from_separators leading _ Hl), (split_join_tokens items Hitems).
    rewrite read_parts_omap.
    destruct items as [|[t sep] rest]; [by destruct (_ || _)|].
    cbn [well_separated is_token] in Hitems. unfold is_token in Hitems.
    destruct t as [|c t]; [discriminate|].
    cbn [all_chars String.eqb negb andb] in Hitems.
    assert (Hc : is_separator c = false).
    { destruct (is_separator c); [discriminate | reflexivity]. }
    cbn [join_tokens]. rewrite append_cons.
    destruct (strip_head leading c (t ++ sep ++ join_tokens rest)%string Hl Hc)
      as (x & r & -> & Hx).
    cbn [String.eqb Dryrun.is_comment orb].
    cbn [Dryrun.is_comment] in Hfirst.
    destruct Hx as [-> | ->]; [|reflexivity].
    apply negb_true_iff in Hfirst. by rewrite Hfirst.
Qed.

(** X18: the format [read_uids_from_stream] reads.  Of a stream whose lines are
    blank lines, comments (a [#] after optional whitespace) and lines of
    tokens separated by whitespace and commas, the blank lines and the
    comments give nothing, and every other line gives, in order, the values
    of its tokens that [int] reads; a token [int] refuses is skipped and
    the tokens after it are still read. *)
Theorem read_uids_from_stream_format (py_int : str -> option Z) (lines : list line) :
  forallb well_formed lines = true ->
  Dryrun.read_uids_from_stream py_int (render <$> lines)
  = concat (uids_of py_int <$> lines).
Proof.
  induction lines as [|l lines IH]; [reflexivity|].
  cbn [forallb]. intros [Hl Hlines]%andb_true_iff.
  rewrite !fmap_cons. cbn [Dryrun.read_uids_from_stream concat].
  by rewrite (read_line_render py_int l Hl), (IH Hlines).
Qed.

Lemma read_uids_from_stream_format_witness :
  Dryrun.read_uids_from_stream digits_int
    ["# exported"; "  "; "12,13, 14"; " 15 x16 17 "]
  = [12; 13; 14; 15; 17].
Proof.
  exact (read_uids_from_stream_format digits_int
           [Comment "" " exported"; Blank "  ";
            Uids "" [("12", ","); ("13", ", "); ("14", "")];
            Uids " " [("15", " "); ("x16", " "); ("17", " ")]] eq_refl).
Defined.






(** ** delete.py: the command line *)

Lemma StronglySorted_le_NoDup (l : list Z) :
  StronglySorted Z.le l -> NoDup l -> StronglySorted Z.lt l.
Proof.
  induction 1 as [|x l Hl IH Hx]; intros Hnd; [constructor|].
  apply NoDup_cons in Hnd as [Hnot Hnd]. constructor; [by apply IH|].
  rewrite Forall_forall in *. intros y Hy.
  assert (x <> y) by (intros ->; by apply Hnot).
  specialize (Hx y Hy). lia.
Qed.

Lemma collect_uids_spec (py_int : str -> option Z) (a : Cli.args) (input : Cli.stdin) :
  StronglySorted Z.lt (Cli.collect_uids py_int a input) /\
  (forall u, u ∈ Cli.collect_uids py_int a input <-> u ∈ given_uids py_int a input).
Proof.
  assert (H : forall l : list Z,
             StronglySorted Z.lt (sorted (elements (list_to_set l : gset Z))) /\
             (forall u, u ∈ sorted (elements (list_to_set l : gset Z)) <-> u ∈ l)).
  { intros l. unfold sorted. split.
    - apply StronglySorted_le_NoDup.
      + apply (StronglySorted_merge_sort Z.le).
      + rewrite merge_sort_Permutation. apply NoDup_elements.
    - intros u. by rewrite merge_sort_Permutation, elem_of_elements, elem_of_list_to_set. }
  unfold Cli.collect_uids, given_uids.
  destruct (Cli.file a) as [f|], input as [typed|lines];
    rewrite ?app_nil_r; try rewrite <- app_assoc; apply H.
Qed.

(** X20: the command line of the deletion tool.  The uids it works on are the
    uids given on the command line, in the file and on standard input, in
    ascending order and each once.  It sends a command that alters the
    mailbox only when [--confirm] was given and either [--yes] was given
    or the user typed, on a terminal, DELETE followed by the number of
    distinct uids; with the uids piped in and no [--yes] it sends nothing.
    Every STORE names only given uids, and unless the tool reaches the
    deletion the local database is left as it was. *)
Theorem main_deletes_only_on_confirmation (srv : server) (getenv : str -> option str)
  (py_int : str -> option Z) (max_variables : nat) (a : Cli.args) (input : Cli.stdin)
  (d : database) :
  let all_uids := Cli.collect_uids py_int a input in
  let run := Cli.main srv getenv py_int max_variables a input d in
  let confirmed :=
    Cli.confirm a = true /\
    (Cli.yes a = true \/
     input = Cli.Terminal (Some ("DELETE " ++ Cli.str_of_nat (length all_uids))%string)) in
  (StronglySorted Z.lt all_uids /\
   forall u, u ∈ all_uids <-> u ∈ given_uids py_int a input) /\
  (forall cmd, cmd ∈ commands_of run -> is_query cmd = false -> confirmed) /\
  (Cli.isatty input = false -> Cli.yes a = false ->
   commands_of run = [] /\ database_after d run = d) /\
  (forall marked, UID_STORE_DELETED marked ∈ commands_of run ->
     Forall (fun u => u ∈ given_uids py_int a input) marked) /\
  (database_after d run <> d -> confirmed).
Proof.
  intros all_uids run confirmed.
  pose proof (collect_uids_spec py_int a input) as [Hsorted Hmem].
  split; [split; [exact Hsorted | exact Hmem]|].
  assert (Hrun : (commands_of run = [] /\ database_after d run = d) \/
                 (confirmed /\
                  run = Cli.Deleted (Delete.delete_emails srv getenv all_uids
                                       (Cli.batch_size a) None d) /\
                  (Cli.isatty input = false -> Cli.yes a = true))).
  { subst run confirmed. unfold Cli.main. fold all_uids.
    destruct all_uids as [|u0 rest] eqn:Hall; [by left|].
    destruct (Cli.confirm a); [|by left].
    destruct (Cli.yes a); cbn [negb].
    - right. repeat split; auto.
    - destruct input as [[response|]|lines]; cbn [Cli.read_response]; try by left.
      destruct (String.eqb_spec response
                  ("DELETE " ++ Cli.str_of_nat (length (u0 :: rest)))%string)
        as [->|Hne]; cbn [negb]; [|by left].
      right. repeat split; auto. }
  destruct Hrun as [[Hnone Hsame] | (Hconf & Hdel & Hpiped)].
  - rewrite Hnone, Hsame. split; [|split; [|split]].
    + intros cmd Hcmd. by apply elem_of_nil in Hcmd.
    + intros _ _. by split.
    + intros marked Hin. by apply elem_of_nil in Hin.
    + intros Hne. by destruct Hne.
  - split; [|split; [|split]].
    + intros cmd _ _. exact Hconf.
    + intros Htty Hyes. rewrite (Hpiped Htty) in Hyes. discriminate.
    + intros marked Hin. rewrite Hdel in Hin. cbn [commands_of] in Hin.
      set (P := fun cmd => forall us, cmd = UID_STORE_DELETED us ->
                             Forall (fun u => u ∈ given_uids py_int a input) us).
      assert (H : sends_only P
                    (snd (Delete.delete_emails srv getenv all_uids (Cli.batch_size a)
                            None d))).
      { apply sends_only_delete_emails; try (intros us; discriminate).
        intros batch Hb us [= <-]. eapply Forall_impl; [exact Hb|].
        intros u Hu. by apply Hmem. }
      unfold sends_only in H. rewrite Forall_forall in H.
      exact (H _ Hin marked eq_refl).
    + intros _. exact Hconf.
Qed.
